(** * The batched, resumable fetch-and-assemble pipeline of the Cloudflare
    DNS-top crawlers ([iyp/crawlers/cloudflare/__init__.py])

    [DnsTopCrawler.fetch] plans batches of domain names whose result file is
    not yet in the crawler's temporary directory, requests each batch from
    the API, and writes one file per name from every answer that validates.
    [DnsTopCrawler.run] then reads the whole directory back and hands every
    record to the provider hooks.

    The development is a shallow embedding: Python values decoded from JSON
    are the inductive [json], the temporary directory is a finite map from
    paths to nodes, and the statements of [fetch] and [run] are written in a
    small state-and-exception monad [Py] over the crawler object. *)

From Stdlib Require Import String Ascii ZArith List Lia Permutation.
From stdpp Require Import base option list gmap strings sorting pretty.

(** ** Python values decoded from JSON *)

(** What [res.json()] and [json.load] return. A [JDict] keeps the members
    in document order, which is the iteration order of the Python [dict]
    ([data.items()]). Numbers are integers: the crawler reads a number
    for its truth value only, and numbers with a fraction are left out. *)
#[local] Unset Elimination Schemes.
Inductive json : Type :=
| JNull
| JBool (b : bool)
| JNum (n : Z)
| JStr (s : string)
| JList (l : list json)
| JDict (d : list (string * json)).
#[local] Set Elimination Schemes.

(** The exception classes the modelled statements can raise. *)
Inductive exn : Type :=
| KeyError
| IndexError
| TypeError
| ValueError
| AttributeError
| HTTPError
| JSONDecodeError
| RequestException
| OSError.

(** [issubclass(e, cls)] on the classes above: besides identity,
    [JSONDecodeError] derives from [ValueError]. *)
Definition issubclass (e cls : exn) : bool :=
  match e, cls with
  | KeyError, KeyError | IndexError, IndexError | TypeError, TypeError
  | ValueError, ValueError | AttributeError, AttributeError
  | HTTPError, HTTPError | JSONDecodeError, JSONDecodeError
  | RequestException, RequestException | OSError, OSError => true
  | JSONDecodeError, ValueError => true
  | _, _ => false
  end.

(** An [except (c1, c2, ...)] clause. *)
Definition except_tuple (classes : list exn) (e : exn) : bool :=
  existsb (issubclass e) classes.

(** An [except Exception] clause: every class above derives from
    [Exception]. *)
Definition Exception (e : exn) : bool :=
  match e with
  | KeyError | IndexError | TypeError | ValueError | AttributeError
  | HTTPError | JSONDecodeError | RequestException | OSError => true
  end.

(** Truth value of a decoded value ([not v] is its negation). *)
Definition truthy (v : json) : bool :=
  match v with
  | JNull => false
  | JBool b => b
  | JNum n => negb (n =? 0)%Z
  | JStr s => negb (String.eqb s "")
  | JList l => match l with [] => false | _ => true end
  | JDict d => match d with [] => false | _ => true end
  end.

(** Lookup of a key in a dict. *)
Fixpoint dict_get (d : list (string * json)) (k : string) : option json :=
  match d with
  | [] => None
  | (k', v) :: d' => if String.eqb k' k then Some v else dict_get d' k
  end.

(** [v[k]] for a string [k]. *)
Definition getitem_str (v : json) (k : string) : exn + json :=
  match v with
  | JDict d => match dict_get d k with Some x => inr x | None => inl KeyError end
  | _ => inl TypeError
  end.

(** [v[i]] for a non-negative integer [i]. The keys of a decoded dict are
    strings, so an integer is never one of them. *)
Definition getitem_int (v : json) (i : nat) : exn + json :=
  match v with
  | JDict _ => inl KeyError
  | JList l => match l !! i with Some x => inr x | None => inl IndexError end
  | JStr s => match String.get i s with
              | Some c => inr (JStr (String c ""))
              | None => inl IndexError
              end
  | _ => inl TypeError
  end.

(** [v.items()]: only a dict has the method. *)
Definition items (v : json) : exn + list (string * json) :=
  match v with
  | JDict d => inr d
  | _ => inl AttributeError
  end.

(** ** Paths and the temporary directory *)

(** [s.startswith(p)] and [s.endswith(suffix)]. *)
Fixpoint startswith (s p : string) : bool :=
  match p, s with
  | EmptyString, _ => true
  | String a p', String b s' => Ascii.eqb a b && startswith s' p'
  | String _ _, EmptyString => false
  end.

Fixpoint endswith (s suffix : string) : bool :=
  String.eqb s suffix ||
  match s with
  | EmptyString => false
  | String _ s' => endswith s' suffix
  end.

(** [os.path.join(a, b)] of [posixpath], for two components. *)
Definition os_path_join (a b : string) : string :=
  if startswith b "/" then b
  else if String.eqb a "" || endswith a "/" then a +:+ b
  else a +:+ "/" +:+ b.

(** The rest of [s] after the prefix [p], when [s] starts with [p]. *)
Fixpoint strip_prefix (p s : string) : option string :=
  match p, s with
  | EmptyString, _ => Some s
  | String a p', String b s' => if Ascii.eqb a b then strip_prefix p' s' else None
  | String _ _, EmptyString => None
  end.

Fixpoint has_slash (s : string) : bool :=
  match s with
  | EmptyString => false
  | String c s' => Ascii.eqb c "/" || has_slash s'
  end.

(** A name a directory entry can have: not empty, no separator. *)
Definition entry_name (s : string) : bool :=
  negb (String.eqb s "") && negb (has_slash s).

(** What a path names: a directory, or a regular file with its content
    ([None] when the content is not a JSON document). *)
Inductive node : Type :=
| Dir
| File (content : option json).

Definition is_file (n : node) : bool :=
  match n with File _ => true | Dir => false end.

(** [os.path.exists(path)]. *)
Definition path_exists (fs : gmap string node) (path : string) : bool :=
  bool_decide (is_Some (fs !! path)).

(** [os.scandir(dir)]: the entries directly inside [dir], each with its
    name, in the directory's own (unspecified) order. *)
Definition os_scandir (fs : gmap string node) (dir : string) : list (string * node) :=
  omap (fun pn : string * node =>
          match strip_prefix (os_path_join dir "") pn.1 with
          | Some name => if entry_name name then Some (name, pn.2) else None
          | None => None
          end)
       (map_to_list fs).

(** ** Requests *)

Record response : Type := Response {
  status_code : Z;
  body : option json          (* [None]: the body is not JSON *)
}.

(** What a request ends with once the transport's retries are over:
    [query.result()] raises or returns the response. *)
Inductive outcome : Type :=
| Raised (e : exn)
| Returned (r : response).

(** The future [req_session.get(url)] returns, with the two attributes
    [fetch] attaches to it. [seq] is the request's position among the
    requests of the run. *)
Record future : Type := Future {
  seq : nat;
  url : string;
  result : outcome;
  domains : list string;
  fpaths : gmap string string
}.

(** ** Planning the batches ([fetch], lines 76-114) *)

Definition BATCH_SIZE : nat := 10.
Definition TOP_LIMIT : string := "100".

(** [f'data_{name}.json'] and its path in the temporary directory. *)
Definition fname (name : string) : string := "data_" +:+ name +:+ ".json".
Definition fpath (tmp_dir name : string) : string := os_path_join tmp_dir (fname name).

(** The query string: [?limit=100] and one [dateRange]/[domain] pair per
    name of the batch. *)
Definition get_params (batch : list string) : string :=
  fold_left (fun acc domain => acc +:+ "&dateRange=7d&domain=" +:+ domain)
            batch ("?limit=" +:+ TOP_LIMIT).

(** The locals of the [while] loop. *)
Record loop_state : Type := LoopState {
  i : nat;
  batch : list string;
  fpaths_acc : gmap string string;
  queries : list future
}.

(** The four ways one iteration of the loop body ends. *)
Inductive branch : Type :=
| CacheSkip      (* line 90: the file exists, [continue] *)
| BatchOpen      (* line 97: batch not full and not the last iteration *)
| EmptyGuard     (* line 102: [if not batch: break] *)
| Emitted.       (* line 114: a request was issued *)

Section Planner.

(** [self.url], [self.names], the batch size, the temporary directory with
    its content while the loop runs, and the network: the outcome of the
    [n]-th request of the run, by its URL. *)
Variable self_url : string.
Variable names : list string.
Variable batch_size : nat.
Variable tmp_dir : string.
Variable fs : gmap string node.
Variable network : nat -> string -> outcome.

Definition req_session_get (n : nat) (u : string) : outcome := network n u.

(** The loop body for [name = self.names[i]]. *)
Definition loop_body (name : string) (st : loop_state) : branch * loop_state :=
  let i' := S (i st) in
  let fp := os_path_join tmp_dir (fname name) in
  if path_exists fs fp then
    (CacheSkip, LoopState i' (batch st) (fpaths_acc st) (queries st))
  else
    let fpaths' := <[name := fp]> (fpaths_acc st) in
    let batch' := batch st ++ [name] in
    if (length batch' <? batch_size) && (i' <? length names) then
      (BatchOpen, LoopState i' batch' fpaths' (queries st))
    else
      match batch' with
      | [] => (EmptyGuard, LoopState i' batch' fpaths' (queries st))
      | _ =>
          let u := self_url +:+ get_params batch' in
          let n := length (queries st) in
          let fut := Future n u (req_session_get n u) batch' fpaths' in
          (Emitted, LoopState i' [] ∅ (queries st ++ [fut]))
      end.

(** [while i < len(self.names)]: the loop, with a bound on the number of
    iterations ([None] when the bound is reached first). *)
Fixpoint while_loop (fuel : nat) (st : loop_state) : option loop_state :=
  match names !! i st with
  | None => Some st
  | Some name =>
      match fuel with
      | 0 => None
      | S fuel' =>
          match loop_body name st with
          | (EmptyGuard, st') => Some st'
          | (_, st') => while_loop fuel' st'
          end
      end
  end.

Definition loop_init : loop_state := LoopState 0 [] ∅ [].

(** The same loop by recursion on the names not yet visited,
    [self.names[i:]]; [while_loop_plan_from] relates the two. *)
Fixpoint plan_from (rest : list string) (st : loop_state) : loop_state :=
  match rest with
  | [] => st
  | name :: rest' =>
      match loop_body name st with
      | (EmptyGuard, st') => st'
      | (_, st') => plan_from rest' st'
      end
  end.

(** The futures in [queries] when the loop is left. At most
    [len(self.names)] iterations run ([while_loop_total]). *)
Definition planned_queries : list future :=
  match while_loop (length names) loop_init with
  | Some st => queries st
  | None => []
  end.

End Planner.

(** ** The crawler's state and the monad of its statements *)

(** A time stamp in UTC, what
    [datetime.strptime(...).replace(tzinfo=timezone.utc)] returns. *)
Record datetime : Type := Datetime {
  year : nat; month : nat; day : nat;
  hour : nat; minute : nat; second : nat
}.

(** What the run does besides changing files, in order. *)
Inductive event : Type :=
| Completed (n : nat)                      (* [as_completed] yields request [n] *)
| LogWarning (e : exn)                     (* [logging.warning] *)
| LogError (names : list string) (e : exn) (* [logging.error] *)
| Read (path : string)                     (* [json.load] of a file *)
| ComputeLink (domain_top : string * json) (* [self.compute_link] *)
| MapLinks                                 (* [self.map_links] *)
| BatchAddLinks.                           (* [self.iyp.batch_add_links] *)

Record state : Type := State {
  files : gmap string node;
  reference_time_modification : option datetime;
  trace : list event
}.

(** How a statement ends. *)
Inductive completion (A : Type) : Type :=
| Normal (a : A)
| Raise (e : exn).
Arguments Normal {A} a.
Arguments Raise {A} e.

Definition Py (A : Type) : Type := state -> completion A * state.

#[export] Instance Py_ret : MRet Py := fun A a s => (Normal a, s).

#[export] Instance Py_bind : MBind Py := fun A B f m s =>
  match m s with
  | (Normal a, s') => f a s'
  | (Raise e, s') => (Raise e, s')
  end.

#[export] Instance sum_ret {E} : MRet (sum E) := fun A a => inr a.

#[export] Instance sum_bind {E} : MBind (sum E) := fun A B f m =>
  match m with
  | inr a => f a
  | inl e => inl e
  end.

Definition raise {A} (e : exn) : Py A := fun s => (Raise e, s).

(** An expression that raises or has a value. *)
Definition lift {A} (r : exn + A) : Py A :=
  match r with
  | inl e => raise e
  | inr a => mret a
  end.

(** [try: body / except catch as e: handler e]. *)
Definition try_except {A} (body : Py A) (catch : exn -> bool) (handler : exn -> Py A) : Py A :=
  fun s =>
    match body s with
    | (Raise e, s') => if catch e then handler e s' else (Raise e, s')
    | r => r
    end.

(** [for x in l: body x]; a [continue] is a body that ends early. *)
Fixpoint for_each {A} (l : list A) (body : A -> Py unit) : Py unit :=
  match l with
  | [] => mret tt
  | x :: l' => body x ;; for_each l' body
  end.

(** [enumerate(l)]. *)
Fixpoint enumerate_from {A} (n : nat) (l : list A) : list (nat * A) :=
  match l with
  | [] => []
  | x :: l' => (n, x) :: enumerate_from (S n) l'
  end.
Definition enumerate {A} (l : list A) : list (nat * A) := enumerate_from 0 l.

Definition emit (e : event) : Py unit :=
  fun s => (Normal tt, State (files s) (reference_time_modification s) (trace s ++ [e])).

Definition get_files : Py (gmap string node) := fun s => (Normal (files s), s).

Definition get_reference_time_modification : Py (option datetime) :=
  fun s => (Normal (reference_time_modification s), s).

Definition set_reference_time_modification (d : datetime) : Py unit :=
  fun s => (Normal tt, State (files s) (Some d) (trace s)).

(** [with open(path, 'w') as fp: json.dump(doc, fp)]. [fetch] only opens
    paths that did not exist when it planned, so the file is created (or
    is one this run created). *)
Definition json_dump_file (path : string) (doc : json) : Py unit :=
  fun s => (Normal tt,
            State (<[path := File (Some doc)]> (files s)) (reference_time_modification s) (trace s)).

(** [with open(path, 'rb') as fp: json.load(fp)]. *)
Definition json_load_file (path : string) : Py json :=
  emit (Read path) ;;
  fs ← get_files;
  match fs !! path with
  | Some (File (Some doc)) => mret doc
  | Some (File None) => raise JSONDecodeError
  | Some Dir | None => raise OSError
  end.

Definition scandir (dir : string) : Py (list (string * node)) :=
  fs ← get_files; mret (os_scandir fs dir).

(** ** One completed request ([fetch], lines 116-145) *)

Definition raise_for_status (res : response) : exn + unit :=
  if ((400 <=? status_code res) && (status_code res <? 600))%Z then inl HTTPError else inr tt.

Definition res_json (res : response) : exn + json :=
  match body res with
  | Some data => inr data
  | None => inl JSONDecodeError
  end.

Definition query_result (query : future) : exn + response :=
  match result query with
  | Raised e => inl e
  | Returned res => inr res
  end.

(** Lines 118-125: the response's [result] member, once the status and the
    [success] flag are checked. *)
Definition validated (query : future) : exn + json :=
  res ← query_result query;
  raise_for_status res ;;
  data ← res_json res;
  success ← getitem_str data "success";
  (if negb (truthy success) then inl ValueError else inr tt) ;;
  getitem_str data "result".

Definition list_getitem (l : list string) (idx : nat) : exn + string :=
  match l !! idx with
  | Some x => inr x
  | None => inl IndexError
  end.

Definition map_getitem (m : gmap string string) (k : string) : exn + string :=
  match m !! k with
  | Some x => inr x
  | None => inl KeyError
  end.

(** The provider hooks ([compute_link] and [map_links] are given by the
    subclasses) and the graph client: the model records their calls. *)
Definition compute_link (domain_top : string * json) : Py unit := emit (ComputeLink domain_top).
Definition map_links : Py unit := emit MapLinks.
Definition batch_add_links : Py unit := emit BatchAddLinks.

Definition logging_warning (e : exn) : Py unit := emit (LogWarning e).
Definition logging_error (names : list string) (e : exn) : Py unit := emit (LogError names e).

(** [concurrent.futures.as_completed]: every future once, in the order
    the requests finish. *)
Record scheduler : Type := Scheduler {
  as_completed : list future -> list future;
  as_completed_perm : forall qs, as_completed qs ≡ₚ qs
}.

Section Crawler.

(** [datetime.strptime(s, '%Y-%m-%dT%H:%M:%SZ')] made aware of UTC, [None]
    when it raises [ValueError]. *)
Variable strptime : string -> option datetime.
Variable sched : scheduler.
Variable self_url : string.
Variable names : list string.
Variable tmp_dir : string.
Variable network : nat -> string -> outcome.

Definition datetime_strptime (v : json) : exn + datetime :=
  match v with
  | JStr s => match strptime s with Some d => inr d | None => inl ValueError end
  | _ => inl TypeError
  end.

(** Lines 130-131. *)
Definition end_time (data : json) : exn + datetime :=
  meta ← getitem_str data "meta";
  date_range ← getitem_str meta "dateRange";
  first ← getitem_int date_range 0;
  date_str ← getitem_str first "endTime";
  datetime_strptime date_str.

(** Lines 127-134. *)
Definition set_modification_time (data : json) : Py unit :=
  rtm ← get_reference_time_modification;
  match rtm with
  | Some _ => mret tt
  | None =>
      try_except
        (date ← lift (end_time data); set_reference_time_modification date)
        (except_tuple [KeyError; ValueError; TypeError])
        (fun e => logging_warning e)
  end.

(** The body of the loop of lines 136-141. *)
Definition write_record (query : future) (item : nat * (string * json)) : Py unit :=
  let '(idx, (placeholder, res)) := item in
  if String.eqb placeholder "meta" then mret tt
  else
    domain ← lift (list_getitem (domains query) idx);
    path ← lift (map_getitem (fpaths query) domain);
    json_dump_file path (JDict [(domain, res)]).

(** Lines 118-136: what the [try] does before the first iteration of the
    loop over [data.items()]. *)
Definition response_entries (query : future) : Py (list (string * json)) :=
  data ← lift (validated query);
  set_modification_time data ;;
  lift (items data).

(** Lines 118-141, the body of the [try]. *)
Definition try_body (query : future) : Py unit :=
  entries ← response_entries query;
  for_each (enumerate entries) (write_record query).

(** One iteration of [for query in as_completed(queries)]. *)
Definition process (query : future) : Py unit :=
  emit (Completed (seq query)) ;;
  try_except (try_body query) Exception (fun e => logging_error (domains query) e).

(** Modelled from the spec: [BaseCrawler.create_tmp_dir] and
    [BaseCrawler.get_tmp_dir] ([iyp/__init__.py] is not among the sources).
    Both name the crawler's cache directory, and creating it keeps the
    records of earlier runs: the spec's Cache Store is "restartable across
    runs" and its reset is "not invoked automatically by the fetch/assemble
    cycle itself". *)
Definition create_tmp_dir : Py string := mret tmp_dir.
Definition get_tmp_dir : Py string := mret tmp_dir.

(** [for query in as_completed(queries)], for the futures in the order
    [done] they are yielded in. *)
Definition fetch_loop (done : list future) : Py unit := for_each done process.

Definition fetch : Py unit :=
  dir ← create_tmp_dir;
  fs ← get_files;
  let queries := planned_queries self_url names BATCH_SIZE dir fs network in
  fetch_loop (as_completed sched queries).

(** The body of [for entry in os.scandir(tmp_dir)] (lines 153-163). *)
Definition load_entry (dir : string) (entry : string * node) : Py unit :=
  if negb (is_file entry.2) || negb (endswith entry.1 ".json") then mret tt
  else
    let file := os_path_join dir entry.1 in
    results ← json_load_file file;
    if negb (truthy results) then mret tt
    else
      entries ← lift (items results);
      for_each entries compute_link.

(** Lines 150-167: what [run] does once [self.fetch()] has returned. *)
Definition assemble : Py unit :=
  dir ← get_tmp_dir;
  entries ← scandir dir;
  for_each entries (load_entry dir) ;;
  map_links ;;
  batch_add_links.

Definition run : Py unit :=
  fetch ;;
  assemble.

End Crawler.

(** ** The working set ([DnsTopCrawler.__init__], lines 33-52) *)

(** [{node['dname']: node['_id'] for node in existing_dn}], for the rows
    of the query, each with its [dname] and its [_id]: a later row
    replaces an earlier one with the same name. *)
Definition domain_names_id (existing_dn : list (string * string)) : gmap string string :=
  foldl (fun m node => <[node.1 := node.2]> m) ∅ existing_dn.

Definition host_names_id : gmap string string := ∅.

(** [self.names]: [list(sorted(set(...).union(...)))]. Strings are
    compared byte by byte, which is Python's order on code points for
    UTF-8 text. *)
Definition self_names (existing_dn : list (string * string)) : list string :=
  merge_sort String.le
    (elements (dom (domain_names_id existing_dn) ∪ dom host_names_id)).

(** ** Statements of the other crawlers *)

(** What the other crawlers raise: a built-in exception, the
    [JSONDecodeError] that [iyp] exports, or [SystemExit] from
    [sys.exit]. *)
Inductive raised : Type :=
| Builtin (e : exn)
| IypJSONDecodeError
| SystemExit.

(** Statements over a state [St]. *)
Definition Stmt (St A : Type) : Type := St -> (raised + A) * St.

#[export] Instance Stmt_ret {St} : MRet (Stmt St) := fun A a s => (inr a, s).

#[export] Instance Stmt_bind {St} : MBind (Stmt St) := fun A B f m s =>
  match m s with
  | (inr a, s') => f a s'
  | (inl e, s') => (inl e, s')
  end.

Definition throw {St A} (e : raised) : Stmt St A := fun s => (inl e, s).

(** An expression that raises a built-in exception or has a value. *)
Definition eval {St A} (r : exn + A) : Stmt St A :=
  match r with
  | inl e => throw (Builtin e)
  | inr a => mret a
  end.

(** [for x in l: body x]. *)
Fixpoint for_all {St A} (l : list A) (body : A -> Stmt St unit) : Stmt St unit :=
  match l with
  | [] => mret tt
  | x :: l' => body x ;; for_all l' body
  end.

(** [iter(v)]: the elements of a list, the keys of a dict, the
    characters of a string; nothing else is iterable. *)
Fixpoint chars (s : string) : list json :=
  match s with
  | EmptyString => []
  | String c s' => JStr (String c EmptyString) :: chars s'
  end.

Definition py_iter (v : json) : exn + list json :=
  match v with
  | JList l => inr l
  | JDict d => inr (map (fun kv => JStr kv.1) d)
  | JStr s => inr (chars s)
  | _ => inl TypeError
  end.

(** What a request made with [requests] ends with. [lines] is
    [text.splitlines()], [json_doc] what [json()] (or [json.loads(text)])
    returns, [None] when the text is not JSON. *)
Record reply : Type := Reply {
  status : Z;
  json_doc : option json;
  lines : list string
}.

Inductive answer : Type :=
| Failed (e : exn)
| Answered (r : reply).

Definition request (a : answer) : exn + reply :=
  match a with
  | Failed e => inl e
  | Answered r => inr r
  end.

Definition reply_json (r : reply) : exn + json :=
  match json_doc r with
  | Some v => inr v
  | None => inl JSONDecodeError
  end.

(** [d[k] = v] on a dict: the value of a key it has is replaced in
    place, a new key goes last. *)
Fixpoint dict_set (d : list (string * json)) (k : string) (v : json) : list (string * json) :=
  match d with
  | [] => [(k, v)]
  | (k', v') :: d' => if String.eqb k' k then (k', v) :: d' else (k', v') :: dict_set d' k v
  end.

(** [dict(d, **kwargs)]. *)
Definition dict_kwargs (d kwargs : list (string * json)) : list (string * json) :=
  fold_left (fun acc kv => dict_set acc kv.1 kv.2) kwargs d.

(** ** The PeeringDB organizations ([iyp/crawlers/peeringdb/org.py]) *)

Module PeeringdbOrg.

Definition URL_PDB_ORGS : string := "https://peeringdb.com/api/org".
Definition ORGID_LABEL : string := "PeeringDB organization ID".

(** What the crawler asks of the wikibase and of the outside, in order.
    A call to the wikibase is taken to return; what a request to
    PeeringDB ends with is a parameter. *)
Inductive call : Type :=
| Message (text : string)    (* [sys.stderr.write] of a fixed text *)
| HttpGet (url : string)
| Login
| AddItem (summary : string) (label : json) (statements : json)
| UpsertStatements (summary : string) (qid : json) (statements : json)
| Progress (i n : nat).      (* [sys.stderr.write] of [i+1] and [len(organizations)] *)

(** The crawler: [self.orgid2qid] and the calls made so far. *)
Record crawler : Type := Crawler {
  orgid2qid : gmap string json;
  calls : list call
}.

Section Wikibase.

(** [self.wh.get_pid] and [self.wh.get_qid] (a QID, or [None]), the QID
    [self.wh.add_item] returns given the calls made before it,
    [self.reference], the built-ins [str] and [str.strip], the table
    [iso3166.countries_by_alpha2] by country name, and what the request
    to PeeringDB ends with. *)
Variable get_pid : string -> json.
Variable get_qid : string -> json.
Variable add_item_qid : list call -> json.
Variable reference : json.
Variable str : json -> string.
Variable strip : string -> string.
Variable countries_by_alpha2 : gmap string string.
Variable answer_orgs : answer.

Definition do (c : call) : Stmt crawler unit :=
  fun s => (inr tt, Crawler (orgid2qid s) (calls s ++ [c])).

Definition get_orgid2qid : Stmt crawler (gmap string json) :=
  fun s => (inr (orgid2qid s), s).

Definition set_orgid2qid (key : string) (qid : json) : Stmt crawler unit :=
  fun s => (inr tt, Crawler (<[key := qid]> (orgid2qid s)) (calls s)).

(** [self.wh.add_item(summary, label=..., statements=...)]. *)
Definition add_item (summary : string) (label statements : json) : Stmt crawler json :=
  fun s => (inr (add_item_qid (calls s)),
            Crawler (orgid2qid s) (calls s ++ [AddItem summary label statements])).

(** [org_qid], lines 81-99. Tuples are lists here. *)
Definition org_qid (organization : json) : Stmt crawler json :=
  id ← eval (getitem_str organization "id");
  known ← get_orgid2qid;
  (if known !! str id is None then
     let org_qualifier := JList [JList [get_pid "instance of"; get_qid ORGID_LABEL]] in
     id ← eval (getitem_str organization "id");
     let statements :=
       JList [JList [get_pid "external ID"; JStr (str id); JList []; org_qualifier]] in
     label ← eval (getitem_str organization "name");
     qid ← add_item "add new peeringDB organization" label statements;
     id ← eval (getitem_str organization "id");
     set_orgid2qid (str id) qid
   else mret tt) ;;
  id ← eval (getitem_str organization "id");
  known ← get_orgid2qid;
  match known !! str id with
  | Some qid => mret qid
  | None => throw (Builtin KeyError)
  end.

(** [s.strip()]: only a string has the method. *)
Definition strip_method (v : json) : exn + json :=
  match v with
  | JStr s => inr (JStr (strip s))
  | _ => inl AttributeError
  end.

(** [v in iso3166.countries_by_alpha2]: a list or a dict cannot be
    hashed; the keys are strings. *)
Definition in_countries (v : json) : exn + option string :=
  match v with
  | JStr c => inr (countries_by_alpha2 !! c)
  | JList _ | JDict _ => inl TypeError
  | _ => inr None
  end.

(** [update_org], lines 57-79. *)
Definition update_org (organization : json) : Stmt crawler json :=
  name ← eval (getitem_str organization "name");
  name ← eval (strip_method name);
  let statements :=
    [JList [get_pid "instance of"; get_qid "organization"];
     JList [get_pid "name"; name; reference]] in
  website ← eval (getitem_str organization "website");
  statements ←
    (if truthy website then
       website ← eval (getitem_str organization "website");
       mret (statements ++ [JList [get_pid "website"; website; reference]])
     else mret statements);
  country ← eval (getitem_str organization "country");
  found ← eval (in_countries country);
  let statements :=
    match found with
    | Some country_name =>
        match get_qid country_name with
        | JNull => statements
        | country_qid => statements ++ [JList [get_pid "country"; country_qid; reference]]
        end
    | None => statements
    end in
  qid ← org_qid organization;
  do (UpsertStatements "update peeringDB organization" qid (JList statements)) ;;
  mret qid.

(** [len(organizations)] of a value that could be iterated. *)
Definition py_len (v : json) : nat :=
  match py_iter v with
  | inr l => length l
  | inl _ => 0
  end.

(** The external ID in the statements of an [add_item]. *)
Definition added_id (c : call) : option json :=
  match c with
  | AddItem _ _ (JList [JList [_; id; _; _]]) => Some id
  | _ => None
  end.

(** [run], lines 43-55. *)
Definition run : Stmt crawler unit :=
  do (Message "Fetching PeeringDB data...") ;;
  do (HttpGet URL_PDB_ORGS) ;;
  req ← eval (request answer_orgs);
  (if negb (status req =? 200)%Z then throw SystemExit else mret tt) ;;
  doc ← eval (reply_json req);
  organizations ← eval (getitem_str doc "data");
  do Login ;;
  orgs ← eval (py_iter organizations);
  for_all (enumerate orgs)
    (fun '(i, organization) =>
       update_org organization ;;
       do (Progress (i + 1) (py_len organizations))).

End Wikibase.

(** From [s] to [s'] organizations were added only under IDs that
    [orgid2qid] did not have, each once, every one is registered in
    [orgid2qid] afterwards, and no ID was forgotten. *)
Definition adds_fresh (s s' : crawler) : Prop :=
  exists new,
    calls s' = calls s ++ new /\
    NoDup (omap added_id new) /\
    (forall id, id ∈ omap added_id new ->
       exists k, id = JStr k /\ orgid2qid s !! k = None /\ is_Some (orgid2qid s' !! k)) /\
    (forall k, is_Some (orgid2qid s !! k) -> is_Some (orgid2qid s' !! k)).

(** What [update_org] needs of an organization. *)
Definition hashable (v : json) : bool :=
  match v with
  | JList _ | JDict _ => false
  | _ => true
  end.

Definition complete (organization : json) : Prop :=
  (exists name, getitem_str organization "name" = inr (JStr name)) /\
  (exists website, getitem_str organization "website" = inr website) /\
  (exists country, getitem_str organization "country" = inr country /\
                   hashable country = true) /\
  (exists id, getitem_str organization "id" = inr id).

Definition is_upsert (c : call) : bool :=
  match c with
  | UpsertStatements _ _ _ => true
  | _ => false
  end.

(** The call [c] updates the organization on the QID that [orgid2qid]
    holds for its ID in [s]. *)
Definition updates (s : crawler) (str : json -> string) (organization : json) (c : call) : Prop :=
  exists id q statements,
    getitem_str organization "id" = inr id /\
    orgid2qid s !! str id = Some q /\
    c = UpsertStatements "update peeringDB organization" q statements.

End PeeringdbOrg.

(** ** Cloudflare's top 100 domains ([iyp/crawlers/cloudflare/top100.py]) *)

Module CloudflareTop100.

(** What the crawler asks of IYP and of the outside, in order. A call
    to IYP is taken to return; what the request ends with is a
    parameter. *)
Inductive call : Type :=
| GetNode (label : string) (props : json)    (* [self.iyp.get_node(..., create=True)] *)
| HttpGet (url : json)
| PrintCannotDownload (r : reply)
| AddLinks (src : json) (statements : json)
| Progress (i : nat)                         (* [sys.stderr.write] of [i] *)
| Newline.

(** The crawler: [self.cf_qid], unset before [run], and the calls made so far. *)
Record crawler : Type := Crawler {
  cf_qid : option json;
  calls : list call
}.

Section Iyp.

(** The ID [self.iyp.get_node] returns given the calls made before it,
    [self.reference], and what the request for a URL ends with. *)
Variable node_id : list call -> json.
Variable reference : list (string * json).
Variable download : json -> answer.

Definition do (c : call) : Stmt crawler unit :=
  fun s => (inr tt, Crawler (cf_qid s) (calls s ++ [c])).

Definition get_node (label : string) (props : json) : Stmt crawler json :=
  fun s => (inr (node_id (calls s)), Crawler (cf_qid s) (calls s ++ [GetNode label props])).

Definition set_cf_qid (qid : json) : Stmt crawler unit :=
  fun s => (inr tt, Crawler (Some qid) (calls s)).

Definition get_cf_qid : Stmt crawler json :=
  fun s => match cf_qid s with
           | Some qid => (inr qid, s)
           | None => (inl (Builtin AttributeError), s)
           end.

(** [update], lines 42-52. *)
Definition update (entry : json) : Stmt crawler unit :=
  cf ← get_cf_qid;
  rank ← eval (getitem_str entry "rank");
  let statements :=
    JList [JList [JStr "RANK"; cf; JDict (dict_kwargs [("rank", rank)] reference)]] in
  name ← eval (getitem_str entry "domain");
  domain_qid ← get_node "DOMAIN_NAME" (JDict [("name", name)]);
  do (AddLinks domain_qid statements).

(** [run], lines 20-40. *)
Definition run : Stmt crawler unit :=
  qid ← get_node "RANKING" (JDict [("name", JStr "Cloudflare top 100 domains")]);
  set_cf_qid qid ;;
  url ← eval (getitem_str (JDict reference) "reference_url");
  do (HttpGet url) ;;
  req ← eval (request (download url));
  (if negb (status req =? 200)%Z
   then do (PrintCannotDownload req) ;; throw SystemExit
   else mret tt) ;;
  doc ← eval (reply_json req);
  result ← eval (getitem_str doc "result");
  top ← eval (getitem_str result "top");
  entries ← eval (py_iter top);
  for_all (enumerate entries) (fun '(i, entry) => update entry ;; do (Progress i)) ;;
  do Newline.

End Iyp.

(** An entry [update] can take, and a call that links it to the
    ranking [cf] with its rank and the reference. *)
Definition ranked (entry : json) : Prop :=
  (exists rank, getitem_str entry "rank" = inr rank) /\
  (exists name, getitem_str entry "domain" = inr name).

Definition is_add_links (c : call) : bool :=
  match c with
  | AddLinks _ _ => true
  | _ => false
  end.

Definition links (reference : list (string * json)) (cf : json) (entry : json) (c : call) : Prop :=
  exists rank src,
    getitem_str entry "rank" = inr rank /\
    c = AddLinks src
          (JList [JList [JStr "RANK"; cf; JDict (dict_kwargs [("rank", rank)] reference)]]).

End CloudflareTop100.

(** ** Cloudflare's ranking buckets ([iyp/crawlers/cloudflare/ranking_bucket.py]) *)

Module CloudflareRankingBucket.

Definition URL_DATASETS : string :=
  "https://api.cloudflare.com/client/v4/radar/datasets?limit=10&offset=0&datasetType=RANKING_BUCKET&format=json".
Definition URL_DL : string :=
  "https://api.cloudflare.com/client/v4/radar/datasets/download".

(** What the crawler logs and asks of IYP and of the outside, in order.
    A call to IYP is taken to return; what a request ends with is a
    parameter. A link is its [src_id] and [dst_id]; its [props] are
    the one [self.reference], whose modification time at the call is
    recorded with the batch. *)
Inductive call : Type :=
| LogFetching                                     (* line 51 *)
| LogApiError (r : reply)                         (* line 57 *)
| LogWarning (e : exn)                            (* line 74 *)
| LogCannotGetUrl (id : json) (r : reply)         (* line 79 *)
| LogInfo (v : json)                              (* line 82 *)
| LogCannotDownload (id : json) (r : reply)       (* line 87 *)
| LogProcessing (dataset_title : string)          (* line 103 *)
| SessionGet (url : string)
| SessionPost (url : string) (body : json)
| RequestsGet (url : json)
| BatchGetNodes (label prop : string) (values : gset string)
| GetNode (label : string) (props : json)
| BatchAddLinks (type : string) (links : list (json * json))
    (reference_time : option datetime).

(** The crawler: [self.reference['reference_time_modification']] and
    the calls made so far. *)
Record crawler : Type := Crawler {
  reference_time : option datetime;
  calls : list call
}.

(** [k in v] for a string [k]: a key of a dict, an element of a list,
    a part of a string. *)
Definition contains (v : json) (k : string) : exn + bool :=
  match v with
  | JDict d => inr (if dict_get d k is Some _ then true else false)
  | JList l => inr (existsb (fun x => if x is JStr s then String.eqb s k else false) l)
  | JStr s => inr (if String.index 0 k s is Some _ then true else false)
  | _ => inl TypeError
  end.

(** [v[k] = x]: only a dict takes a string key. *)
Definition setitem_str (v : json) (k : string) (x : json) : exn + json :=
  match v with
  | JDict d => inr (JDict (dict_set d k x))
  | _ => inl TypeError
  end.

Section Iyp.

(** [datetime.strptime(s, '%Y-%m-%d')] made aware of UTC, [None] when
    it raises [ValueError]; the built-in [str]; what the three kinds of
    request end with; the IDs [batch_get_nodes_by_single_prop] and
    [get_node] return given the calls made before. *)
Variable strptime_date : string -> option datetime.
Variable str : json -> string.
Variable answer_datasets : answer.
Variable answer_post : json -> answer.
Variable answer_get : json -> answer.
Variable node_ids : list call -> gset string -> gmap string json.
Variable node_id : list call -> json.

Definition do (c : call) : Stmt crawler unit :=
  fun s => (inr tt, Crawler (reference_time s) (calls s ++ [c])).

Definition get_reference_time : Stmt crawler (option datetime) :=
  fun s => (inr (reference_time s), s).

Definition set_reference_time (date : datetime) : Stmt crawler unit :=
  fun s => (inr tt, Crawler (Some date) (calls s)).

Definition batch_get_nodes (label prop : string) (values : gset string)
  : Stmt crawler (gmap string json) :=
  fun s => (inr (node_ids (calls s) values),
            Crawler (reference_time s) (calls s ++ [BatchGetNodes label prop values])).

Definition get_node (label : string) (props : json) : Stmt crawler json :=
  fun s => (inr (node_id (calls s)),
            Crawler (reference_time s) (calls s ++ [GetNode label props])).

Definition batch_add_links (type : string) (links : list (json * json)) : Stmt crawler unit :=
  fun s => (inr tt,
            Crawler (reference_time s)
              (calls s ++ [BatchAddLinks type links (reference_time s)])).

(** [req.raise_for_status()]. *)
Definition raise_for_status (req : reply) : Stmt crawler unit :=
  if ((400 <=? status req) && (status req <? 600))%Z
  then throw (Builtin HTTPError)
  else mret tt.

(** Lines 70-71. *)
Definition target_date (dataset : json) : exn + datetime :=
  meta ← getitem_str dataset "meta";
  date_str ← getitem_str meta "targetDateEnd";
  datetime_strptime strptime_date date_str.

(** Lines 66-74. *)
Definition set_modification_time (dataset : json) : Stmt crawler unit :=
  rtm ← get_reference_time;
  match rtm with
  | Some _ => mret tt
  | None =>
      match target_date dataset with
      | inr date => set_reference_time date
      | inl e =>
          if except_tuple [KeyError; ValueError; TypeError] e
          then do (LogWarning e)
          else throw (Builtin e)
      end
  end.

(** The body of the loop of lines 65-93: [None] is [continue],
    otherwise the pair that is appended to [datasets]. *)
Definition fetch_dataset (dataset : json) : Stmt crawler (option (json * gset string)) :=
  set_modification_time dataset ;;
  id ← eval (getitem_str dataset "id");
  do (SessionPost URL_DL (JDict [("datasetId", id)])) ;;
  req ← eval (request (answer_post id));
  if negb (status req =? 200)%Z then
    id ← eval (getitem_str dataset "id");
    do (LogCannotGetUrl id req) ;;
    mret None
  else
    info ← eval (reply_json req);
    do (LogInfo info) ;;
    doc ← eval (reply_json req);
    result ← eval (getitem_str doc "result");
    described ← eval (getitem_str result "dataset");
    url ← eval (getitem_str described "url");
    dataset ← eval (setitem_str dataset "url" url);
    url ← eval (getitem_str dataset "url");
    do (RequestsGet url) ;;
    req ← eval (request (answer_get url));
    if negb (status req =? 200)%Z then
      id ← eval (getitem_str dataset "id");
      do (LogCannotDownload id req) ;;
      mret None
    else
      let dataset_domains : gset string := list_to_set (tail (lines req)) in
      mret (Some (dataset, dataset_domains)).

(** The loop of lines 65-93, with [datasets] and [all_domains]. *)
Fixpoint fetch_datasets (l : list json)
    (datasets : list (json * gset string)) (all_domains : gset string)
  : Stmt crawler (list (json * gset string) * gset string) :=
  match l with
  | [] => mret (datasets, all_domains)
  | dataset :: l' =>
      fetched ← fetch_dataset dataset;
      match fetched with
      | None => fetch_datasets l' datasets all_domains
      | Some (dataset, dataset_domains) =>
          fetch_datasets l' (datasets ++ [(dataset, dataset_domains)])
            (all_domains ∪ dataset_domains)
      end
  end.

(** [domain_ids[domain]]. *)
Definition domain_id (domain_ids : gmap string json) (domain : string) : exn + json :=
  match domain_ids !! domain with
  | Some id => inr id
  | None => inl KeyError
  end.

(** The body of the loop of lines 101-117. The set is gone through in
    the order of [elements]. *)
Definition rank_dataset (domain_ids : gmap string json) (item : json * gset string)
  : Stmt crawler unit :=
  let '(dataset, domains) := item in
  title ← eval (getitem_str dataset "title");
  let dataset_title := "Cloudflare " +:+ str title in
  do (LogProcessing dataset_title) ;;
  description ← eval (getitem_str dataset "description");
  meta ← eval (getitem_str dataset "meta");
  top ← eval (getitem_str meta "top");
  ranking_id ← get_node "Ranking"
    (JDict [("name", JStr dataset_title); ("description", description); ("top", top)]);
  domain_links ← eval (mapM (fun domain =>
                               src_id ← domain_id domain_ids domain;
                               mret (src_id, ranking_id))
                         (elements domains));
  match domain_links with
  | [] => mret tt
  | _ => batch_add_links "RANK" domain_links
  end.

(** [run], lines 35-117. *)
Definition run : Stmt crawler unit :=
  do LogFetching ;;
  do (SessionGet URL_DATASETS) ;;
  req ← eval (request answer_datasets);
  raise_for_status req ;;
  datasets_json ← eval (reply_json req);
  has_success ← eval (contains datasets_json "success");
  failed ← (if negb has_success then mret true
            else success ← eval (getitem_str datasets_json "success");
                 mret (negb (truthy success)));
  (if failed : bool then do (LogApiError req) ;; throw IypJSONDecodeError else mret tt) ;;
  result ← eval (getitem_str datasets_json "result");
  listed ← eval (getitem_str result "datasets");
  listed ← eval (py_iter listed);
  '(datasets, all_domains) ← fetch_datasets listed [] ∅;
  domain_ids ← batch_get_nodes "DomainName" "name" all_domains;
  for_all datasets (rank_dataset domain_ids).

End Iyp.

(** The calls that are requests, and the calls to IYP. *)
Definition is_request (c : call) : bool :=
  match c with
  | SessionGet _ | SessionPost _ _ | RequestsGet _ => true
  | _ => false
  end.

Definition is_iyp (c : call) : bool :=
  match c with
  | BatchGetNodes _ _ _ | GetNode _ _ | BatchAddLinks _ _ _ => true
  | _ => false
  end.

(** A batch of links is of type [RANK], is not empty, leads to one
    node and carries the reference time [rt]. *)
Definition well_linked (rt : option datetime) (c : call) : Prop :=
  match c with
  | BatchAddLinks type links reference_time =>
      type = "RANK" /\ links <> [] /\
      (exists dst_id, Forall (fun link => link.2 = dst_id) links) /\
      reference_time = rt
  | _ => True
  end.

(** From [s] to [s'] only calls of kind [P] were made. *)
Definition only (P : call -> Prop) (s s' : crawler) : Prop :=
  exists new, calls s' = calls s ++ new /\ Forall P new.

(** From [s] to [s'] no request was made, the reference time did not
    change and every batch of links is well linked. *)
Definition writes (s s' : crawler) : Prop :=
  reference_time s' = reference_time s /\
  only (fun c => is_request c = false /\ well_linked (reference_time s) c) s s'.

(** From [s] to [s'] the calls were first [fetched], none of them to
    IYP, then [written], none of them a request, with every batch of
    links well linked for the reference time of [s']. *)
Definition fetches_then_writes (s s' : crawler) : Prop :=
  exists fetched written,
    calls s' = calls s ++ fetched ++ written /\
    Forall (fun c => is_iyp c = false) fetched /\
    Forall (fun c => is_request c = false /\ well_linked (reference_time s') c) written.

(** A reference time that is set in [s] is the same in [s']. *)
Definition keeps_time (s s' : crawler) : Prop :=
  forall d, reference_time s = Some d -> reference_time s' = Some d.

End CloudflareRankingBucket.

(** ** Vocabulary of the statements *)

(** The name has no file in the temporary directory. *)
Definition uncached (tmp_dir : string) (fs : gmap string node) (name : string) : Prop :=
  path_exists fs (fpath tmp_dir name) = false.


(** Every regular [.json] file directly in [dir] holds a JSON object,
    as the files [fetch] writes do. *)
Definition cache_dir_ok (fs : gmap string node) (dir : string) : Prop :=
  forall name n,
    (name, n) ∈ os_scandir fs dir -> is_file n = true -> endswith name ".json" = true ->
    exists d, n = File (Some (JDict d)).

(** What the planning loop guarantees of every future it creates. *)
Record planned (self_url tmp_dir : string) (fs : gmap string node) (q : future) : Prop := {
  planned_nonempty : domains q <> [];
  planned_url : url q = self_url +:+ get_params (domains q);
  planned_fpaths : forall d, d ∈ domains q -> fpaths q !! d = Some (fpath tmp_dir d);
  planned_uncached : Forall (uncached tmp_dir fs) (domains q)
}.

(** The same of the loop's locals between two iterations. *)
Definition loop_inv (self_url tmp_dir : string) (fs : gmap string node) (st : loop_state) : Prop :=
  Forall (planned self_url tmp_dir fs) (queries st) /\
  Forall (uncached tmp_dir fs) (batch st) /\
  (forall d, d ∈ batch st -> fpaths_acc st !! d = Some (fpath tmp_dir d)).

(** Every batch but the last has [B] names, the last between 1 and [B]. *)
Fixpoint full_but_last (B : nat) (bs : list (list string)) : Prop :=
  match bs with
  | [] => True
  | b :: bs' =>
      match bs' with
      | [] => 0 < length b <= B
      | _ :: _ => length b = B /\ full_but_last B bs'
      end
  end.

(** A statement that only appends to the trace, events of kind [P], and
    whose outcome and effect on the files and the reference time do not
    depend on the trace. *)
Definition logs {A} (P : event -> Prop) (m : Py A) : Prop :=
  forall s, exists evs,
    Forall P evs /\
    forall t,
      m (State (files s) (reference_time_modification s) t)
      = ((m s).1,
         State (files (m s).2) (reference_time_modification (m s).2) (t ++ evs)).

(** A statement that keeps a property of the state. *)
Definition stable {A} (I : state -> Prop) (m : Py A) : Prop :=
  forall s, I s -> I (m s).2.

(** Two states that differ in the trace at most. *)
Definition same_store (s s' : state) : Prop :=
  files s = files s' /\
  reference_time_modification s = reference_time_modification s'.

(** The events of the two phases of [run]. *)
Definition fetch_event (e : event) : bool :=
  match e with
  | Completed _ | LogWarning _ | LogError _ _ => true
  | _ => false
  end.

Definition assemble_event (e : event) : bool :=
  match e with
  | Read _ | ComputeLink _ | MapLinks | BatchAddLinks => true
  | _ => false
  end.

(** An entry of the directory that the loop of [run] gets past: it is
    not a regular file, or not named [*.json], or holds a JSON document
    that is falsy or an object. *)
Definition entry_loadable (entry : string * node) : Prop :=
  is_file entry.2 = true -> endswith entry.1 ".json" = true ->
  exists doc, entry.2 = File (Some doc) /\ (truthy doc = false \/ exists d, doc = JDict d).

Definition loadable (fs : gmap string node) (dir : string) : Prop :=
  forall entry, entry ∈ os_scandir fs dir -> entry_loadable entry.

(** An event of the loop over the directory comes from one of its
    entries: the file read is a regular [.json] entry, the item handed to
    [compute_link] is a member of the object such a file holds. *)
Definition from_entries (dir : string) (entries : list (string * node)) (e : event) : Prop :=
  match e with
  | Read path =>
      exists name c, (name, File c) ∈ entries /\ endswith name ".json" = true /\
                     path = os_path_join dir name
  | ComputeLink item =>
      exists name d, (name, File (Some (JDict d))) ∈ entries /\
                     endswith name ".json" = true /\ item ∈ d
  | _ => False
  end.

(** ** Concrete parameters *)

(** A parser for [strptime], for ASCII input: the fields and separators of
    the regular expression that Python builds for the format
    ['%Y-%m-%dT%H:%M:%SZ'] (letters match in either case, a field has one or
    two digits, the year four), then the range checks of the [datetime]
    constructor. The theorems below hold for any parser; this one runs the
    model on concrete responses. *)
Definition digit (c : ascii) : option nat :=
  let n := nat_of_ascii c in
  if (48 <=? n) && (n <=? 57) then Some (n - 48) else None.

Definition digits4 (s : string) : option (nat * string) :=
  match s with
  | String a (String b (String c (String d rest))) =>
      x ← digit a; y ← digit b; z ← digit c; w ← digit d;
      Some (1000 * x + 100 * y + 10 * z + w, rest)
  | _ => None
  end.

Definition digits12 (s : string) : option (nat * string) :=
  match s with
  | String a rest =>
      x ← digit a;
      match rest with
      | String b rest' =>
          match digit b with
          | Some y => Some (10 * x + y, rest')
          | None => Some (x, rest)
          end
      | EmptyString => Some (x, rest)
      end
  | EmptyString => None
  end.

(** The day may also be a space and one digit. *)
Definition day_field (s : string) : option (nat * string) :=
  match s with
  | String " " (String b rest) => x ← digit b; Some (x, rest)
  | _ => digits12 s
  end.

Definition expect (c c' : ascii) (s : string) : option string :=
  match s with
  | String a rest => if Ascii.eqb a c || Ascii.eqb a c' then Some rest else None
  | EmptyString => None
  end.

Definition is_leap (y : nat) : bool :=
  ((y mod 4 =? 0) && negb (y mod 100 =? 0)) || (y mod 400 =? 0).

Definition days_in_month (y m : nat) : nat :=
  match m with
  | 2 => if is_leap y then 29 else 28
  | 4 | 6 | 9 | 11 => 30
  | _ => 31
  end.

Definition strptime_utc (s : string) : option datetime :=
  '(y, s) ← digits4 s; s ← expect "-" "-" s;
  '(m, s) ← digits12 s; s ← expect "-" "-" s;
  '(d, s) ← day_field s; s ← expect "T" "t" s;
  '(hh, s) ← digits12 s; s ← expect ":" ":" s;
  '(mm, s) ← digits12 s; s ← expect ":" ":" s;
  '(ss, s) ← digits12 s; s ← expect "Z" "z" s;
  if String.eqb s "" && (1 <=? y) && (1 <=? m) && (m <=? 12)
     && (1 <=? d) && (d <=? days_in_month y m)
     && (hh <=? 23) && (mm <=? 59) && (ss <=? 59)
  then Some (Datetime y m d hh mm ss)
  else None.

(** Two schedulers: the requests finish in the order they were sent, or in
    the opposite order. *)
Definition in_order : scheduler :=
  {| as_completed := fun qs => qs;
     as_completed_perm := fun qs => Permutation_refl qs |}.

Definition last_first : scheduler :=
  {| as_completed := fun qs => rev qs;
     as_completed_perm := fun qs => Permutation_sym (Permutation_rev qs) |}.

(** A response with status 200 whose envelope reports success. *)
Definition api_success (entries : list (string * json)) : outcome :=
  Returned (Response 200 (Some (JDict [("success", JBool true); ("result", JDict entries)]))).

(** The state of a crawler that has just been created, with nothing in
    its temporary directory. *)
Definition fresh : state := State ∅ None [].

(** The same for the format ['%Y-%m-%d']: midnight of the day. *)
Definition strptime_day (s : string) : option datetime :=
  '(y, s) ← digits4 s; s ← expect "-" "-" s;
  '(m, s) ← digits12 s; s ← expect "-" "-" s;
  '(d, s) ← day_field s;
  if String.eqb s "" && (1 <=? y) && (1 <=? m) && (m <=? 12)
     && (1 <=? d) && (d <=? days_in_month y m)
  then Some (Datetime y m d 0 0 0)
  else None.

(** The built-in [str] on [None], booleans, integers and strings; the
    runs below apply it to nothing else. *)
Definition str_scalar (v : json) : string :=
  match v with
  | JNull => "None"
  | JBool true => "True"
  | JBool false => "False"
  | JNum n => pretty n
  | JStr s => s
  | JList _ | JDict _ => ""
  end.

(** * Properties *)

(** ** Strings and paths *)

Lemma append_cons (c : ascii) (a b : string) : String c a +:+ b = String c (a +:+ b).
Proof. reflexivity. Qed.

Lemma append_empty (b : string) : "" +:+ b = b.
Proof. reflexivity. Qed.

Ltac unfold_append := rewrite ?append_cons, ?append_empty in *.

Lemma append_nil_r (s : string) : s +:+ "" = s.
Proof. induction s as [|c s IH]; unfold_append; [done | by rewrite IH]. Qed.

Lemma append_assoc (a b c : string) : (a +:+ b) +:+ c = a +:+ b +:+ c.
Proof. induction a as [|x a IH]; unfold_append; [done | by rewrite IH]. Qed.

Lemma length_append (a b : string) :
  String.length (a +:+ b) = String.length a + String.length b.
Proof. induction a as [|x a IH]; unfold_append; simpl; [done | by rewrite IH]. Qed.

Lemma append_inj_l (a b c : string) : a +:+ b = a +:+ c -> b = c.
Proof. induction a as [|x a IH]; unfold_append; [done | intros [= H]; auto]. Qed.

Lemma append_inj_r (a b c : string) : a +:+ c = b +:+ c -> a = b.
Proof.
  revert b; induction a as [|x a IH]; intros [|y b] H; unfold_append; try done.
  - apply (f_equal String.length) in H; simpl in H.
    rewrite length_append in H; lia.
  - apply (f_equal String.length) in H; simpl in H.
    rewrite length_append in H; lia.
  - injection H as -> H. by rewrite (IH _ H).
Qed.

Lemma strip_prefix_append (p s : string) : strip_prefix p (p +:+ s) = Some s.
Proof.
  induction p as [|c p IH]; unfold_append; simpl; [done|].
  by rewrite Ascii.eqb_refl.
Qed.

Lemma strip_prefix_Some (p s r : string) : strip_prefix p s = Some r -> s = p +:+ r.
Proof.
  revert s; induction p as [|c p IH]; intros [|d s]; simpl; unfold_append; try congruence.
  destruct (Ascii.eqb c d) eqn:E; [|done].
  apply Ascii.eqb_eq in E as ->. intros H. by rewrite (IH _ H).
Qed.



Lemma fname_not_absolute (name : string) : startswith (fname name) "/" = false.
Proof. done. Qed.

(** The path of a name's file is the directory's prefix followed by the
    file's name. *)
Lemma os_path_join_prefix (dir name : string) :
  startswith name "/" = false ->
  os_path_join dir name = os_path_join dir "" +:+ name.
Proof.
  intros H. unfold os_path_join. rewrite H.
  change (startswith "" "/") with false. cbv iota.
  destruct (String.eqb dir "" || endswith dir "/").
  - by rewrite append_nil_r.
  - by rewrite append_assoc, append_nil_r.
Qed.

Lemma fpath_prefix (dir name : string) :
  fpath dir name = os_path_join dir "" +:+ fname name.
Proof. apply os_path_join_prefix, fname_not_absolute. Qed.

(** Distinct names have distinct files. *)
Lemma fpath_inj (dir a b : string) : fpath dir a = fpath dir b -> a = b.
Proof.
  rewrite !fpath_prefix. intros H%append_inj_l.
  unfold fname in H. apply append_inj_l in H. by apply append_inj_r in H.
Qed.

(** ** The planning loop *)

Section PlannerFacts.

Context (self_url : string) (names : list string) (batch_size : nat).
Context (tmp_dir : string) (fs : gmap string node) (network : nat -> string -> outcome).

#[local] Abbreviation body := (loop_body self_url names batch_size tmp_dir fs network).
#[local] Abbreviation plan := (plan_from self_url names batch_size tmp_dir fs network).
#[local] Abbreviation while := (while_loop self_url names batch_size tmp_dir fs network).
#[local] Abbreviation planning := (planned_queries self_url names batch_size tmp_dir fs network).

Lemma loop_body_i name st : i (body name st).2 = S (i st).
Proof.
  unfold loop_body.
  destruct (path_exists _ _); [done|].
  destruct (_ && _); [done|].
  by destruct (batch st ++ [name]).
Qed.

Lemma loop_body_not_guard name st : (body name st).1 <> EmptyGuard.
Proof.
  unfold loop_body.
  destruct (path_exists _ _); [done|].
  destruct (_ && _); [done|].
  destruct (batch st ++ [name]) eqn:E; [|done].
  by apply app_eq_nil in E as [_ ?].
Qed.

(** The bounded loop and the recursion on the remaining names agree, and
    [len(self.names)] iterations are enough. *)
Lemma while_loop_plan_from rest : forall pre st fuel,
  names = pre ++ rest -> i st = length pre -> length rest <= fuel ->
  while fuel st = Some (plan rest st).
Proof.
  induction rest as [|name rest IH]; intros pre st fuel Hn Hi Hf.
  - rewrite app_nil_r in Hn. subst pre.
    destruct fuel; simpl; rewrite Hi, lookup_ge_None_2 by lia; done.
  - destruct fuel as [|fuel]; [simpl in Hf; lia|].
    simpl. rewrite Hn, Hi, list_lookup_middle by done. rewrite <- Hn.
    pose proof (loop_body_i name st) as Hi'.
    pose proof (loop_body_not_guard name st) as Hg.
    destruct (body name st) as [br st'] eqn:Hb; simpl in *.
    assert (Hrec : while fuel st' = Some (plan rest st')).
    { apply (IH (pre ++ [name])).
      - by rewrite <- app_assoc.
      - rewrite length_app; simpl; lia.
      - lia. }
    by destruct br.
Qed.

Lemma while_loop_total : while (length names) loop_init = Some (plan names loop_init).
Proof. by apply (while_loop_plan_from names []). Qed.

Lemma planned_queries_plan : planning = queries (plan names loop_init).
Proof. unfold planned_queries. by rewrite while_loop_total. Qed.

(** *** What every planned future satisfies *)

Lemma get_params_append batch acc :
  exists rest,
    fold_left (fun acc domain => acc +:+ "&dateRange=7d&domain=" +:+ domain) batch acc
    = acc +:+ rest.
Proof.
  revert acc; induction batch as [|d batch IH]; intros acc; simpl.
  - exists "". by rewrite append_nil_r.
  - destruct (IH (acc +:+ "&dateRange=7d&domain=" +:+ d)) as [rest ->].
    eexists. by rewrite append_assoc.
Qed.

Lemma get_params_domain d batch :
  exists rest, get_params (d :: batch) = "?limit=100&dateRange=7d&domain=" +:+ d +:+ rest.
Proof.
  unfold get_params; simpl.
  destruct (get_params_append batch (("?limit=" +:+ TOP_LIMIT) +:+ "&dateRange=7d&domain=" +:+ d))
    as [rest ->].
  exists rest. by rewrite append_assoc.
Qed.

Lemma loop_inv_init : loop_inv self_url tmp_dir fs loop_init.
Proof.
  unfold loop_inv; simpl. split; [constructor|split; [constructor|]].
  intros d Hd. by apply elem_of_nil in Hd.
Qed.

Lemma loop_body_inv name st :
  loop_inv self_url tmp_dir fs st -> loop_inv self_url tmp_dir fs (body name st).2.
Proof.
  intros (Hq & Hb & Hf). unfold loop_body.
  destruct (path_exists fs (os_path_join tmp_dir (fname name))) eqn:Hex; [done|].
  assert (Hb' : Forall (uncached tmp_dir fs) (batch st ++ [name])).
  { apply Forall_app; split; [done|]. by repeat constructor. }
  assert (Hf' : forall d, d ∈ batch st ++ [name] ->
            <[name := os_path_join tmp_dir (fname name)]> (fpaths_acc st) !! d
            = Some (fpath tmp_dir d)).
  { intros d Hd. destruct (decide (d = name)) as [->|Hne].
    - by rewrite lookup_insert_eq.
    - rewrite lookup_insert_ne by done. apply Hf.
      apply elem_of_app in Hd as [Hd|Hd]; [done|].
      by apply list_elem_of_singleton in Hd. }
  destruct (_ && _); [done|].
  destruct (batch st ++ [name]) as [|d0 b0] eqn:E.
  { by apply app_eq_nil in E as [_ ?]. }
  unfold loop_inv; simpl. split; [|split].
  - apply Forall_app; split; [done|].
    apply Forall_singleton. by constructor.
  - constructor.
  - intros d Hd. by apply elem_of_nil in Hd.
Qed.

Lemma plan_from_inv rest : forall st,
  loop_inv self_url tmp_dir fs st -> loop_inv self_url tmp_dir fs (plan rest st).
Proof.
  induction rest as [|name rest IH]; intros st Hst; simpl; [done|].
  pose proof (loop_body_inv name st Hst) as H.
  destruct (body name st) as [br st']; simpl in H.
  destruct br; auto.
Qed.

Lemma planned_queries_planned : Forall (planned self_url tmp_dir fs) planning.
Proof.
  rewrite planned_queries_plan.
  apply (plan_from_inv names loop_init), loop_inv_init.
Qed.

(** *** Batches when nothing is cached *)

Lemma full_but_last_lookup B bs : forall k b,
  full_but_last B bs -> bs !! k = Some b ->
  length b <= B /\ (S k < length bs -> length b = B).
Proof.
  induction bs as [|b0 bs IH]; intros k b Hfull Hk; [done|].
  destruct k as [|k]; simpl in Hk.
  - injection Hk as ->. simpl in Hfull.
    destruct bs; simpl; [lia|]. destruct Hfull as [-> _]. lia.
  - simpl in Hfull. destruct bs as [|b1 bs]; [done|].
    destruct Hfull as [_ Hfull].
    destruct (IH k b Hfull Hk) as [H1 H2].
    split; [done|]. intros Hlt. apply H2. simpl in *. lia.
Qed.

Lemma full_but_last_count B bs :
  0 < B -> full_but_last B bs ->
  length bs = (length (concat bs) + B - 1) / B.
Proof.
  intros HB. induction bs as [|b bs IH]; intros Hfull.
  - simpl. symmetry. apply Nat.div_small. lia.
  - simpl in Hfull. destruct bs as [|b1 bs].
    + simpl. rewrite app_nil_r.
      apply (Nat.div_unique _ _ 1 (length b - 1)); lia.
    + destruct Hfull as [Hb Hfull]. specialize (IH Hfull).
      change (concat (b :: b1 :: bs)) with (b ++ concat (b1 :: bs)).
      rewrite length_app, Hb.
      change (length (b :: b1 :: bs)) with (S (length (b1 :: bs))).
      rewrite IH.
      replace (B + length (concat (b1 :: bs)) + B - 1)
        with (1 * B + (length (concat (b1 :: bs)) + B - 1)) by lia.
      rewrite Nat.div_add_l by lia. lia.
Qed.

(** With nothing cached, the futures created from a state with an open
    batch [batch st] and the names [rest] still to visit partition
    [batch st ++ rest] into full batches and a last one. *)
Lemma plan_from_fresh rest : forall st,
  0 < batch_size ->
  i st + length rest = length names ->
  Forall (uncached tmp_dir fs) rest ->
  length (batch st) < batch_size ->
  (rest = [] -> batch st = []) ->
  exists tail,
    map domains (queries (plan rest st)) = map domains (queries st) ++ tail /\
    concat tail = batch st ++ rest /\
    full_but_last batch_size tail /\
    Forall (fun b => b <> []) tail.
Proof.
  induction rest as [|name rest IH]; intros st HB Hi Hun Hlen Hlast.
  - exists []. rewrite (Hlast eq_refl). simpl. by rewrite app_nil_r.
  - apply Forall_cons in Hun as [Hname Hun].
    simpl. unfold loop_body.
    unfold uncached, fpath in Hname. rewrite Hname.
    simpl in Hi.
    destruct ((length (batch st ++ [name]) <? batch_size) && (S (i st) <? length names))
      eqn:Hopen.
    + apply andb_true_iff in Hopen as [H1%Nat.ltb_lt H2%Nat.ltb_lt].
      destruct (IH (LoopState (S (i st)) (batch st ++ [name])
                     (<[name := os_path_join tmp_dir (fname name)]> (fpaths_acc st))
                     (queries st))) as (tail & Hq & Hc & Hf & Hne); simpl; try done.
      * lia.
      * intros ->. simpl in Hi. lia.
      * exists tail. simpl in Hq, Hc. rewrite Hq, Hc, <- app_assoc. done.
    + destruct (batch st ++ [name]) as [|d0 b0] eqn:E.
      { by apply app_eq_nil in E as [_ ?]. }
      rewrite <- E in *. clear d0 b0 E.
      destruct (IH (LoopState (S (i st)) [] ∅
                     (queries st ++ [Future (length (queries st))
                        (self_url +:+ get_params (batch st ++ [name]))
                        (req_session_get network (length (queries st))
                           (self_url +:+ get_params (batch st ++ [name])))
                        (batch st ++ [name])
                        (<[name := os_path_join tmp_dir (fname name)]> (fpaths_acc st))])))
        as (tail & Hq & Hc & Hf & Hne); simpl; try done; try lia.
      simpl in Hq, Hc.
      exists ((batch st ++ [name]) :: tail). repeat split.
      * rewrite Hq, map_app, <- app_assoc. done.
      * simpl. rewrite Hc, <- app_assoc. done.
      * simpl. destruct tail as [|b1 tail].
        { rewrite length_app in *; simpl in *; lia. }
        split; [|done].
        apply andb_false_iff in Hopen as [H1%Nat.ltb_ge | H2%Nat.ltb_ge].
        -- rewrite length_app in *; simpl in *; lia.
        -- assert (rest = []) as -> by (destruct rest; [done | simpl in Hi; lia]).
           apply Forall_cons in Hne as [Hb1 _].
           simpl in Hc. by apply app_eq_nil in Hc as [? _].
      * constructor; [|done]. intros E. by apply app_eq_nil in E as [_ ?].
Qed.

(** C4. A name whose file already exists when [fetch] plans its batches
    is in the [domains] of no future the loop creates: the planner skips
    it before batching, so a cached name is never requested again. *)
Theorem fetch_never_requests_cached (name : string) :
  path_exists fs (fpath tmp_dir name) = true ->
  Forall (fun q => name ∉ domains q)
         (planned_queries self_url names batch_size tmp_dir fs network).
Proof.
  intros Hex. eapply Forall_impl; [apply planned_queries_planned|].
  intros q Hq Hin. simpl in *.
  pose proof (planned_uncached _ _ _ _ Hq) as Hun.
  rewrite Forall_forall in Hun. specialize (Hun _ Hin).
  unfold uncached in Hun. congruence.
Qed.

(** C5. With no file in the temporary directory for any of the [N] names
    and a batch size [B >= 1], the loop creates exactly [ceil(N / B)]
    futures; their batches are the names in order, none is empty, each has
    at most [B] names, and each but the last has exactly [B]. *)
Theorem fetch_batch_completeness :
  0 < batch_size ->
  Forall (uncached tmp_dir fs) names ->
  let bs := map domains (planned_queries self_url names batch_size tmp_dir fs network) in
  length bs = (length names + batch_size - 1) / batch_size /\
  concat bs = names /\
  Forall (fun b => b <> []) bs /\
  (forall k b, bs !! k = Some b ->
     length b <= batch_size /\ (S k < length bs -> length b = batch_size)).
Proof.
  intros HB Hun bs. subst bs. rewrite planned_queries_plan.
  destruct (plan_from_fresh names loop_init) as (tail & Hq & Hc & Hf & Hne); try done.
  simpl in Hq, Hc. rewrite Hq. repeat split; try done.
  - rewrite <- Hc. by apply full_but_last_count.
  - by eapply full_but_last_lookup.
  - by eapply full_but_last_lookup.
Qed.

(** C10. Whatever the loop's locals, an iteration never ends in the
    [if not batch: break] branch, because the name is appended before the
    test; so every future the loop creates has a non-empty batch, and its
    URL carries a [domain] parameter right after the limit. *)
Theorem fetch_empty_guard_unreachable :
  (forall name st,
      (loop_body self_url names batch_size tmp_dir fs network name st).1 <> EmptyGuard) /\
  Forall (fun q =>
            domains q <> [] /\
            exists d rest,
              url q = self_url +:+ "?limit=100&dateRange=7d&domain=" +:+ d +:+ rest)
         (planned_queries self_url names batch_size tmp_dir fs network).
Proof.
  split; [apply loop_body_not_guard|].
  eapply Forall_impl; [apply planned_queries_planned|].
  intros q [Hne Hurl _ _]. split; [done|].
  destruct (domains q) as [|d b]; [done|].
  destruct (get_params_domain d b) as [rest Hrest].
  exists d, rest. by rewrite Hurl, Hrest.
Qed.

End PlannerFacts.

(** C2. Names [a.com] and [b.org], of which only [b.org] has a file:
    [a.com] is put in the batch, the batch is not full and the iteration
    is not the last, and the last iteration leaves the loop at the cache
    test, before the point where a batch is closed. No future is created,
    and [a.com] is requested by none. *)
Theorem fetch_loses_batch_before_cached_tail (self_url : string) (network : nat -> string -> outcome) :
  let fs : gmap string node :=
    {[ fpath "tmp" "b.org" := File (Some (JDict [("b.org", JList [])])) ]} in
  uncached "tmp" fs "a.com" /\
  planned_queries self_url ["a.com"; "b.org"] BATCH_SIZE "tmp" fs network = [].
Proof. split; vm_compute; reflexivity. Qed.

(** ** The monad *)

Lemma bind_run {A B} (m : Py A) (f : A -> Py B) s :
  (m ≫= f) s =
  match m s with
  | (Normal a, s') => f a s'
  | (Raise e, s') => (Raise e, s')
  end.
Proof. reflexivity. Qed.

Lemma state_eta s : State (files s) (reference_time_modification s) (trace s) = s.
Proof. by destruct s. Qed.

Lemma Exception_all e : Exception e = true.
Proof. by destruct e. Qed.

Section Logs.

Context {P : event -> Prop}.

Lemma logs_pure {A} (m : Py A) (c : completion A) :
  (forall s, m s = (c, s)) -> logs P m.
Proof.
  intros Hm s. exists []. split; [constructor|]. intros t.
  rewrite !Hm. simpl. by rewrite app_nil_r.
Qed.

Lemma logs_ret {A} (a : A) : logs P (mret a).
Proof. by apply (logs_pure _ (Normal a)). Qed.

Lemma logs_raise {A} e : logs P (@raise A e).
Proof. by apply (logs_pure _ (Raise e)). Qed.

Lemma logs_lift {A} (r : exn + A) : logs P (lift r).
Proof. destruct r; [apply logs_raise | apply logs_ret]. Qed.

Lemma logs_emit e : P e -> logs P (emit e).
Proof.
  intros He s. exists [e]. split; [by repeat constructor|]. by intros t.
Qed.

Lemma logs_get_files : logs P get_files.
Proof.
  intros s. exists []. split; [constructor|]. intros t.
  unfold get_files; simpl. by rewrite app_nil_r.
Qed.

Lemma logs_get_reference_time_modification : logs P get_reference_time_modification.
Proof.
  intros s. exists []. split; [constructor|]. intros t.
  unfold get_reference_time_modification; simpl. by rewrite app_nil_r.
Qed.

Lemma logs_set_reference_time_modification d : logs P (set_reference_time_modification d).
Proof.
  intros s. exists []. split; [constructor|]. intros t.
  unfold set_reference_time_modification; simpl. by rewrite app_nil_r.
Qed.

Lemma logs_json_dump_file path doc : logs P (json_dump_file path doc).
Proof.
  intros s. exists []. split; [constructor|]. intros t.
  unfold json_dump_file; simpl. by rewrite app_nil_r.
Qed.

Lemma logs_bind {A B} (m : Py A) (f : A -> Py B) :
  logs P m -> (forall a, logs P (f a)) -> logs P (m ≫= f).
Proof.
  intros Hm Hf s. destruct (Hm s) as (evs1 & HP1 & H1).
  destruct (m s) as [[a|e] s1] eqn:Hms; simpl in H1.
  - destruct (Hf a s1) as (evs2 & HP2 & H2).
    exists (evs1 ++ evs2). split; [by apply Forall_app|]. intros t.
    rewrite !bind_run, H1, Hms, H2. by rewrite app_assoc.
  - exists evs1. split; [done|]. intros t.
    by rewrite !bind_run, H1, Hms.
Qed.

Lemma logs_try_except {A} (m : Py A) catch handler :
  logs P m -> (forall e, logs P (handler e)) -> logs P (try_except m catch handler).
Proof.
  intros Hm Hh s. destruct (Hm s) as (evs1 & HP1 & H1).
  unfold try_except.
  destruct (m s) as [[a|e] s1] eqn:Hms; simpl in H1.
  - exists evs1. split; [done|]. intros t. by rewrite H1.
  - destruct (catch e) eqn:Hc.
    + destruct (Hh e s1) as (evs2 & HP2 & H2).
      exists (evs1 ++ evs2). split; [by apply Forall_app|]. intros t.
      rewrite H1, Hc, H2. by rewrite app_assoc.
    + exists evs1. split; [done|]. intros t. by rewrite H1, Hc.
Qed.

Lemma logs_for_each {A} (l : list A) (f : A -> Py unit) :
  (forall x, logs P (f x)) -> logs P (for_each l f).
Proof.
  intros Hf. induction l as [|x l IH]; simpl.
  - apply logs_ret.
  - apply logs_bind; [apply Hf | by intros _].
Qed.

(** What [logs] gives at a state. *)
Lemma logs_trace {A} (m : Py A) s :
  logs P m -> exists evs, Forall P evs /\ trace (m s).2 = trace s ++ evs.
Proof.
  intros Hm. destruct (Hm s) as (evs & HP & H).
  exists evs. split; [done|].
  specialize (H (trace s)). rewrite state_eta in H. by rewrite H.
Qed.

Lemma logs_same_store {A} (m : Py A) s s' :
  logs P m -> same_store s s' ->
  (m s).1 = (m s').1 /\ same_store (m s).2 (m s').2.
Proof.
  intros Hm [Hf Hr]. destruct (Hm s) as (evs & _ & H).
  specialize (H (trace s')). rewrite Hf, Hr, state_eta in H.
  rewrite H. by split.
Qed.

End Logs.

Section Stable.

Context (I : state -> Prop).

Lemma stable_pure {A} (m : Py A) :
  (forall s, (m s).2 = s) -> stable I m.
Proof. intros Hm s Hs. by rewrite Hm. Qed.

Lemma stable_ret {A} (a : A) : stable I (mret a).
Proof. by apply stable_pure. Qed.

Lemma stable_raise {A} e : stable I (@raise A e).
Proof. by apply stable_pure. Qed.

Lemma stable_lift {A} (r : exn + A) : stable I (lift r).
Proof. destruct r; [apply stable_raise | apply stable_ret]. Qed.

Lemma stable_bind {A B} (m : Py A) (f : A -> Py B) :
  stable I m -> (forall a, stable I (f a)) -> stable I (m ≫= f).
Proof.
  intros Hm Hf s Hs. rewrite bind_run.
  specialize (Hm s Hs). destruct (m s) as [[a|e] s1]; simpl in *; [|done].
  by apply Hf.
Qed.

Lemma stable_try_except {A} (m : Py A) catch handler :
  stable I m -> (forall e, stable I (handler e)) -> stable I (try_except m catch handler).
Proof.
  intros Hm Hh s Hs. unfold try_except.
  specialize (Hm s Hs). destruct (m s) as [[a|e] s1]; simpl in *; [done|].
  destruct (catch e); [by apply Hh | done].
Qed.

Lemma stable_for_each {A} (l : list A) (f : A -> Py unit) :
  (forall x, x ∈ l -> stable I (f x)) -> stable I (for_each l f).
Proof.
  induction l as [|x l IH]; intros Hf; simpl.
  - apply stable_ret.
  - apply stable_bind.
    + apply Hf. by left.
    + intros _. apply IH. intros y Hy. apply Hf. by right.
Qed.

End Stable.

(** ** One completed request *)

Section ProcessFacts.

Context (strptime : string -> option datetime).

#[local] Abbreviation in_fetch := (fun e => fetch_event e = true).

Lemma logs_set_modification_time data :
  logs in_fetch (set_modification_time strptime data).
Proof.
  unfold set_modification_time.
  apply logs_bind; [apply logs_get_reference_time_modification|].
  intros [d|]; [apply logs_ret|].
  apply logs_try_except.
  - apply logs_bind; [apply logs_lift|].
    intros d. apply logs_set_reference_time_modification.
  - intros e. by apply logs_emit.
Qed.

Lemma logs_response_entries q : logs in_fetch (response_entries strptime q).
Proof.
  unfold response_entries.
  apply logs_bind; [apply logs_lift|]. intros data.
  apply logs_bind; [apply logs_set_modification_time|]. intros _.
  apply logs_lift.
Qed.

Lemma logs_write_record q item : logs in_fetch (write_record q item).
Proof.
  destruct item as [idx [placeholder res]]. unfold write_record.
  destruct (String.eqb placeholder "meta"); [apply logs_ret|].
  apply logs_bind; [apply logs_lift|]. intros domain.
  apply logs_bind; [apply logs_lift|]. intros path.
  apply logs_json_dump_file.
Qed.

Lemma logs_try_body q : logs in_fetch (try_body strptime q).
Proof.
  unfold try_body.
  apply logs_bind; [apply logs_response_entries|]. intros entries.
  apply logs_for_each. intros item. apply logs_write_record.
Qed.

Lemma logs_process q : logs in_fetch (process strptime q).
Proof.
  unfold process.
  apply logs_bind; [by apply logs_emit|]. intros _.
  apply logs_try_except; [apply logs_try_body|].
  intros e. by apply logs_emit.
Qed.

Lemma logs_fetch_loop done : logs in_fetch (fetch_loop strptime done).
Proof. apply logs_for_each. intros q. apply logs_process. Qed.

(** [except Exception] catches whatever the body raises: an iteration
    of the loop over the completed requests always ends normally. *)
Lemma process_normal q s : (process strptime q s).1 = Normal tt.
Proof.
  unfold process, try_except. rewrite bind_run. simpl.
  destruct (try_body strptime q _) as [[[]|e] s1]; [done|].
  by rewrite Exception_all.
Qed.

Lemma fetch_loop_cons q done s :
  fetch_loop strptime (q :: done) s = fetch_loop strptime done (process strptime q s).2.
Proof.
  unfold fetch_loop; simpl. rewrite bind_run.
  pose proof (process_normal q s) as H.
  destruct (process strptime q s) as [[[]|e] s1]; simpl in *; [done | discriminate].
Qed.

Lemma fetch_loop_normal done s : (fetch_loop strptime done s).1 = Normal tt.
Proof.
  revert s; induction done as [|q done IH]; intros s; [done|].
  by rewrite fetch_loop_cons.
Qed.

(** An event in the trace stays there, and an event every processing of
    [q] logs is in the trace once the loop is over. *)
Lemma fetch_loop_trace_mono done s e :
  e ∈ trace s -> e ∈ trace (fetch_loop strptime done s).2.
Proof.
  intros He. destruct (logs_trace (fetch_loop strptime done) s (logs_fetch_loop done))
    as (evs & _ & ->).
  apply elem_of_app. by left.
Qed.

Lemma fetch_loop_event done q e : forall s,
  q ∈ done ->
  (forall s1, e ∈ trace (process strptime q s1).2) ->
  e ∈ trace (fetch_loop strptime done s).2.
Proof.
  induction done as [|q0 done IH]; intros s Hq He.
  - by apply elem_of_nil in Hq.
  - rewrite fetch_loop_cons. apply elem_of_cons in Hq as [->|Hq].
    + apply fetch_loop_trace_mono, He.
    + by apply IH.
Qed.

Lemma process_completed q s : Completed (seq q) ∈ trace (process strptime q s).2.
Proof.
  unfold process. rewrite bind_run. simpl.
  match goal with |- _ ∈ trace (try_except ?m ?c ?h ?s0).2 =>
    destruct (logs_trace (P := in_fetch) (try_except m c h) s0) as (evs & _ & ->)
  end.
  - apply logs_try_except; [apply logs_try_body|].
    intros e. by apply logs_emit.
  - simpl. set_solver.
Qed.

(** *** Failures before the loop over the entries *)

#[local] Abbreviation keeps_files f := (stable (fun s => files s = f)).

Lemma response_entries_files q f : keeps_files f (response_entries strptime q).
Proof.
  unfold response_entries, set_modification_time.
  apply stable_bind; [apply stable_lift|]. intros data.
  apply stable_bind; [|intros _; apply stable_lift].
  apply stable_bind; [by apply stable_pure|].
  intros [d|]; [apply stable_ret|].
  apply stable_try_except.
  - apply stable_bind; [apply stable_lift|]. by intros d s Hs.
  - by intros e s Hs.
Qed.

(** What [process] does when the body of the [try] raises [e] before the
    loop over the entries. *)
Lemma process_early_failure q s e :
  (response_entries strptime q s).1 = Raise e ->
  files (process strptime q s).2 = files s /\
  exists evs, trace (process strptime q s).2
              = trace s ++ Completed (seq q) :: evs ++ [LogError (domains q) e].
Proof.
  intros Hraise.
  set (s0 := State (files s) (reference_time_modification s) (trace s ++ [Completed (seq q)])).
  assert (Hsame : same_store s s0) by done.
  destruct (logs_same_store _ s s0 (logs_response_entries q) Hsame) as [Hc _].
  rewrite Hraise in Hc.
  pose proof (response_entries_files q (files s) s0 eq_refl) as Hfiles.
  destruct (logs_trace (response_entries strptime q) s0 (logs_response_entries q))
    as (evs & _ & Htrace).
  unfold process, try_except, try_body. rewrite bind_run. simpl. fold s0.
  rewrite bind_run.
  destruct (response_entries strptime q s0) as [c s1]; simpl in *. subst c.
  rewrite Exception_all. simpl. split; [done|].
  exists evs. rewrite Htrace. simpl. by rewrite <- !app_assoc.
Qed.

(** The kinds of failure the envelope check covers. *)
Lemma validated_transport_error q e : result q = Raised e -> validated q = inl e.
Proof. unfold validated, query_result. by intros ->. Qed.

Lemma validated_status_error q res :
  result q = Returned res ->
  (400 <= status_code res < 600)%Z ->
  validated q = inl HTTPError.
Proof.
  unfold validated, query_result, raise_for_status. intros -> [H1 H2]. simpl.
  apply Z.leb_le in H1. apply Z.ltb_lt in H2. by rewrite H1, H2.
Qed.

Lemma validated_success_false q code d v :
  result q = Returned (Response code (Some (JDict d))) ->
  (code < 400)%Z ->
  dict_get d "success" = Some v ->
  truthy v = false ->
  validated q = inl ValueError.
Proof.
  unfold validated, query_result, raise_for_status. intros -> Hc Hs Hv. simpl.
  apply Z.leb_gt in Hc. rewrite Hc. simpl. rewrite Hs.
  unfold mbind, sum_bind. by rewrite Hv.
Qed.




(** *** The reference time *)

Lemma set_modification_time_set data s d :
  reference_time_modification s = Some d ->
  set_modification_time strptime data s = (Normal tt, s).
Proof.
  intros H. unfold set_modification_time, get_reference_time_modification.
  rewrite bind_run. by rewrite H.
Qed.

(** Once the reference time is set, no response changes it. *)
Lemma process_keeps_reference_time q d :
  stable (fun s => reference_time_modification s = Some d) (process strptime q).
Proof.
  unfold process.
  apply stable_bind; [by intros s Hs|]. intros _.
  apply stable_try_except; [|by intros e s Hs].
  unfold try_body, response_entries.
  apply stable_bind.
  - apply stable_bind; [apply stable_lift|]. intros data.
    apply stable_bind; [|intros _; apply stable_lift].
    intros s Hs. by rewrite (set_modification_time_set data s d).
  - intros entries. apply stable_for_each. intros [idx [placeholder res]] _.
    unfold write_record. destruct (String.eqb placeholder "meta"); [apply stable_ret|].
    apply stable_bind; [apply stable_lift|]. intros domain.
    apply stable_bind; [apply stable_lift|]. by intros path s Hs.
Qed.

Lemma fetch_loop_keeps_reference_time done d :
  stable (fun s => reference_time_modification s = Some d) (fetch_loop strptime done).
Proof. apply stable_for_each. intros q _. apply process_keeps_reference_time. Qed.

(** C3, amended. When the body of the [try] raises before the loop over
    the response's entries starts (the request failed, the status is an
    error, the body is not JSON, [success] is missing or false, [result]
    is missing or not an object), the iteration ends normally, the error
    is logged with the task's names, and the files are what they were: no
    record is written for any of the task's names. *)
Theorem early_failure_writes_no_record q s e :
  (response_entries strptime q s).1 = Raise e ->
  (process strptime q s).1 = Normal tt /\
  files (process strptime q s).2 = files s /\
  LogError (domains q) e ∈ trace (process strptime q s).2.
Proof.
  intros Hraise. split; [apply process_normal|].
  destruct (process_early_failure q s e Hraise) as [Hf [evs Ht]].
  split; [done|]. rewrite Ht. set_solver.
Qed.

End ProcessFacts.

(** ** The whole fetch *)

Section FetchFacts.

Context (strptime : string -> option datetime) (sched : scheduler).
Context (self_url : string) (names : list string) (tmp_dir : string).
Context (network : nat -> string -> outcome).

#[local] Abbreviation fetching := (fetch strptime sched self_url names tmp_dir network).
#[local] Abbreviation planning s :=
  (planned_queries self_url names BATCH_SIZE tmp_dir (files s) network).

Lemma fetch_unfold s :
  fetching s = fetch_loop strptime (as_completed sched (planning s)) s.
Proof. reflexivity. Qed.

Lemma logs_fetch : logs (fun e => fetch_event e = true) fetching.
Proof.
  unfold fetch, create_tmp_dir.
  apply logs_bind; [apply logs_ret|]. intros dir.
  apply logs_bind; [apply logs_get_files|]. intros fs.
  apply logs_fetch_loop.
Qed.


End FetchFacts.

(** *** Concrete runs *)

(** A task that reports [success: false]. *)
Lemma early_failure_writes_no_record_witness :
  let q := Future 0 "https://api.example/top?limit=100&dateRange=7d&domain=a.com"
             (Returned (Response 200
                (Some (JDict [("success", JBool false);
                              ("result", JDict [("top_0", JList [])])]))))
             ["a.com"] {[ "a.com" := fpath "tmp" "a.com" ]} in
  (response_entries strptime_utc q fresh).1 = Raise ValueError /\
  ((process strptime_utc q fresh).1 = Normal tt /\
   files (process strptime_utc q fresh).2 = files fresh /\
   LogError (domains q) ValueError ∈ trace (process strptime_utc q fresh).2).
Proof.
  intros q. split; [vm_compute; reflexivity|].
  apply (early_failure_writes_no_record strptime_utc q fresh ValueError).
  vm_compute; reflexivity.
Defined.

(** C3 as stated fails. One name is requested and the response carries
    two entries: the first is written as the name's record, the second
    raises [IndexError] at [query.domains[idx]], and the task is logged as
    failed with its record in place. *)
Lemma failed_task_keeps_partial_writes :
  let answer := api_success [("top_0", JStr "x"); ("top_1", JStr "y")] in
  let s' := (fetch strptime_utc in_order "https://api.example/top" ["a.com"] "tmp"
               (fun _ _ => answer) fresh).2 in
  trace s' = [Completed 0; LogWarning KeyError; LogError ["a.com"] IndexError] /\
  files s' !! fpath "tmp" "a.com" = Some (File (Some (JDict [("a.com", JStr "x")]))).
Proof. vm_compute. split; reflexivity. Qed.


(** C1. Two names are requested and the response lists [meta] before the
    two entries. [enumerate] counts the [meta] entry, so the first entry
    (index 1) is written as the record of the second name, the second
    entry (index 2) raises [IndexError], and the first name is left
    without a record: the k-th entry is not the record of the k-th name. *)
Theorem meta_first_shifts_records (self_url : string) :
  let meta := JDict [("dateRange",
                JList [JDict [("startTime", JStr "2024-04-24T00:00:00Z");
                              ("endTime", JStr "2024-05-01T00:00:00Z")]])] in
  let answer := api_success [("meta", meta);
                             ("top_0", JStr "of a.com"); ("top_1", JStr "of b.org")] in
  let s' := (fetch strptime_utc in_order self_url ["a.com"; "b.org"] "tmp"
               (fun _ _ => answer) fresh).2 in
  trace s' = [Completed 0; LogError ["a.com"; "b.org"] IndexError] /\
  reference_time_modification s' = Some (Datetime 2024 5 1 0 0 0) /\
  files s' !! fpath "tmp" "a.com" = None /\
  files s' !! fpath "tmp" "b.org" = Some (File (Some (JDict [("b.org", JStr "of a.com")]))).
Proof. vm_compute. repeat split; reflexivity. Qed.

(** The same response with [meta] after the entries: each name gets the
    entry at its position. *)
Example meta_last_demultiplexes (self_url : string) :
  let meta := JDict [("dateRange",
                JList [JDict [("startTime", JStr "2024-04-24T00:00:00Z");
                              ("endTime", JStr "2024-05-01T00:00:00Z")]])] in
  let answer := api_success [("top_0", JStr "of a.com"); ("top_1", JStr "of b.org");
                             ("meta", meta)] in
  let s' := (fetch strptime_utc in_order self_url ["a.com"; "b.org"] "tmp"
               (fun _ _ => answer) fresh).2 in
  trace s' = [Completed 0] /\
  files s' !! fpath "tmp" "a.com" = Some (File (Some (JDict [("a.com", JStr "of a.com")]))) /\
  files s' !! fpath "tmp" "b.org" = Some (File (Some (JDict [("b.org", JStr "of b.org")]))).
Proof. vm_compute. repeat split; reflexivity. Qed.

(** C9. The response is valid and its [meta] has an empty [dateRange].
    [data['meta']['dateRange'][0]] raises [IndexError], which the inner
    [except (KeyError, ValueError, TypeError)] does not catch: instead of
    a warning, the whole task fails and its record is not written. *)
Theorem empty_date_range_fails_task (strptime : string -> option datetime) (self_url : string) :
  let answer := api_success [("top_0", JStr "of a.com");
                             ("meta", JDict [("dateRange", JList [])])] in
  let s' := (fetch strptime in_order self_url ["a.com"] "tmp"
               (fun _ _ => answer) fresh).2 in
  trace s' = [Completed 0; LogError ["a.com"] IndexError] /\
  reference_time_modification s' = None /\
  files s' !! fpath "tmp" "a.com" = None.
Proof. vm_compute. repeat split; reflexivity. Qed.

(** With [dateRange] missing, the extraction fails with [KeyError]: a
    warning, and the record is written. *)
Example missing_date_range_warns (strptime : string -> option datetime) (self_url : string) :
  let answer := api_success [("top_0", JStr "of a.com"); ("meta", JDict [])] in
  let s' := (fetch strptime in_order self_url ["a.com"] "tmp"
               (fun _ _ => answer) fresh).2 in
  trace s' = [Completed 0; LogWarning KeyError] /\
  reference_time_modification s' = None /\
  files s' !! fpath "tmp" "a.com" = Some (File (Some (JDict [("a.com", JStr "of a.com")]))).
Proof. vm_compute. repeat split; reflexivity. Qed.

(** ** The temporary directory *)

Lemma entry_name_not_absolute name : entry_name name = true -> startswith name "/" = false.
Proof.
  destruct name as [|c name]; [done|].
  unfold entry_name.
  change (startswith (String c name) "/") with (Ascii.eqb "/" c && startswith name "").
  change (has_slash (String c name)) with (Ascii.eqb c "/" || has_slash name).
  replace (startswith name "") with true by by destruct name.
  rewrite (Ascii.eqb_sym "/" c).
  destruct (Ascii.eqb c "/"); [|done].
  intros H. apply andb_true_iff in H as [_ H]. done.
Qed.

Lemma elem_of_os_scandir fs dir name n :
  (name, n) ∈ os_scandir fs dir <->
  entry_name name = true /\ fs !! (os_path_join dir "" +:+ name) = Some n.
Proof.
  unfold os_scandir. rewrite list_elem_of_omap. split.
  - intros ([p n'] & Hin & Hf). simpl in Hf.
    destruct (strip_prefix _ p) as [name'|] eqn:Hp; [|done].
    destruct (entry_name name') eqn:Hname; [|done].
    injection Hf as -> ->. apply strip_prefix_Some in Hp as ->.
    by apply elem_of_map_to_list in Hin.
  - intros [Hname Hn]. exists (os_path_join dir "" +:+ name, n). split.
    + by apply elem_of_map_to_list.
    + simpl. by rewrite strip_prefix_append, Hname.
Qed.

Lemma os_scandir_path fs dir name n :
  (name, n) ∈ os_scandir fs dir -> fs !! os_path_join dir name = Some n.
Proof.
  intros [Hname Hn]%elem_of_os_scandir.
  by rewrite os_path_join_prefix by by apply entry_name_not_absolute.
Qed.


(** Writing a JSON object keeps the directory well formed. *)
Lemma cache_dir_ok_insert fs dir path d :
  cache_dir_ok fs dir -> cache_dir_ok (<[path := File (Some (JDict d))]> fs) dir.
Proof.
  intros Hok name n [Hname Hn]%elem_of_os_scandir Hfile Hjson.
  destruct (decide (path = os_path_join dir "" +:+ name)) as [->|Hne].
  - rewrite lookup_insert_eq in Hn. injection Hn as <-. by eexists.
  - rewrite lookup_insert_ne in Hn by done.
    apply (Hok name n); [|done..]. by apply elem_of_os_scandir.
Qed.

(** ** What [fetch] does to the files *)

Lemma stable_bind_lift {A B} (I : state -> Prop) (r : exn + A) (f : A -> Py B) :
  (forall a, r = inr a -> stable I (f a)) -> stable I (lift r ≫= f).
Proof.
  intros Hf s Hs. rewrite bind_run. destruct r as [e|a]; simpl; [done|].
  by apply Hf.
Qed.

Section FetchFiles.

Context (strptime : string -> option datetime).

(** Whatever kind of state property [I] is, [process] keeps it when each
    write of a record of one of the task's names does. *)
Lemma process_stable (I : state -> Prop) q :
  (forall s e, I s -> I (State (files s) (reference_time_modification s) (trace s ++ [e]))) ->
  (forall s d, I s -> I (State (files s) (Some d) (trace s))) ->
  (forall domain path res,
      domain ∈ domains q -> fpaths q !! domain = Some path ->
      stable I (json_dump_file path (JDict [(domain, res)]))) ->
  stable I (process strptime q).
Proof.
  intros Hemit Hset Hwrite. unfold process.
  apply stable_bind; [intros s Hs; by apply Hemit|]. intros _.
  apply stable_try_except; [|intros e s Hs; by apply Hemit].
  unfold try_body, response_entries.
  apply stable_bind.
  - apply stable_bind; [apply stable_lift|]. intros data.
    apply stable_bind; [|intros _; apply stable_lift].
    unfold set_modification_time.
    apply stable_bind; [by apply stable_pure|].
    intros [d|]; [apply stable_ret|].
    apply stable_try_except.
    + apply stable_bind; [apply stable_lift|]. intros d s Hs. by apply Hset.
    + intros e s Hs. by apply Hemit.
  - intros entries. apply stable_for_each. intros [idx [placeholder res]] _.
    unfold write_record. destruct (String.eqb placeholder "meta"); [apply stable_ret|].
    apply stable_bind_lift. intros domain Hd.
    apply stable_bind_lift. intros path Hp.
    apply Hwrite.
    + unfold list_getitem in Hd.
      destruct (domains q !! idx) eqn:E; [|done]. injection Hd as ->.
      by eapply list_elem_of_lookup_2.
    + unfold map_getitem in Hp.
      destruct (fpaths q !! domain) eqn:E; [|done]. by injection Hp as ->.
Qed.

Lemma process_cache_dir_ok q dir :
  stable (fun s => cache_dir_ok (files s) dir) (process strptime q).
Proof.
  apply process_stable; [done..|].
  intros domain path res _ _ s Hs. by apply cache_dir_ok_insert.
Qed.


End FetchFiles.

(** ** The assembly phase and the whole run *)

Section RunFacts.

Context (strptime : string -> option datetime) (sched : scheduler).
Context (self_url : string) (names : list string) (tmp_dir : string).
Context (network : nat -> string -> outcome).

#[local] Abbreviation fetching := (fetch strptime sched self_url names tmp_dir network).
#[local] Abbreviation running := (run strptime sched self_url names tmp_dir network).
#[local] Abbreviation planning s :=
  (planned_queries self_url names BATCH_SIZE tmp_dir (files s) network).
#[local] Abbreviation in_fetch := (fun e => fetch_event e = true).
#[local] Abbreviation in_assemble := (fun e => assemble_event e = true).

Lemma elem_of_as_completed q qs : q ∈ as_completed sched qs <-> q ∈ qs.
Proof. by rewrite (as_completed_perm sched qs). Qed.

Lemma fetch_normal s : (fetching s).1 = Normal tt.
Proof. rewrite fetch_unfold. apply fetch_loop_normal. Qed.

Lemma fetch_cache_dir_ok dir : stable (fun s => cache_dir_ok (files s) dir) fetching.
Proof.
  intros s Hs. rewrite fetch_unfold.
  apply (stable_for_each (fun s => cache_dir_ok (files s) dir)); [|done].
  intros q _. apply process_cache_dir_ok.
Qed.


(** Every planned task is completed in the events [fetch] adds. *)
Lemma fetch_trace s :
  exists fetched,
    trace (fetching s).2 = trace s ++ fetched /\
    Forall in_fetch fetched /\
    Forall (fun q => Completed (seq q) ∈ fetched) (planning s).
Proof.
  rewrite fetch_unfold.
  set (done := as_completed sched (planning s)).
  destruct (logs_fetch_loop strptime done s) as (fetched & Hall & Hrun).
  exists fetched. split; [|split; [done|]].
  - specialize (Hrun (trace s)). rewrite state_eta in Hrun. by rewrite Hrun.
  - apply Forall_forall. intros q Hq.
    specialize (Hrun []). simpl in Hrun.
    replace fetched with
      (trace (fetch_loop strptime done
                (State (files s) (reference_time_modification s) [])).2)
      by by rewrite Hrun.
    apply (fetch_loop_event strptime done q); [by apply elem_of_as_completed|].
    intros s1. apply process_completed.
Qed.

Lemma for_each_compute_link d : forall s,
  for_each d compute_link s
  = (Normal tt,
     State (files s) (reference_time_modification s) (trace s ++ (ComputeLink <$> d))).
Proof.
  induction d as [|item d IH]; intros s; simpl.
  - by rewrite app_nil_r, state_eta.
  - rewrite bind_run. unfold compute_link at 1, emit. rewrite IH. simpl.
    by rewrite <- app_assoc.
Qed.

Lemma logs_load_entry dir entry : logs in_assemble (load_entry dir entry).
Proof.
  unfold load_entry. destruct (_ || _); [apply logs_ret|].
  apply logs_bind.
  - unfold json_load_file.
    apply logs_bind; [by apply logs_emit|]. intros _.
    apply logs_bind; [apply logs_get_files|]. intros fs.
    destruct (fs !! _) as [[|[doc|]]|]; try apply logs_raise. apply logs_ret.
  - intros results. destruct (negb (truthy results)); [apply logs_ret|].
    apply logs_bind; [apply logs_lift|]. intros entries.
    apply logs_for_each. intros item. by apply logs_emit.
Qed.

Lemma logs_assemble : logs in_assemble (assemble tmp_dir).
Proof.
  unfold assemble.
  apply logs_bind; [apply logs_ret|]. intros dir.
  apply logs_bind.
  { apply logs_bind; [apply logs_get_files|]. intros fs. apply logs_ret. }
  intros entries.
  apply logs_bind; [apply logs_for_each; intros entry; apply logs_load_entry|]. intros _.
  apply logs_bind; [by apply logs_emit|]. intros _.
  by apply logs_emit.
Qed.





Lemma run_unfold s : running s = assemble tmp_dir (fetching s).2.
Proof.
  unfold run. rewrite bind_run.
  pose proof (fetch_normal s) as H.
  destruct (fetching s) as [[[]|e] s1]; simpl in *; [done | discriminate].
Qed.


(** C8. The events of a run are those of [fetch] followed by those of the
    assembly: whenever a file is read back, [compute_link] or [map_links]
    is called or the links are submitted, every task [fetch] had planned
    has been yielded by [as_completed] before. *)
Theorem run_assembles_after_all_tasks s :
  exists evs,
    trace (run strptime sched self_url names tmp_dir network s).2 = trace s ++ evs /\
    forall before e after,
      evs = before ++ e :: after -> assemble_event e = true ->
      Forall (fun q => Completed (seq q) ∈ before)
             (planned_queries self_url names BATCH_SIZE tmp_dir (files s) network).
Proof.
  destruct (fetch_trace s) as (fetched & Htrace & Hkind & Hdone).
  destruct (logs_trace (P := in_assemble) (assemble tmp_dir) (fetching s).2 logs_assemble)
    as (assembled & _ & Hasm).
  exists (fetched ++ assembled). split.
  { rewrite run_unfold, Hasm, Htrace. by rewrite <- app_assoc. }
  intros before e after Hsplit He.
  apply app_eq_app in Hsplit as [l [[H1 H2]|[H1 H2]]].
  - destruct l as [|e' l].
    + rewrite app_nil_r in H1. by subst before.
    + injection H2 as <- _. rewrite H1 in Hkind.
      apply Forall_app in Hkind as [_ Hkind]. apply Forall_cons in Hkind as [Hkind _].
      destruct e; simpl in *; congruence.
  - subst before. eapply Forall_impl; [exact Hdone|].
    intros q Hq. simpl in *. apply elem_of_app. by left.
Qed.

End RunFacts.

(** ** Concrete runs of the planner and of [run] *)

(** Only [b.org] has a file: it is in no planned batch. *)
Lemma fetch_never_requests_cached_witness :
  let fs : gmap string node :=
    {[ fpath "tmp" "b.org" := File (Some (JDict [("b.org", JList [])])) ]} in
  path_exists fs (fpath "tmp" "b.org") = true /\
  Forall (fun q => "b.org" ∉ domains q)
         (planned_queries "https://api.example/top" ["a.com"; "b.org"; "c.net"]
            BATCH_SIZE "tmp" fs (fun _ _ => Raised RequestException)).
Proof.
  intros fs. split; [vm_compute; reflexivity|].
  apply fetch_never_requests_cached. vm_compute; reflexivity.
Defined.

(** Five names, batches of two, nothing cached: three batches. *)
Lemma fetch_batch_completeness_witness :
  let names := ["a"; "b"; "c"; "d"; "e"] in
  let bs := map domains
              (planned_queries "https://api.example/top" names 2 "tmp" ∅
                 (fun _ _ => Raised RequestException)) in
  (0 < 2 /\ Forall (uncached "tmp" ∅) names) /\
  (length bs = (length names + 2 - 1) / 2 /\
   concat bs = names /\
   Forall (fun b => b <> []) bs /\
   (forall k b, bs !! k = Some b -> length b <= 2 /\ (S k < length bs -> length b = 2))).
Proof.
  intros names bs.
  assert (H : 0 < 2 /\ Forall (uncached "tmp" ∅) names).
  { split; [lia|]. repeat constructor. }
  split; [exact H|].
  apply fetch_batch_completeness; apply H.
Defined.

Example fetch_batches_of_two :
  map domains
      (planned_queries "https://api.example/top" ["a"; "b"; "c"; "d"; "e"] 2 "tmp" ∅
         (fun _ _ => Raised RequestException))
  = [["a"; "b"]; ["c"; "d"]; ["e"]].
Proof. vm_compute. reflexivity. Qed.


Example run_reads_old_and_new_records :
  let before := State {[ fpath "tmp" "a-old.org" :=
                           File (Some (JDict [("a-old.org", JStr "kept")])) ]} None [] in
  let network (n : nat) (u : string) :=
    api_success [("top_0", JStr "new"); ("meta", JDict [])] in
  trace (run strptime_utc in_order "https://api.example/top"
           ["a-old.org"; "b-new.com"] "tmp" network before).2
  = [Completed 0; LogWarning KeyError;
     Read "tmp/data_a-old.org.json"; ComputeLink ("a-old.org", JStr "kept");
     Read "tmp/data_b-new.com.json"; ComputeLink ("b-new.com", JStr "new");
     MapLinks; BatchAddLinks].
Proof. vm_compute. reflexivity. Qed.

(** ** The time stamp of the reference *)

Section ReferenceTime.

Context (strptime : string -> option datetime).

Lemma getitem_str_raises v k e :
  getitem_str v k = inl e -> e = KeyError \/ e = TypeError.
Proof.
  destruct v as [| | | | |d]; simpl; try (intros [= <-]; by right).
  destruct (dict_get d k); [done|]. intros [= <-]. by left.
Qed.

Lemma getitem_int_raises v n e :
  getitem_int v n = inl e -> e = KeyError \/ e = TypeError \/ e = IndexError.
Proof.
  destruct v as [| | |s|l|d]; simpl; try (intros [= <-]; auto).
  - destruct (String.get n s); [done|]. intros [= <-]. auto.
  - destruct (l !! n); [done|]. intros [= <-]. auto.
Qed.

(** What lines 130-131 can raise. *)
Lemma end_time_raises data e :
  end_time strptime data = inl e ->
  e = KeyError \/ e = TypeError \/ e = ValueError \/ e = IndexError.
Proof.
  unfold end_time, mbind, sum_bind.
  destruct (getitem_str data "meta") as [e1|meta] eqn:H1.
  { intros [= <-]. apply getitem_str_raises in H1. tauto. }
  destruct (getitem_str meta "dateRange") as [e2|range] eqn:H2.
  { intros [= <-]. apply getitem_str_raises in H2. tauto. }
  destruct (getitem_int range 0) as [e3|first] eqn:H3.
  { intros [= <-]. apply getitem_int_raises in H3. tauto. }
  destruct (getitem_str first "endTime") as [e4|date_str] eqn:H4.
  { intros [= <-]. apply getitem_str_raises in H4. tauto. }
  unfold datetime_strptime.
  destruct date_str as [| | |s| |]; try (intros [= <-]; tauto).
  destruct (strptime s); [done|]. intros [= <-]. tauto.
Qed.

(** Lines 127-134 when the reference time is not set: a time stamp that
    parses is stored; [KeyError], [ValueError] and [TypeError] become a
    warning; anything else leaves the block as an exception. *)
Lemma set_modification_time_unset data s :
  reference_time_modification s = None ->
  set_modification_time strptime data s =
  match end_time strptime data with
  | inr d => (Normal tt, State (files s) (Some d) (trace s))
  | inl e =>
      if except_tuple [KeyError; ValueError; TypeError] e
      then (Normal tt, State (files s) (reference_time_modification s) (trace s ++ [LogWarning e]))
      else (Raise e, s)
  end.
Proof.
  intros H. unfold set_modification_time, get_reference_time_modification.
  rewrite bind_run. rewrite H. unfold try_except. rewrite bind_run.
  destruct (end_time strptime data) as [e|d]; unfold lift, raise; cbv beta iota; [|done].
  destruct (except_tuple [KeyError; ValueError; TypeError] e); [|done].
  unfold logging_warning, emit. by rewrite H.
Qed.

(** The one exception that escapes the block is [IndexError]. *)
Lemma set_modification_time_raises data s e s' :
  set_modification_time strptime data s = (Raise e, s') -> e = IndexError.
Proof.
  destruct (reference_time_modification s) as [d|] eqn:H.
  - by rewrite (set_modification_time_set strptime data s d).
  - rewrite set_modification_time_unset by done.
    destruct (end_time strptime data) as [e0|d] eqn:He; [|done].
    apply end_time_raises in He.
    destruct He as [-> | [-> | [-> | ->]]]; simpl; congruence.
Qed.

End ReferenceTime.

(** Eleven names make two tasks whose responses carry different time
    stamps: the reference time is that of the response processed first,
    whichever order the requests finish in. *)
Example reference_time_of_first_completed :
  let names := ["a.com"; "b.com"; "c.com"; "d.com"; "e.com"; "f.com";
                "g.com"; "h.com"; "i.com"; "j.com"; "k.com"] in
  let meta (date_str : string) :=
    ("meta", JDict [("dateRange", JList [JDict [("endTime", JStr date_str)]])]) in
  let network (n : nat) (u : string) :=
    match n with
    | 0 => api_success [meta "2024-05-01T00:00:00Z"]
    | _ => api_success [meta "2024-05-02T00:00:00Z"]
    end in
  reference_time_modification
    (fetch strptime_utc in_order "https://api.example/top" names "tmp" network fresh).2
  = Some (Datetime 2024 5 1 0 0 0) /\
  reference_time_modification
    (fetch strptime_utc last_first "https://api.example/top" names "tmp" network fresh).2
  = Some (Datetime 2024 5 2 0 0 0).
Proof. vm_compute. split; reflexivity. Qed.

(** ** The directory across runs *)

Lemma cache_dir_ok_empty dir : cache_dir_ok ∅ dir.
Proof.
  intros name n [_ Hn]%elem_of_os_scandir. by rewrite lookup_empty in Hn.
Qed.

Section Runs.

Context (strptime : string -> option datetime) (sched : scheduler).
Context (self_url : string) (names : list string) (tmp_dir : string).
Context (network : nat -> string -> outcome).

(** The assembly phase writes no file. *)
Lemma assemble_files f : stable (fun s => files s = f) (assemble tmp_dir).
Proof.
  unfold assemble.
  apply stable_bind; [apply stable_ret|]. intros dir.
  apply stable_bind; [by apply stable_pure|]. intros entries.
  apply stable_bind; [|intros _; apply stable_bind; [|intros _]; by intros s Hs].
  apply stable_for_each. intros entry _. unfold load_entry.
  destruct (_ || _); [apply stable_ret|].
  apply stable_bind.
  - unfold json_load_file.
    apply stable_bind; [by intros s Hs|]. intros _.
    apply stable_bind; [by apply stable_pure|]. intros fs.
    destruct (fs !! _) as [[|[doc|]]|]; try apply stable_raise. apply stable_ret.
  - intros results. destruct (negb (truthy results)); [apply stable_ret|].
    apply stable_bind; [apply stable_lift|]. intros items.
    apply stable_for_each. by intros item _ s Hs.
Qed.

(** A run keeps the directory well formed: starting from an empty
    directory, every run finds it so. *)
Lemma run_cache_dir_ok dir :
  stable (fun s => cache_dir_ok (files s) dir)
         (run strptime sched self_url names tmp_dir network).
Proof.
  intros s Hs. rewrite run_unfold.
  rewrite (assemble_files _ _ eq_refl).
  by apply (fetch_cache_dir_ok _ _ _ _ _ _ dir).
Qed.

End Runs.

(** ** The numbering of the requests *)

Section Numbering.

Context (self_url : string) (names : list string) (batch_size : nat).
Context (tmp_dir : string) (fs : gmap string node) (network : nat -> string -> outcome).

#[local] Abbreviation numbered st :=
  (forall k q, queries st !! k = Some q -> seq q = k).

Lemma loop_body_numbered name st :
  numbered st -> numbered (loop_body self_url names batch_size tmp_dir fs network name st).2.
Proof.
  intros Hst. unfold loop_body.
  destruct (path_exists _ _); [done|].
  destruct (_ && _); [done|].
  destruct (batch st ++ [name]) as [|d0 b0]; [done|].
  simpl. intros k q Hk.
  apply lookup_app_Some in Hk as [Hk|[Hlen Hk]]; [by apply Hst|].
  destruct (k - length (queries st)) as [|k'] eqn:E; simpl in Hk; [|done].
  injection Hk as <-. simpl. lia.
Qed.

Lemma plan_from_numbered rest : forall st,
  numbered st -> numbered (plan_from self_url names batch_size tmp_dir fs network rest st).
Proof.
  induction rest as [|name rest IH]; intros st Hst; [done|].
  simpl. pose proof (loop_body_numbered name st Hst) as H.
  destruct (loop_body _ _ _ _ _ _ name st) as [br st']. simpl in H.
  destruct br; first [exact H | by apply IH].
Qed.

(** The [k]-th future of [queries] is request number [k]: no two tasks
    share their number. *)
Lemma planned_queries_seq k q :
  planned_queries self_url names batch_size tmp_dir fs network !! k = Some q -> seq q = k.
Proof.
  rewrite planned_queries_plan. apply plan_from_numbered.
  intros k' q' H. by destruct k'.
Qed.

End Numbering.

(** * Further properties of the crawlers *)

(** ** The working set *)

Lemma dom_domain_names_id rows : forall m x,
  x ∈ dom (foldl (fun (m : gmap string string) (node : string * string) =>
                    <[node.1 := node.2]> m) m rows)
  <-> x ∈ dom m \/ x ∈ rows.*1.
Proof.
  induction rows as [|[k v] rows IH]; intros m x; simpl.
  - rewrite elem_of_nil. tauto.
  - rewrite IH, dom_insert, elem_of_union, elem_of_singleton, elem_of_cons. tauto.
Qed.

Lemma elem_of_self_names rows x :
  x ∈ self_names rows <-> exists id, (x, id) ∈ rows.
Proof.
  unfold self_names, host_names_id, domain_names_id.
  rewrite merge_sort_Permutation, elem_of_elements, elem_of_union.
  rewrite dom_domain_names_id, !dom_empty, list_elem_of_fmap.
  split.
  - intros [[H | ([k v] & -> & H)] | H]; try by apply elem_of_empty in H.
    by exists v.
  - intros [id H]. left. right. by exists (x, id).
Qed.

Lemma NoDup_self_names rows : NoDup (self_names rows).
Proof.
  unfold self_names. rewrite merge_sort_Permutation. apply NoDup_elements.
Qed.

(** X1. [self.names] is sorted, has no duplicate, and holds exactly the
    names of the rows; it is the only list with these three properties,
    whatever algorithm sorts it. *)
Theorem self_names_sorted_distinct (existing_dn : list (string * string)) :
  Sorted String.le (self_names existing_dn) /\
  NoDup (self_names existing_dn) /\
  (forall x, x ∈ self_names existing_dn <-> exists id, (x, id) ∈ existing_dn) /\
  (forall l, Sorted String.le l -> NoDup l ->
             (forall x, x ∈ l <-> exists id, (x, id) ∈ existing_dn) ->
             l = self_names existing_dn).
Proof.
  split; [apply (Sorted_merge_sort String.le)|].
  split; [apply NoDup_self_names|].
  split; [apply elem_of_self_names|].
  intros l Hsorted Hnodup Hmem.
  apply (Sorted_unique String.le); [done|apply (Sorted_merge_sort String.le)|].
  apply NoDup_Permutation; [done|apply NoDup_self_names|].
  intros x. by rewrite Hmem, elem_of_self_names.
Qed.

Lemma domain_names_id_snoc rows k v :
  domain_names_id (rows ++ [(k, v)]) = <[k := v]> (domain_names_id rows).
Proof. unfold domain_names_id. by rewrite foldl_app. Qed.

(** X2. When the query returns a name more than once, the dictionary
    keeps the id of the last of its rows. *)
Theorem domain_names_id_last_row (before after : list (string * string)) (name id : string) :
  name ∉ after.*1 ->
  domain_names_id (before ++ (name, id) :: after) !! name = Some id.
Proof.
  induction after as [|[k v] after IH] using rev_ind; intros Hnot.
  - by rewrite domain_names_id_snoc, lookup_insert_eq.
  - rewrite fmap_app, elem_of_app in Hnot. simpl in Hnot.
    rewrite app_comm_cons, app_assoc, domain_names_id_snoc.
    rewrite lookup_insert_ne.
    + apply IH. tauto.
    + intros ->. apply Hnot. right. by left.
Qed.

Lemma domain_names_id_last_row_witness :
  ("b.org" ∉ [("a.com", "4:x:7")].*1) /\
  domain_names_id ([("b.org", "4:x:1")] ++ (("b.org", "4:x:2") :: [("a.com", "4:x:7")]))
    !! "b.org" = Some "4:x:2".
Proof.
  assert (H : "b.org" ∉ [("a.com", "4:x:7")].*1).
  { intros H. apply list_elem_of_singleton in H. discriminate. }
  split; [exact H|].
  apply (domain_names_id_last_row [("b.org", "4:x:1")] [("a.com", "4:x:7")] "b.org" "4:x:2" H).
Defined.

Example self_names_of_rows :
  self_names [("b.org", "4:x:1"); ("a.com", "4:x:7"); ("b.org", "4:x:2"); ("a.net", "4:x:3")]
  = ["a.com"; "a.net"; "b.org"].
Proof. vm_compute. reflexivity. Qed.

(** ** The planning loop with a cache *)

Lemma NoDup_List_filter {A} (f : A -> bool) (l : list A) :
  NoDup l -> NoDup (List.filter f l).
Proof.
  induction 1 as [|x l Hx Hl IH]; simpl; [constructor|].
  destruct (f x); [|done]. constructor; [|done].
  rewrite list_elem_of_In, filter_In, <- list_elem_of_In. tauto.
Qed.

Section PlannerCache.

Context (self_url : string) (names : list string) (batch_size : nat).
Context (tmp_dir : string) (fs : gmap string node) (network : nat -> string -> outcome).

#[local] Abbreviation body := (loop_body self_url names batch_size tmp_dir fs network).
#[local] Abbreviation plan := (plan_from self_url names batch_size tmp_dir fs network).
#[local] Abbreviation planning := (planned_queries self_url names batch_size tmp_dir fs network).
#[local] Abbreviation fresh_names :=
  (List.filter (fun name => negb (path_exists fs (fpath tmp_dir name)))).

(** The batches already closed, the open batch and the names still to
    visit that have no file: the loop moves names from right to left. *)
Lemma plan_from_partition rest : forall st,
  concat (map domains (queries (plan rest st))) ++ batch (plan rest st)
  = concat (map domains (queries st)) ++ batch st ++ fresh_names rest.
Proof.
  induction rest as [|name rest IH]; intros st.
  - simpl. by rewrite app_nil_r.
  - simpl. unfold loop_body. unfold fpath.
    destruct (path_exists fs (os_path_join tmp_dir (fname name))); simpl.
    { by rewrite IH. }
    destruct (_ && _).
    { rewrite IH. simpl. rewrite <- app_assoc. reflexivity. }
    destruct (batch st ++ [name]) as [|d0 b0] eqn:E.
    { by apply app_eq_nil in E as [_ ?]. }
    rewrite IH. simpl. rewrite map_app, concat_app. simpl.
    rewrite app_nil_r, <- E, <- !app_assoc. reflexivity.
Qed.

Lemma plan_from_open_batch_bound rest : forall st,
  (batch st = [] \/ length (batch st) < batch_size) ->
  batch (plan rest st) = [] \/ length (batch (plan rest st)) < batch_size.
Proof.
  induction rest as [|name rest IH]; intros st Hst; [done|].
  simpl. unfold loop_body.
  destruct (path_exists _ _); [by apply IH|].
  destruct (_ && _) eqn:Hopen.
  - apply IH. simpl. right.
    by apply andb_true_iff in Hopen as [H%Nat.ltb_lt _].
  - destruct (batch st ++ [name]) as [|d0 b0]; [by left|].
    apply IH. by left.
Qed.

Lemma plan_from_last_uncached rest : forall st l x,
  i st + length rest = length names ->
  rest = l ++ [x] -> uncached tmp_dir fs x ->
  batch (plan rest st) = [].
Proof.
  induction rest as [|name rest IH]; intros st l x Hi Hrest Hx.
  - by destruct l.
  - simpl in Hi. simpl.
    pose proof (loop_body_i self_url names batch_size tmp_dir fs network name st) as Hi'.
    destruct rest as [|name' rest].
    + destruct l as [|? [|? ?]]; try discriminate. injection Hrest as ->.
      unfold loop_body in *. unfold uncached, fpath in Hx. rewrite Hx in *.
      replace (S (i st) <? length names) with false
        by (symmetry; apply Nat.ltb_ge; simpl in Hi; lia).
      rewrite andb_false_r.
      destruct (batch st ++ [x]) as [|d0 b0] eqn:E; [|done].
      by apply app_eq_nil in E as [_ ?].
    + destruct l as [|y l]; [discriminate|]. injection Hrest as <- Hrest.
      destruct (body name st) as [br st'] eqn:Hb. simpl in Hi'.
      pose proof (loop_body_not_guard self_url names batch_size tmp_dir fs network name st) as Hg.
      rewrite Hb in Hg. simpl in Hg.
      assert (H : batch (plan (name' :: rest) st') = []).
      { apply (IH st' l x); [simpl in *; lia|done..]. }
      by destruct br.
Qed.

(** X3. The batches [fetch] requests, one after the other, are the names
    without a file, in the order of [self.names], up to a last group of
    fewer than [batch_size] names that is not requested; nothing is left
    out when the last name of [self.names] has no file. *)
Theorem planned_batches_are_the_uncached_names :
  exists pending,
    concat (map domains (planned_queries self_url names batch_size tmp_dir fs network))
      ++ pending
    = List.filter (fun name => negb (path_exists fs (fpath tmp_dir name))) names /\
    (pending = [] \/ length pending < batch_size) /\
    (forall l x, names = l ++ [x] -> uncached tmp_dir fs x -> pending = []).
Proof.
  rewrite planned_queries_plan.
  exists (batch (plan names loop_init)). split; [|split].
  - by rewrite plan_from_partition.
  - apply plan_from_open_batch_bound. by left.
  - intros l x Hn Hx. by apply (plan_from_last_uncached names loop_init l x).
Qed.

(** X4. When [self.names] has no duplicate (as [__init__] builds it), no
    name is in two batches, and no two names of the batches share their
    file: each file has a single writer. *)
Theorem planned_batches_are_disjoint :
  NoDup names ->
  let requested :=
    concat (map domains (planned_queries self_url names batch_size tmp_dir fs network)) in
  NoDup requested /\ NoDup (fpath tmp_dir <$> requested).
Proof.
  intros Hnames requested.
  assert (Hreq : NoDup requested).
  { subst requested. rewrite planned_queries_plan.
    pose proof (plan_from_partition names loop_init) as H. simpl in H.
    pose proof (NoDup_List_filter
                  (fun name => negb (path_exists fs (fpath tmp_dir name))) names Hnames) as Hf.
    rewrite <- H in Hf. by apply NoDup_app in Hf as [? _]. }
  split; [done|].
  apply NoDup_fmap_2; [|done]. intros a b. apply fpath_inj.
Qed.

Lemma plan_from_sizes rest : forall st,
  0 < batch_size ->
  length (batch st) < batch_size ->
  Forall (fun q => 0 < length (domains q) <= batch_size) (queries st) ->
  Forall (fun q => 0 < length (domains q) <= batch_size) (queries (plan rest st)).
Proof.
  induction rest as [|name rest IH]; intros st HB Hb Hq; [done|].
  simpl. unfold loop_body.
  destruct (path_exists _ _); [by apply IH|].
  destruct (_ && _) eqn:Hopen.
  - apply IH; [done| |done]. simpl.
    by apply andb_true_iff in Hopen as [H%Nat.ltb_lt _].
  - destruct (batch st ++ [name]) as [|d0 b0] eqn:E.
    { by apply app_eq_nil in E as [_ ?]. }
    apply IH; [done|simpl; lia|]. simpl.
    apply Forall_app. split; [done|]. apply Forall_singleton.
    apply (f_equal length) in E. rewrite length_app in E. simpl in *. lia.
Qed.

(** X5. For a batch size of at least one, every request carries between
    one and [batch_size] names, whatever is cached. *)
Theorem planned_batch_sizes :
  0 < batch_size ->
  Forall (fun q => 0 < length (domains q) <= batch_size)
         (planned_queries self_url names batch_size tmp_dir fs network).
Proof.
  intros HB. rewrite planned_queries_plan.
  apply plan_from_sizes; [done|simpl; lia|constructor].
Qed.

(** What [fpaths] holds, for a batch [b]. *)
#[local] Abbreviation paths_of m b :=
  (forall d : string,
      (m : gmap string string) !! d
      = if decide (d ∈ (b : list string)) then Some (fpath tmp_dir d) else None).

Lemma plan_from_fpaths rest : forall st,
  paths_of (fpaths_acc st) (batch st) ->
  Forall (fun q => paths_of (fpaths q) (domains q)) (queries st) ->
  Forall (fun q => paths_of (fpaths q) (domains q)) (queries (plan rest st)).
Proof.
  induction rest as [|name rest IH]; intros st Hb Hq; [done|].
  simpl. unfold loop_body.
  destruct (path_exists _ _); [by apply IH|].
  assert (Hb' : paths_of (<[name := os_path_join tmp_dir (fname name)]> (fpaths_acc st))
                         (batch st ++ [name])).
  { intros d. destruct (decide (d = name)) as [->|Hne].
    - rewrite lookup_insert_eq. rewrite decide_True; [done|].
      apply elem_of_app. right. by left.
    - rewrite lookup_insert_ne by done. rewrite Hb.
      destruct (decide (d ∈ batch st)) as [Hin|Hin].
      + rewrite decide_True; [done|]. apply elem_of_app. by left.
      + rewrite decide_False; [done|]. intros [H|H%list_elem_of_singleton]%elem_of_app; done. }
  destruct (_ && _); [by apply IH|].
  destruct (batch st ++ [name]) as [|d0 b0] eqn:E.
  { by apply app_eq_nil in E as [_ ?]. }
  apply IH; simpl.
  - intros d. rewrite lookup_empty.
    by destruct (decide (d ∈ @nil string)) as [H%elem_of_nil|].
  - apply Forall_app. split; [done|]. by apply Forall_singleton.
Qed.

(** X6. The [fpaths] dictionary attached to a request has exactly the
    names of its batch as keys, each with the path of its file
    [data_<name>.json] in the temporary directory: [query.fpaths[domain]]
    finds the path of every name of [query.domains]. *)
Theorem planned_fpaths_are_the_batch_files :
  Forall (fun q => forall d,
            fpaths q !! d
            = if decide (d ∈ domains q) then Some (fpath tmp_dir d) else None)
         (planned_queries self_url names batch_size tmp_dir fs network).
Proof.
  rewrite planned_queries_plan. apply plan_from_fpaths; simpl.
  - intros d. rewrite lookup_empty.
    by destruct (decide (d ∈ @nil string)) as [H%elem_of_nil|].
  - constructor.
Qed.

(** When every name has its file, the loop creates no future. *)
Lemma planned_queries_all_cached :
  Forall (fun name => path_exists fs (fpath tmp_dir name) = true) names ->
  planning = [].
Proof.
  intros Hall.
  pose proof (plan_from_partition names loop_init) as H. simpl in H.
  replace (fresh_names names) with (@nil string) in H.
  2: { clear H. induction Hall as [|name l Hname _ IH]; [done|].
       simpl. by rewrite Hname. }
  apply app_eq_nil in H as [H _].
  rewrite planned_queries_plan.
  pose proof (planned_queries_planned self_url names batch_size tmp_dir fs network) as Hp.
  rewrite planned_queries_plan in Hp.
  destruct (queries (plan names loop_init)) as [|q qs]; [done|].
  apply Forall_cons in Hp as [[Hne _ _ _] _].
  simpl in H. apply app_eq_nil in H as [H _]. done.
Qed.

End PlannerCache.

(** X7. When every name of [self.names] already has its file, [fetch]
    sends no request and changes nothing: it returns at once, with the
    files, the reference time and the log as they were. *)
Theorem fetch_of_cached_names_is_idle
    (strptime : string -> option datetime) (sched : scheduler)
    (self_url : string) (names : list string) (tmp_dir : string)
    (network : nat -> string -> outcome) (s : state) :
  Forall (fun name => path_exists (files s) (fpath tmp_dir name) = true) names ->
  planned_queries self_url names BATCH_SIZE tmp_dir (files s) network = [] /\
  fetch strptime sched self_url names tmp_dir network s = (Normal tt, s).
Proof.
  intros Hall.
  pose proof (planned_queries_all_cached self_url names BATCH_SIZE tmp_dir (files s) network Hall)
    as Hnone.
  split; [done|].
  rewrite fetch_unfold, Hnone.
  pose proof (as_completed_perm sched []) as Hperm.
  apply Permutation_nil_r in Hperm. by rewrite Hperm.
Qed.

(** ** Demultiplexing a response *)


Lemma enumerate_from_app {A} (l1 l2 : list A) n :
  enumerate_from n (l1 ++ l2) = enumerate_from n l1 ++ enumerate_from (n + length l1) l2.
Proof.
  revert n; induction l1 as [|x l1 IH]; intros n; simpl.
  - by rewrite Nat.add_0_r.
  - rewrite IH. by replace (S n + length l1) with (n + S (length l1)) by lia.
Qed.

Section Demultiplex.

Context (tmp_dir : string) (q : future).

(** The record [fetch] writes for a name and the entry at its position. *)
#[local] Abbreviation record_of d e :=
  (File (Some (JDict [((d : string), (e : string * json).2)]))).

#[local] Abbreviation write_all fs des :=
  (foldl (fun (acc : gmap string node) (de : string * (string * json)) =>
            <[fpath tmp_dir de.1 := record_of de.1 de.2]> acc) fs des).





End Demultiplex.


Section ProcessInOrder.

Context (strptime : string -> option datetime).



End ProcessInOrder.

(** ** What [fetch] leaves behind *)

Lemma planned_domains_names self_url names batch_size tmp_dir fs network q d :
  q ∈ planned_queries self_url names batch_size tmp_dir fs network ->
  d ∈ domains q -> d ∈ names.
Proof.
  intros Hq Hd.
  pose proof (plan_from_partition self_url names batch_size tmp_dir fs network names loop_init)
    as H. simpl in H.
  rewrite <- planned_queries_plan in H.
  assert (Hin : d ∈ List.filter (fun name => negb (path_exists fs (fpath tmp_dir name))) names).
  { rewrite <- H. apply elem_of_app. left.
    apply list_elem_of_In, in_concat. exists (domains q). split.
    - apply in_map. by apply list_elem_of_In.
    - by apply list_elem_of_In. }
  apply list_elem_of_In, filter_In in Hin as [Hin _]. by apply list_elem_of_In.
Qed.

Section FetchEffect.

Context (strptime : string -> option datetime) (sched : scheduler).
Context (self_url : string) (names : list string) (tmp_dir : string).
Context (network : nat -> string -> outcome).

(** X9. After [fetch], a path either holds what it held before, or held
    nothing, is the file [data_<name>.json] of one of [self.names], and
    now holds a JSON object with the single key [name]. [fetch] thus
    removes and overwrites no file, and creates files of this form only. *)
Theorem fetch_only_adds_records (s : state) (p : string) :
  let s' := (fetch strptime sched self_url names tmp_dir network s).2 in
  files s' !! p = files s !! p \/
  (files s !! p = None /\
   exists name payload,
     name ∈ names /\ p = fpath tmp_dir name /\
     files s' !! p = Some (File (Some (JDict [(name, payload)])))).
Proof.
  intros s'. subst s'. revert p. rewrite fetch_unfold.
  apply (stable_for_each
           (fun s' => forall p,
                files s' !! p = files s !! p \/
                (files s !! p = None /\
                 exists name payload,
                   name ∈ names /\ p = fpath tmp_dir name /\
                   files s' !! p = Some (File (Some (JDict [(name, payload)])))))).
  2: { intros p. by left. }
  intros q Hq.
  assert (Hq' : q ∈ planned_queries self_url names BATCH_SIZE tmp_dir (files s) network).
  { by rewrite (as_completed_perm sched _) in Hq. }
  pose proof (planned_queries_planned self_url names BATCH_SIZE tmp_dir (files s) network) as Hp.
  rewrite Forall_forall in Hp. specialize (Hp q Hq').
  apply process_stable; [done..|].
  intros domain path res Hd Hpath s1 Hs1 p. simpl.
  rewrite (planned_fpaths _ _ _ _ Hp domain Hd) in Hpath. injection Hpath as <-.
  destruct (decide (p = fpath tmp_dir domain)) as [->|Hne].
  - right. split.
    + pose proof (planned_uncached _ _ _ _ Hp) as Hun.
      rewrite Forall_forall in Hun. specialize (Hun _ Hd).
      unfold uncached, path_exists in Hun. apply bool_decide_eq_false in Hun.
      destruct (files s !! fpath tmp_dir domain) eqn:E; [|done].
      exfalso. apply Hun. by eexists.
    + exists domain, res. split; [by eapply planned_domains_names|].
      split; [done|]. by rewrite lookup_insert_eq.
  - rewrite lookup_insert_ne by done. apply Hs1.
Qed.

(** X10. Once the reference time is set, [fetch] leaves it as it is,
    whatever the responses carry. *)
Theorem fetch_keeps_reference_time (s : state) (d : datetime) :
  reference_time_modification s = Some d ->
  reference_time_modification (fetch strptime sched self_url names tmp_dir network s).2
  = Some d.
Proof.
  intros H. rewrite fetch_unfold.
  by apply (fetch_loop_keeps_reference_time strptime _ d).
Qed.

(** X11. The block that extracts the reference time (lines 127-134)
    changes no file; it does nothing when the time is already set; when
    it is not, a time stamp that parses is stored, a [KeyError],
    [ValueError] or [TypeError] becomes one warning, and the only
    exception that leaves the block is [IndexError]. *)
Theorem reference_time_block (data : json) (s : state) :
  let r := set_modification_time strptime data s in
  files r.2 = files s /\
  (forall d, reference_time_modification s = Some d -> r = (Normal tt, s)) /\
  (forall d, reference_time_modification s = None -> end_time strptime data = inr d ->
             r = (Normal tt, State (files s) (Some d) (trace s))) /\
  (forall e, reference_time_modification s = None -> end_time strptime data = inl e ->
             e <> IndexError ->
             r = (Normal tt, State (files s) None (trace s ++ [LogWarning e]))) /\
  (forall e, r.1 = Raise e -> e = IndexError).
Proof.
  intros r. subst r. repeat split.
  - destruct (reference_time_modification s) as [d|] eqn:Hrtm.
    + by rewrite (set_modification_time_set strptime data s d).
    + rewrite set_modification_time_unset by done.
      destruct (end_time strptime data) as [e|d]; [|done].
      by destruct (except_tuple _ e).
  - intros d Hd. by apply set_modification_time_set with d.
  - intros d Hnone Hd. by rewrite set_modification_time_unset, Hd.
  - intros e Hnone He Hidx. rewrite set_modification_time_unset, He by done.
    pose proof (end_time_raises strptime data e He) as Hcases.
    rewrite Hnone.
    destruct Hcases as [-> | [-> | [-> | ->]]]; done.
  - intros e He.
    destruct (set_modification_time strptime data s) as [c s1] eqn:Hr. simpl in He. subst c.
    by eapply set_modification_time_raises.
Qed.

End FetchEffect.

(** ** Reading the directory back *)

Section Assemble.

Context (dir : string).

(** What reading one entry does, by the kind of the entry. *)
Lemma load_entry_cases name n s :
  files s !! os_path_join dir name = Some n ->
  load_entry dir (name, n) s =
  if negb (is_file n) || negb (endswith name ".json") then (Normal tt, s)
  else
    let s1 := State (files s) (reference_time_modification s)
                    (trace s ++ [Read (os_path_join dir name)]) in
    match n with
    | File (Some doc) =>
        if negb (truthy doc) then (Normal tt, s1)
        else
          match doc with
          | JDict d =>
              (Normal tt,
               State (files s) (reference_time_modification s)
                     (trace s1 ++ (ComputeLink <$> d)))
          | _ => (Raise AttributeError, s1)
          end
    | File None => (Raise JSONDecodeError, s1)
    | Dir => (Raise OSError, s1)
    end.
Proof.
  intros Hn. unfold load_entry. simpl.
  destruct (negb (is_file n) || negb (endswith name ".json")); [done|].
  rewrite bind_run. unfold json_load_file, get_files, emit.
  rewrite bind_run. cbv beta iota. rewrite bind_run. cbv beta iota. simpl.
  rewrite Hn.
  destruct n as [|[doc|]]; try done.
  unfold mret, Py_ret. cbv beta iota.
  destruct (negb (truthy doc)); [done|].
  rewrite bind_run.
  destruct doc as [| | | | |d]; try done.
  change (lift (items (JDict d)) ?s) with (@Normal (list (string * json)) d, s).
  cbv beta iota. by rewrite for_each_compute_link.
Qed.

Lemma from_entries_cons entry entries e :
  from_entries dir entries e -> from_entries dir (entry :: entries) e.
Proof.
  destruct e; simpl; try done.
  - intros (name & c & H & ?). exists name, c. split; [by right|done].
  - intros (name & d & H & ?). exists name, d. split; [by right|done].
Qed.

(** The loop of lines 152-163 over entries that are in the directory. *)
Lemma load_entries_spec entries : forall s,
  (forall entry, entry ∈ entries -> files s !! os_path_join dir entry.1 = Some entry.2) ->
  exists evs,
    files (for_each entries (load_entry dir) s).2 = files s /\
    trace (for_each entries (load_entry dir) s).2 = trace s ++ evs /\
    Forall (from_entries dir entries) evs /\
    ((for_each entries (load_entry dir) s).1 = Normal tt <-> Forall entry_loadable entries).
Proof.
  induction entries as [|[name n] entries IH]; intros s Hin.
  - exists []. simpl. rewrite app_nil_r. repeat split; by constructor.
  - assert (Hn : files s !! os_path_join dir name = Some n) by (apply (Hin (name, n)); by left).
    pose proof (load_entry_cases name n s Hn) as Hcase.
    simpl. rewrite bind_run.
    assert (Hstep :
      exists evs1,
        files (load_entry dir (name, n) s).2 = files s /\
        trace (load_entry dir (name, n) s).2 = trace s ++ evs1 /\
        Forall (from_entries dir ((name, n) :: entries)) evs1 /\
        ((load_entry dir (name, n) s).1 = Normal tt <-> entry_loadable (name, n))).
    { rewrite Hcase. unfold entry_loadable. simpl.
      destruct (is_file n) eqn:Hfile; simpl.
      2: { exists []. rewrite app_nil_r. repeat split; [constructor|done]. }
      destruct (endswith name ".json") eqn:Hjson; simpl.
      2: { exists []. rewrite app_nil_r. repeat split; [constructor|done]. }
      assert (Hread : from_entries dir ((name, n) :: entries) (Read (os_path_join dir name))).
      { destruct n as [|c]; [done|]. exists name, c. split; [by left|done]. }
      destruct n as [|[doc|]]; [done| |].
      2: { exists [Read (os_path_join dir name)]. repeat split; [by constructor|done|].
           intros H. destruct (H eq_refl eq_refl) as (doc & [=] & _). }
      destruct (truthy doc) eqn:Htruthy; simpl.
      2: { exists [Read (os_path_join dir name)]. repeat split; [by constructor|].
           intros _ _. exists doc. split; [done|]. by left. }
      destruct doc as [| |z|str|l|d].
      1-5: (exists [Read (os_path_join dir name)]; simpl;
            split; [done|]; split; [done|]; split; [by constructor|];
            split; [done|]; intros H;
            destruct (H eq_refl eq_refl) as (doc' & Hdoc & Hcases);
            injection Hdoc as <-;
            destruct Hcases as [Hf|[d' Hd']]; [congruence|discriminate]).
      exists (Read (os_path_join dir name) :: (ComputeLink <$> d)).
      split; [done|]. split; [by rewrite <- app_assoc|]. split.
      - constructor; [done|]. apply Forall_fmap, Forall_forall. intros item Hitem.
        exists name, d. split; [by left|done].
      - split; [|done]. intros _ _. exists (JDict d). split; [done|]. right. by exists d. }
    destruct Hstep as (evs1 & Hf1 & Ht1 & Hev1 & Hok1).
    destruct (load_entry dir (name, n) s) as [[[]|e] s1]; simpl in *.
    + destruct (IH s1) as (evs2 & Hf2 & Ht2 & Hev2 & Hok2).
      { intros entry Hentry. rewrite Hf1. apply Hin. by right. }
      exists (evs1 ++ evs2). split; [congruence|].
      split; [rewrite Ht2, Ht1; by rewrite <- app_assoc|]. split.
      * apply Forall_app. split; [done|].
        eapply Forall_impl; [exact Hev2|]. intros e. apply from_entries_cons.
      * rewrite Hok2, Forall_cons. tauto.
    + exists evs1. repeat split; try done.
      intros [H _]%Forall_cons. apply Hok1 in H. done.
Qed.

End Assemble.

Lemma from_entries_not_links dir entries reads :
  Forall (from_entries dir entries) reads -> (MapLinks ∉ reads) /\ (BatchAddLinks ∉ reads).
Proof.
  intros H. rewrite Forall_forall in H. split; intros Hin; by apply H in Hin.
Qed.

(** The assembly phase, from the state [fetch] leaves. *)
Lemma assemble_spec tmp_dir s :
  exists reads,
    Forall (from_entries tmp_dir (os_scandir (files s) tmp_dir)) reads /\
    ((assemble tmp_dir s).1 = Normal tt <-> loadable (files s) tmp_dir) /\
    ((assemble tmp_dir s).1 = Normal tt ->
     trace (assemble tmp_dir s).2 = trace s ++ reads ++ [MapLinks; BatchAddLinks]) /\
    (forall e, (assemble tmp_dir s).1 = Raise e ->
     trace (assemble tmp_dir s).2 = trace s ++ reads).
Proof.
  destruct (load_entries_spec tmp_dir (os_scandir (files s) tmp_dir) s)
    as (reads & Hfiles & Htrace & Hreads & Hok).
  { intros [name n] Hin. by apply os_scandir_path. }
  exists reads. split; [done|].
  change (assemble tmp_dir s)
    with ((for_each (os_scandir (files s) tmp_dir) (load_entry tmp_dir) ;;
           map_links ;; batch_add_links) s).
  rewrite bind_run.
  assert (Hloadable : Forall entry_loadable (os_scandir (files s) tmp_dir)
                      <-> loadable (files s) tmp_dir).
  { unfold loadable. by rewrite Forall_forall. }
  destruct (for_each (os_scandir (files s) tmp_dir) (load_entry tmp_dir) s)
    as [[[]|e] s1]; simpl in *.
  - split; [by rewrite <- Hloadable, <- Hok|].
    split; [|done]. intros _. rewrite Htrace. by rewrite <- !app_assoc.
  - split.
    + rewrite <- Hloadable, <- Hok. split; done.
    + split; [done|]. by intros e' _.
Qed.

Section RunOutcome.

Context (strptime : string -> option datetime) (sched : scheduler).
Context (self_url : string) (names : list string) (tmp_dir : string).
Context (network : nat -> string -> outcome).


(** X13. [map_links] and [batch_add_links] are called once each, in this
    order, as the last two steps of a run that returns normally, and not
    at all in a run that raises: links are submitted only after the whole
    directory has been read back. *)
Theorem run_submits_links_last (s : state) :
  let r := run strptime sched self_url names tmp_dir network s in
  exists evs,
    trace r.2 = trace (fetch strptime sched self_url names tmp_dir network s).2 ++ evs /\
    (r.1 = Normal tt ->
     exists reads, evs = reads ++ [MapLinks; BatchAddLinks] /\
                   (MapLinks ∉ reads) /\ (BatchAddLinks ∉ reads)) /\
    (forall e, r.1 = Raise e -> (MapLinks ∉ evs) /\ (BatchAddLinks ∉ evs)).
Proof.
  intros r. subst r. rewrite run_unfold.
  destruct (assemble_spec tmp_dir (fetch strptime sched self_url names tmp_dir network s).2)
    as (reads & Hreads & _ & Hnormal & Hraise).
  apply from_entries_not_links in Hreads.
  destruct (assemble tmp_dir _) as [[[]|e] s1] eqn:Hrun; simpl in *.
  - exists (reads ++ [MapLinks; BatchAddLinks]). split; [by apply Hnormal|].
    split; [|done]. intros _. by exists reads.
  - exists reads. split; [by apply (Hraise e)|]. split; [done|]. by intros e' _.
Qed.

(** X14. Whatever the assembly phase hands to [compute_link] is a member
    of the JSON object held by a regular [.json] file directly in the
    temporary directory, and every file it opens is such a file: names
    without a record, sub-directories and other files yield no link. *)
Theorem run_computes_links_from_records_only (s : state) :
  let s1 := (fetch strptime sched self_url names tmp_dir network s).2 in
  exists evs,
    trace (run strptime sched self_url names tmp_dir network s).2 = trace s1 ++ evs /\
    (forall item, ComputeLink item ∈ evs ->
       exists name d, (name, File (Some (JDict d))) ∈ os_scandir (files s1) tmp_dir /\
                      endswith name ".json" = true /\ item ∈ d) /\
    (forall path, Read path ∈ evs ->
       exists name c, (name, File c) ∈ os_scandir (files s1) tmp_dir /\
                      endswith name ".json" = true /\ path = os_path_join tmp_dir name).
Proof.
  intros s1. subst s1. rewrite run_unfold.
  destruct (assemble_spec tmp_dir (fetch strptime sched self_url names tmp_dir network s).2)
    as (reads & Hreads & _ & Hnormal & Hraise).
  rewrite Forall_forall in Hreads.
  assert (Hsound : forall e, e ∈ reads ++ [MapLinks; BatchAddLinks] ->
            e = MapLinks \/ e = BatchAddLinks \/
            from_entries tmp_dir
              (os_scandir (files (fetch strptime sched self_url names tmp_dir network s).2)
                          tmp_dir) e).
  { intros e [He|He]%elem_of_app; [right; right; by apply Hreads|].
    apply elem_of_cons in He as [->|He]; [by left|].
    apply list_elem_of_singleton in He as ->. right. by left. }
  destruct (assemble tmp_dir _) as [[[]|e] s2] eqn:Hrun; simpl in *.
  - exists (reads ++ [MapLinks; BatchAddLinks]). split; [by apply Hnormal|]. split.
    + intros item Hin. by destruct (Hsound _ Hin) as [|[|H]].
    + intros path Hin. by destruct (Hsound _ Hin) as [|[|H]].
  - exists reads. split; [by apply (Hraise e)|]. split.
    + intros item Hin. by apply Hreads in Hin.
    + intros path Hin. by apply Hreads in Hin.
Qed.

End RunOutcome.

(** ** Concrete inputs for the properties above *)

Lemma planned_batches_are_disjoint_witness :
  let names := ["a.com"; "b.org"; "c.net"] in
  let requested :=
    concat (map domains (planned_queries "https://api.example/top" names 2 "tmp" ∅
                           (fun _ _ => Raised RequestException))) in
  NoDup names /\ (NoDup requested /\ NoDup (fpath "tmp" <$> requested)).
Proof.
  intros names requested.
  assert (H : NoDup names) by (apply (bool_decide_unpack _); vm_compute; exact I).
  split; [exact H|].
  apply (planned_batches_are_disjoint "https://api.example/top" names 2 "tmp" ∅
           (fun _ _ => Raised RequestException) H).
Defined.

Lemma planned_batch_sizes_witness :
  0 < 2 /\
  Forall (fun q => 0 < length (domains q) <= 2)
         (planned_queries "https://api.example/top" ["a.com"; "b.org"; "c.net"] 2 "tmp" ∅
            (fun _ _ => Raised RequestException)).
Proof.
  split; [lia|]. apply planned_batch_sizes. lia.
Defined.

Lemma fetch_of_cached_names_is_idle_witness :
  let s := State {[ fpath "tmp" "a.com" := File (Some (JDict [("a.com", JList [])]));
                    fpath "tmp" "b.org" := File (Some (JDict [("b.org", JList [])])) ]}
                 None [] in
  let network (n : nat) (u : string) := Raised RequestException in
  Forall (fun name => path_exists (files s) (fpath "tmp" name) = true) ["a.com"; "b.org"] /\
  (planned_queries "https://api.example/top" ["a.com"; "b.org"] BATCH_SIZE "tmp" (files s) network
   = [] /\
   fetch strptime_utc in_order "https://api.example/top" ["a.com"; "b.org"] "tmp" network s
   = (Normal tt, s)).
Proof.
  intros s network.
  assert (H : Forall (fun name => path_exists (files s) (fpath "tmp" name) = true)
                     ["a.com"; "b.org"]).
  { repeat constructor; vm_compute; reflexivity. }
  split; [exact H|].
  apply (fetch_of_cached_names_is_idle strptime_utc in_order "https://api.example/top"
           ["a.com"; "b.org"] "tmp" network s H).
Defined.


Lemma fetch_keeps_reference_time_witness :
  let s := State ∅ (Some (Datetime 2024 4 30 0 0 0)) [] in
  let network (n : nat) (u : string) :=
    api_success [("top_0", JStr "x");
                 ("meta", JDict [("dateRange",
                    JList [JDict [("endTime", JStr "2024-05-01T00:00:00Z")]])])] in
  reference_time_modification s = Some (Datetime 2024 4 30 0 0 0) /\
  reference_time_modification
    (fetch strptime_utc in_order "https://api.example/top" ["a.com"] "tmp" network s).2
  = Some (Datetime 2024 4 30 0 0 0).
Proof.
  intros s network. split; [reflexivity|].
  by apply (fetch_keeps_reference_time strptime_utc in_order "https://api.example/top"
              ["a.com"] "tmp" network s).
Defined.

(** * The PeeringDB organizations *)

Lemma stmt_bind_run {St A B} (m : Stmt St A) (f : A -> Stmt St B) (s : St) :
  (m ≫= f) s = match m s with
               | (inr a, s') => f a s'
               | (inl e, s') => (inl e, s')
               end.
Proof. reflexivity. Qed.

Lemma eval_inr_bind {St A B} (a : A) (f : A -> Stmt St B) (s : St) :
  (eval (inr a) ≫= f) s = f a s.
Proof. reflexivity. Qed.

Lemma eval_inl_bind {St A B} (e : exn) (f : A -> Stmt St B) (s : St) :
  (eval (inl e) ≫= f) s = (inl (Builtin e), s).
Proof. reflexivity. Qed.

Lemma ret_bind {St A B} (a : A) (f : A -> Stmt St B) (s : St) :
  (mret a ≫= f) s = f a s.
Proof. reflexivity. Qed.

Section OrgQid.

Import PeeringdbOrg.

Variable get_pid : string -> json.
Variable get_qid : string -> json.
Variable add_item_qid : list call -> json.
Variable reference : json.
Variable str : json -> string.
Variable strip : string -> string.
Variable countries_by_alpha2 : gmap string string.

#[local] Abbreviation org_qid' := (org_qid get_pid get_qid add_item_qid str).
#[local] Abbreviation update_org' :=
  (update_org get_pid get_qid add_item_qid reference str strip countries_by_alpha2).

Lemma org_qid_cases (organization : json) (s : crawler) :
  match getitem_str organization "id" with
  | inl e => org_qid' organization s = (inl (Builtin e), s)
  | inr id =>
      match orgid2qid s !! str id with
      | Some q => org_qid' organization s = (inr q, s)
      | None =>
          match getitem_str organization "name" with
          | inl e => org_qid' organization s = (inl (Builtin e), s)
          | inr label =>
              org_qid' organization s
              = (inr (add_item_qid (calls s)),
                 Crawler (<[str id := add_item_qid (calls s)]> (orgid2qid s))
                   (calls s ++ [AddItem "add new peeringDB organization" label
                      (JList [JList [get_pid "external ID"; JStr (str id); JList [];
                                     JList [JList [get_pid "instance of";
                                                   get_qid ORGID_LABEL]]]])]))
          end
      end
  end.
Proof.
  cbv [org_qid mbind Stmt_bind mret Stmt_ret eval throw get_orgid2qid set_orgid2qid
       add_item].
  destruct (getitem_str organization "id") as [e|id] eqn:Hid; [reflexivity|].
  destruct (orgid2qid s !! str id) as [q|] eqn:Hq.
  - by rewrite Hq.
  - destruct (getitem_str organization "name") as [e|label] eqn:Hname; [reflexivity|].
    cbn [orgid2qid calls]. by rewrite lookup_insert_eq.
Qed.

End OrgQid.

Section OrgFacts.

Import PeeringdbOrg.

Variable get_pid : string -> json.
Variable get_qid : string -> json.
Variable add_item_qid : list call -> json.
Variable reference : json.
Variable str : json -> string.
Variable strip : string -> string.
Variable countries_by_alpha2 : gmap string string.

#[local] Abbreviation org_qid' := (org_qid get_pid get_qid add_item_qid str).
#[local] Abbreviation update_org' :=
  (update_org get_pid get_qid add_item_qid reference str strip countries_by_alpha2).

Lemma org_qid_result (organization : json) (s s' : crawler) (q : json) :
  org_qid get_pid get_qid add_item_qid str organization s = (inr q, s') ->
  exists id,
    getitem_str organization "id" = inr id /\
    orgid2qid s' !! str id = Some q /\
    (forall k, k <> str id -> orgid2qid s' !! k = orgid2qid s !! k) /\
    (forall q0, orgid2qid s !! str id = Some q0 -> q = q0 /\ s' = s) /\
    (orgid2qid s !! str id = None ->
     q = add_item_qid (calls s) /\
     exists label statements,
       calls s' = calls s ++ [AddItem "add new peeringDB organization" label statements] /\
       added_id (AddItem "add new peeringDB organization" label statements)
       = Some (JStr (str id))).
Proof.
  intros H. pose proof (org_qid_cases get_pid get_qid add_item_qid str organization s) as Hc.
  destruct (getitem_str organization "id") as [e|id]; [congruence|].
  exists id. split; [done|].
  destruct (orgid2qid s !! str id) as [q0|] eqn:Hq.
  - rewrite Hc in H. injection H as <- <-.
    split; [done|]. split; [done|]. split; [|done].
    intros q1 [= <-]. done.
  - destruct (getitem_str organization "name") as [e|label]; [congruence|].
    rewrite Hc in H. injection H as <- <-. cbn [orgid2qid calls].
    split; [by rewrite lookup_insert_eq|].
    split; [intros k Hk; by rewrite lookup_insert_ne|].
    split; [done|]. intros _. split; [done|]. eauto.
Qed.

(** X15. [org_qid] finds or adds: when it returns, the QID it returns is
    the one [orgid2qid] holds for the organization's ID afterwards and
    no other ID changed; an ID that was known keeps its QID and nothing
    is asked of the wikibase; for an unknown ID exactly one item is
    added, and its QID is the one returned. *)
Theorem org_qid_finds_or_adds (organization : json) (s s' : crawler) (q : json) :
  org_qid get_pid get_qid add_item_qid str organization s = (inr q, s') ->
  exists id,
    getitem_str organization "id" = inr id /\
    orgid2qid s' !! str id = Some q /\
    (forall k, k <> str id -> orgid2qid s' !! k = orgid2qid s !! k) /\
    (forall q0, orgid2qid s !! str id = Some q0 -> q = q0 /\ s' = s) /\
    (orgid2qid s !! str id = None ->
     q = add_item_qid (calls s) /\
     exists label statements,
       calls s' = calls s ++ [AddItem "add new peeringDB organization" label statements] /\
       added_id (AddItem "add new peeringDB organization" label statements)
       = Some (JStr (str id))).
Proof. apply org_qid_result. Qed.

(** X16. [org_qid] memoizes: once it has returned a QID for an
    organization, asking again for any organization with the same ID
    returns the same QID, adds nothing to the wikibase and leaves the
    crawler as it is. *)
Theorem org_qid_memoizes (organization again id id' : json) (s s' : crawler) (q : json) :
  getitem_str organization "id" = inr id ->
  getitem_str again "id" = inr id' ->
  str id' = str id ->
  org_qid get_pid get_qid add_item_qid str organization s = (inr q, s') ->
  org_qid get_pid get_qid add_item_qid str again s' = (inr q, s').
Proof.
  intros Hid Hid' Hstr H.
  apply org_qid_result in H as (id0 & Hid0 & Hq & _).
  assert (id0 = id) as -> by congruence.
  pose proof (org_qid_cases get_pid get_qid add_item_qid str again s') as Hc.
  rewrite Hid', Hstr, Hq in Hc. exact Hc.
Qed.

Lemma org_qid_raises_unchanged (organization : json) (s s' : crawler) (e : raised) :
  org_qid' organization s = (inl e, s') -> s' = s.
Proof.
  intros H. pose proof (org_qid_cases get_pid get_qid add_item_qid str organization s) as Hc.
  destruct (getitem_str organization "id") as [e'|id]; [congruence|].
  destruct (orgid2qid s !! str id); [congruence|].
  destruct (getitem_str organization "name"); congruence.
Qed.

Lemma update_org_tail (organization : json) (statements : list json) (s : crawler) :
  match (qid ← org_qid' organization;
         do (UpsertStatements "update peeringDB organization" qid (JList statements)) ;;
         mret qid) s with
  | (inl e, s') => s' = s
  | (inr q, s') =>
      exists s1 stm,
        org_qid' organization s = (inr q, s1) /\
        s' = Crawler (orgid2qid s1)
               (calls s1 ++ [UpsertStatements "update peeringDB organization" q stm])
  end.
Proof.
  rewrite stmt_bind_run.
  destruct (org_qid' organization s) as [[e|q] s1] eqn:Ho.
  - by apply org_qid_raises_unchanged in Ho.
  - cbv [mbind Stmt_bind mret Stmt_ret do]. eauto.
Qed.

Lemma update_org_spec (organization : json) (s : crawler) :
  match getitem_str organization "name" with
  | inl e => update_org' organization s = (inl (Builtin e), s)
  | inr (JStr _) =>
      match getitem_str organization "website" with
      | inl e => update_org' organization s = (inl (Builtin e), s)
      | inr _ =>
          match getitem_str organization "country" with
          | inl e => update_org' organization s = (inl (Builtin e), s)
          | inr country =>
              if hashable country then
                exists statements,
                  update_org' organization s
                  = (qid ← org_qid' organization;
                     do (UpsertStatements "update peeringDB organization" qid
                           (JList statements)) ;;
                     mret qid) s
              else update_org' organization s = (inl (Builtin TypeError), s)
          end
      end
  | inr _ => update_org' organization s = (inl (Builtin AttributeError), s)
  end.
Proof.
  unfold update_org.
  destruct (getitem_str organization "name") as [e|name] eqn:Hname; [reflexivity|].
  rewrite eval_inr_bind.
  destruct name; try reflexivity.
  cbn [strip_method]. rewrite eval_inr_bind.
  destruct (getitem_str organization "website") as [e|website] eqn:Hweb; [reflexivity|].
  rewrite eval_inr_bind.
  destruct (truthy website).
  - rewrite stmt_bind_run, eval_inr_bind. unfold mret, Stmt_ret. cbv beta iota.
    destruct (getitem_str organization "country") as [e|country]; [reflexivity|].
    rewrite eval_inr_bind.
    destruct country; cbn [in_countries hashable]; try reflexivity;
      rewrite eval_inr_bind; eauto.
  - rewrite ret_bind.
    destruct (getitem_str organization "country") as [e|country]; [reflexivity|].
    rewrite eval_inr_bind.
    destruct country; cbn [in_countries hashable]; try reflexivity;
      rewrite eval_inr_bind; eauto.
Qed.

Lemma update_org_cases (organization : json) (s : crawler) :
  match update_org' organization s with
  | (inl e, s') => s' = s
  | (inr q, s') =>
      exists s1 statements,
        org_qid' organization s = (inr q, s1) /\
        s' = Crawler (orgid2qid s1)
               (calls s1 ++ [UpsertStatements "update peeringDB organization" q statements])
  end.
Proof.
  pose proof (update_org_spec organization s) as H.
  destruct (getitem_str organization "name") as [e|name]; [by rewrite H|].
  destruct name; try by rewrite H.
  destruct (getitem_str organization "website") as [e|website]; [by rewrite H|].
  destruct (getitem_str organization "country") as [e|country]; [by rewrite H|].
  destruct (hashable country); [|by rewrite H].
  destruct H as [statements ->]. apply update_org_tail.
Qed.

(** X17. [update_org] is all or nothing: when it raises, the crawler
    and the wikibase are as before the call; when it returns a QID, its
    last call is [upsert_statements] on that QID, which [orgid2qid]
    holds for the organization's ID. *)
Theorem update_org_raises_before_writing (organization : json) (s : crawler) :
  match update_org get_pid get_qid add_item_qid reference str strip countries_by_alpha2
          organization s with
  | (inl e, s') => s' = s
  | (inr q, s') =>
      (exists id, getitem_str organization "id" = inr id /\
                  orgid2qid s' !! str id = Some q) /\
      exists before statements,
        calls s' = calls s ++ before
                   ++ [UpsertStatements "update peeringDB organization" q statements]
  end.
Proof.
  pose proof (update_org_cases organization s) as H.
  destruct (update_org' organization s) as [[e|q] s']; [done|].
  destruct H as (s1 & statements & Ho & ->). cbn [orgid2qid calls].
  apply org_qid_result in Ho as (id & Hid & Hq & _ & Hknown & Hnew).
  split; [eauto|].
  destruct (orgid2qid s !! str id) as [q0|] eqn:Hs.
  - destruct (Hknown q0 eq_refl) as [_ ->]. by exists [], statements.
  - destruct (Hnew eq_refl) as (_ & label & stm & -> & _).
    exists [AddItem "add new peeringDB organization" label stm], statements.
    by rewrite <- app_assoc.
Qed.

Lemma update_org_returns_iff (organization : json) (s : crawler) :
  (exists q s',
      update_org get_pid get_qid add_item_qid reference str strip countries_by_alpha2
        organization s = (inr q, s'))
  <-> complete organization.
Proof.
  pose proof (update_org_spec organization s) as H.
  pose proof (org_qid_cases get_pid get_qid add_item_qid str organization s) as Hc.
  unfold complete. split.
  - intros (q & s' & Hu).
    destruct (getitem_str organization "name") as [e|name]; [congruence|].
    destruct name; try congruence.
    destruct (getitem_str organization "website") as [e|website]; [congruence|].
    destruct (getitem_str organization "country") as [e|country]; [congruence|].
    destruct (hashable country) eqn:Hh; [|congruence].
    destruct H as [statements H]. rewrite H, stmt_bind_run in Hu.
    destruct (getitem_str organization "id") as [e|id].
    { rewrite Hc in Hu. discriminate. }
    eauto 10.
  - intros ((name & Hname) & (website & Hweb) & (country & Hcountry & Hh) & (id & Hid)).
    rewrite Hname, Hweb, Hcountry, Hh in H. destruct H as [statements ->].
    rewrite Hid, Hname in Hc. rewrite stmt_bind_run.
    destruct (orgid2qid s !! str id); rewrite Hc;
      cbv [mbind Stmt_bind mret Stmt_ret do]; eauto.
Qed.

(** X18. What [update_org] needs: it returns exactly for an
    organization that has a string under [name], a value under
    [website], a value that can be hashed under [country], and an
    [id]. *)
Theorem update_org_returns_iff_complete (organization : json) (s : crawler) :
  (exists q s',
      update_org get_pid get_qid add_item_qid reference str strip countries_by_alpha2
        organization s = (inr q, s'))
  <-> complete organization.
Proof. apply update_org_returns_iff. Qed.

End OrgFacts.

Section OrgRun.

Import PeeringdbOrg.

Variable get_pid : string -> json.
Variable get_qid : string -> json.
Variable add_item_qid : list call -> json.
Variable reference : json.
Variable str : json -> string.
Variable strip : string -> string.
Variable countries_by_alpha2 : gmap string string.
Variable answer_orgs : answer.

#[local] Abbreviation org_qid' := (org_qid get_pid get_qid add_item_qid str).
#[local] Abbreviation update_org' :=
  (update_org get_pid get_qid add_item_qid reference str strip countries_by_alpha2).
#[local] Abbreviation run' :=
  (run get_pid get_qid add_item_qid reference str strip countries_by_alpha2 answer_orgs).

Lemma adds_fresh_refl (s : crawler) : adds_fresh s s.
Proof.
  exists []. rewrite app_nil_r. split; [done|]. split; [constructor|].
  split; [|done]. intros id Hid. by apply elem_of_nil in Hid.
Qed.

Lemma adds_fresh_trans (s1 s2 s3 : crawler) :
  adds_fresh s1 s2 -> adds_fresh s2 s3 -> adds_fresh s1 s3.
Proof.
  intros (n1 & Hc1 & Hd1 & Hn1 & Hk1) (n2 & Hc2 & Hd2 & Hn2 & Hk2).
  exists (n1 ++ n2). rewrite Hc2, Hc1, <- app_assoc. split; [done|].
  rewrite omap_app. split; [|split].
  - apply NoDup_app. split; [done|]. split; [|done].
    intros id H1 H2.
    destruct (Hn1 id H1) as (k & -> & _ & Hs).
    destruct (Hn2 _ H2) as (k' & [= <-] & Hnone & _).
    rewrite Hnone in Hs. by destruct Hs.
  - intros id [H|H]%elem_of_app.
    + destruct (Hn1 id H) as (k & -> & Hnone & Hs). exists k. eauto.
    + destruct (Hn2 id H) as (k & -> & Hnone & Hs). exists k.
      split; [done|]. split; [|done].
      destruct (orgid2qid s1 !! k) eqn:Hk; [|done].
      assert (is_Some (orgid2qid s2 !! k)) as Hs2 by (apply Hk1; eauto).
      rewrite Hnone in Hs2. by destruct Hs2.
  - eauto.
Qed.

Lemma adds_fresh_do (c : call) (s : crawler) :
  added_id c = None -> adds_fresh s (do c s).2.
Proof.
  intros Hc. exists [c]. cbn. rewrite Hc. split; [done|]. split; [constructor|].
  split; [|done]. intros id Hid. by apply elem_of_nil in Hid.
Qed.

Lemma adds_fresh_bind {A B} (m : Stmt crawler A) (f : A -> Stmt crawler B) (s : crawler) :
  adds_fresh s (m s).2 ->
  (forall a s1, adds_fresh s1 (f a s1).2) ->
  adds_fresh s ((m ≫= f) s).2.
Proof.
  intros Hm Hf. rewrite stmt_bind_run.
  destruct (m s) as [[e|a] s1]; [exact Hm|].
  eapply adds_fresh_trans; [exact Hm|apply Hf].
Qed.

Lemma adds_fresh_eval {A} (r : exn + A) (s : crawler) : adds_fresh s (eval r s).2.
Proof. destruct r; apply adds_fresh_refl. Qed.

Lemma adds_fresh_org_qid (organization : json) (s : crawler) :
  adds_fresh s (org_qid' organization s).2.
Proof.
  pose proof (org_qid_cases get_pid get_qid add_item_qid str organization s) as Hc.
  destruct (getitem_str organization "id") as [e|id]; [rewrite Hc; apply adds_fresh_refl|].
  destruct (orgid2qid s !! str id) as [q|] eqn:Hq; [rewrite Hc; apply adds_fresh_refl|].
  destruct (getitem_str organization "name") as [e|label];
    [rewrite Hc; apply adds_fresh_refl|].
  rewrite Hc. eexists [_]. cbn. split; [done|].
  split; [apply NoDup_singleton|]. split.
  - intros ? ->%list_elem_of_singleton. exists (str id).
    rewrite lookup_insert_eq. eauto.
  - intros k Hk. destruct (decide (k = str id)) as [->|Hne].
    + rewrite lookup_insert_eq. eauto.
    + by rewrite lookup_insert_ne.
Qed.

Lemma adds_fresh_update_org (organization : json) (s : crawler) :
  adds_fresh s (update_org' organization s).2.
Proof.
  pose proof (update_org_cases get_pid get_qid add_item_qid reference str strip
                countries_by_alpha2 organization s) as H.
  destruct (update_org' organization s) as [[e|q] s']; cbn [snd].
  - rewrite H. apply adds_fresh_refl.
  - destruct H as (s1 & statements & Ho & ->).
    eapply adds_fresh_trans.
    + pose proof (adds_fresh_org_qid organization s) as H1. rewrite Ho in H1. exact H1.
    + apply (adds_fresh_do (UpsertStatements "update peeringDB organization" q statements) s1).
      reflexivity.
Qed.

Lemma adds_fresh_for_all {A} (l : list A) (body : A -> Stmt crawler unit) :
  (forall x s, adds_fresh s (body x s).2) ->
  forall s, adds_fresh s (for_all l body s).2.
Proof.
  intros Hb. induction l as [|x l IH]; intros s; [apply adds_fresh_refl|].
  cbn [for_all]. apply adds_fresh_bind; [apply Hb|]. intros _ s1. apply IH.
Qed.

(** X19. Within a run an organization is added to the wikibase at most
    once: the IDs of the items [run] adds are pairwise distinct, none
    of them was in [orgid2qid] when the run started and all of them are
    in it afterwards, whether the run returns or raises; so an
    organization that PeeringDB lists twice, or that the wikibase
    already had, is not added again. *)
Theorem run_adds_each_organization_once (s : crawler) :
  exists new,
    calls (run get_pid get_qid add_item_qid reference str strip countries_by_alpha2
             answer_orgs s).2 = calls s ++ new /\
    NoDup (omap added_id new) /\
    (forall id, id ∈ omap added_id new ->
       exists k, id = JStr k /\ orgid2qid s !! k = None /\
         is_Some (orgid2qid (run get_pid get_qid add_item_qid reference str strip
                               countries_by_alpha2 answer_orgs s).2 !! k)).
Proof.
  assert (H : adds_fresh s (run' s).2).
  { unfold run.
    apply adds_fresh_bind; [by apply adds_fresh_do|]. intros _ s1.
    apply adds_fresh_bind; [by apply adds_fresh_do|]. intros _ s2.
    apply adds_fresh_bind; [apply adds_fresh_eval|]. intros req s3.
    apply adds_fresh_bind; [destruct (negb _); apply adds_fresh_refl|]. intros _ s4.
    apply adds_fresh_bind; [apply adds_fresh_eval|]. intros doc s5.
    apply adds_fresh_bind; [apply adds_fresh_eval|]. intros organizations s6.
    apply adds_fresh_bind; [by apply adds_fresh_do|]. intros _ s7.
    apply adds_fresh_bind; [apply adds_fresh_eval|]. intros orgs s8.
    apply adds_fresh_for_all. intros [i organization] s9.
    apply adds_fresh_bind; [apply adds_fresh_update_org|]. intros _ s10.
    by apply adds_fresh_do. }
  destruct H as (new & H1 & H2 & H3 & _). eauto.
Qed.


Lemma peeringdb_run_unfold (s : crawler) :
  let s2 := Crawler (orgid2qid s)
              (calls s ++ [Message "Fetching PeeringDB data..."; HttpGet URL_PDB_ORGS]) in
  let s3 := Crawler (orgid2qid s)
              (calls s ++ [Message "Fetching PeeringDB data..."; HttpGet URL_PDB_ORGS;
                           Login]) in
  run' s
  = match answer_orgs with
    | Failed e => (inl (Builtin e), s2)
    | Answered req =>
        if (status req =? 200)%Z then
          match json_doc req with
          | None => (inl (Builtin JSONDecodeError), s2)
          | Some doc =>
              match getitem_str doc "data" with
              | inl e => (inl (Builtin e), s2)
              | inr organizations =>
                  match py_iter organizations with
                  | inl e => (inl (Builtin e), s3)
                  | inr orgs =>
                      for_all (enumerate orgs)
                        (fun '(i, organization) =>
                           update_org' organization ;;
                           do (Progress (i + 1) (py_len organizations))) s3
                  end
              end
          end
        else (inl SystemExit, s2)
    end.
Proof.
  intros s2 s3. subst s2 s3. unfold run.
  do 2 (rewrite stmt_bind_run; cbn [do orgid2qid calls]).
  rewrite <- app_assoc. cbn [app]. rewrite stmt_bind_run.
  destruct answer_orgs as [e|req]; [reflexivity|]. cbn [request eval].
  unfold mret at 1, Stmt_ret at 1. rewrite stmt_bind_run.
  destruct (status req =? 200)%Z; [|reflexivity]. cbn [negb].
  unfold mret at 1, Stmt_ret at 1. rewrite stmt_bind_run. unfold reply_json.
  destruct (json_doc req) as [doc|]; [|reflexivity]. cbn [eval].
  unfold mret at 1, Stmt_ret at 1. rewrite stmt_bind_run.
  destruct (getitem_str doc "data") as [e|organizations]; [reflexivity|]. cbn [eval].
  unfold mret at 1, Stmt_ret at 1.
  do 2 (rewrite stmt_bind_run; cbn [do orgid2qid calls]).
  rewrite <- app_assoc. cbn [app].
  destruct (py_iter organizations) as [e|orgs]; reflexivity.
Qed.

Lemma for_all_app {St A} (l1 l2 : list A) (body : A -> Stmt St unit) (s : St) :
  for_all (l1 ++ l2) body s
  = match for_all l1 body s with
    | (inr _, s1) => for_all l2 body s1
    | (inl e, s1) => (inl e, s1)
    end.
Proof.
  revert s. induction l1 as [|x l1 IH]; intros s; [reflexivity|].
  cbn [app for_all]. rewrite !stmt_bind_run.
  destruct (body x s) as [[e|[]] s1]; [reflexivity|]. apply IH.
Qed.

Lemma update_org_complete (organization : json) (s : crawler) :
  complete organization ->
  exists q s' before,
    update_org' organization s = (inr q, s') /\
    (exists c, updates s' str organization c /\ calls s' = calls s ++ before ++ [c]) /\
    List.filter is_upsert before = [] /\
    (forall k v, orgid2qid s !! k = Some v -> orgid2qid s' !! k = Some v).
Proof.
  intros Hc.
  apply (update_org_returns_iff get_pid get_qid add_item_qid reference str strip
           countries_by_alpha2 organization s) in Hc as (q & s' & Hu).
  pose proof (update_org_cases get_pid get_qid add_item_qid reference str strip
                countries_by_alpha2 organization s) as H.
  rewrite Hu in H. destruct H as (s1 & statements & Ho & ->).
  apply org_qid_result in Ho as (id & Hid & Hq & Hother & Hknown & Hnew).
  cbn [orgid2qid calls].
  destruct (orgid2qid s !! str id) as [q0|] eqn:Hs.
  - destruct (Hknown q0 eq_refl) as [-> ->].
    exists q0, (Crawler (orgid2qid s)
                  (calls s ++ [UpsertStatements "update peeringDB organization" q0
                                 statements])), [].
    split; [exact Hu|]. split; [|done].
    eexists. split; [|reflexivity]. by exists id, q0, statements.
  - destruct (Hnew eq_refl) as (_ & label & stm & Hcalls & _).
    exists q, (Crawler (orgid2qid s1)
                 (calls s1 ++ [UpsertStatements "update peeringDB organization" q
                                 statements])),
      [AddItem "add new peeringDB organization" label stm].
    split; [exact Hu|]. split; [|split; [done|]].
    + eexists. split; [by exists id, q, statements|].
      cbn [calls]. by rewrite Hcalls, <- app_assoc.
    + intros k v Hk. cbn [orgid2qid]. rewrite Hother; [done|]. congruence.
Qed.

Lemma update_loop_complete (good : list json) (total : nat) :
  Forall complete good ->
  forall n s, exists s' new,
    for_all (enumerate_from n good)
      (fun '(i, organization) =>
         update_org' organization ;; do (Progress (i + 1) total)) s = (inr tt, s') /\
    calls s' = calls s ++ new /\
    Forall2 (updates s' str) good (List.filter is_upsert new) /\
    (forall k v, orgid2qid s !! k = Some v -> orgid2qid s' !! k = Some v).
Proof.
  induction 1 as [|o good Ho _ IH]; intros n s.
  - exists s, []. rewrite app_nil_r. cbn. eauto using Forall2.
  - destruct (update_org_complete o s Ho) as (q & s1 & before & Hu & (c & Hc & Hcalls) & Hb & Hk).
    destruct (IH (S n) (Crawler (orgid2qid s1) (calls s1 ++ [Progress (n + 1) total])))
      as (s' & new & Hloop & Hnew & Hall & Hkeep).
    exists s', (before ++ [c] ++ [Progress (n + 1) total] ++ new).
    cbn [enumerate_from for_all]. rewrite !stmt_bind_run, Hu.
    split; [exact Hloop|]. cbn [orgid2qid calls] in *.
    split; [rewrite Hnew, Hcalls, <- !app_assoc; reflexivity|].
    split.
    + rewrite !List.filter_app, Hb.
      destruct Hc as (id & q' & stm & Hid & Hq & ->). cbn [List.filter is_upsert app].
      constructor; [|exact Hall].
      exists id, q', stm. split; [done|]. split; [|done]. by apply Hkeep.
    + intros k v Hv. by apply Hkeep, Hk.
Qed.

(** X20. [run] updates the organizations in the order PeeringDB lists
    them and stops at the first one [update_org] cannot take: when the
    answer's organizations are [good ++ rest], every one of [good] is
    complete and the first of [rest] is not, the calls to
    [upsert_statements] are one for each of [good], in order, each on
    the QID that [orgid2qid] holds for the organization in the end, and
    [run] returns exactly when [rest] is empty. *)
Theorem run_updates_until_incomplete
    (req : reply) (doc : json) (good rest : list json) (s : crawler) :
  answer_orgs = Answered req ->
  status req = 200%Z ->
  json_doc req = Some doc ->
  getitem_str doc "data" = inr (JList (good ++ rest)) ->
  Forall complete good ->
  (forall o, head rest = Some o -> ~ complete o) ->
  exists r s' new,
    run get_pid get_qid add_item_qid reference str strip countries_by_alpha2 answer_orgs s
    = (r, s') /\
    calls s' = calls s ++ new /\
    Forall2 (updates s' str) good (List.filter is_upsert new) /\
    (r = inr tt <-> rest = []).
Proof.
  intros Hans Hst Hdoc Hdata Hgood Hrest.
  destruct (update_loop_complete good (length (good ++ rest)) Hgood 0
              (Crawler (orgid2qid s)
                 (calls s ++ [Message "Fetching PeeringDB data..."; HttpGet URL_PDB_ORGS;
                              Login])))
    as (s1 & new & Hloop & Hnew & Hall & _).
  assert (Hrun : run' s
                 = for_all (enumerate (good ++ rest))
                     (fun '(i, organization) =>
                        update_org' organization ;;
                        do (Progress (i + 1) (length (good ++ rest))))
                     (Crawler (orgid2qid s)
                        (calls s ++ [Message "Fetching PeeringDB data...";
                                     HttpGet URL_PDB_ORGS; Login]))).
  { rewrite peeringdb_run_unfold, Hans, Hst, Hdoc, Hdata. reflexivity. }
  rewrite Hrun. unfold enumerate. rewrite enumerate_from_app, for_all_app.
  rewrite Hloop.
  destruct rest as [|bad rest].
  - exists (inr tt), s1, ([Message "Fetching PeeringDB data..."; HttpGet URL_PDB_ORGS; Login]
                          ++ new).
    split; [reflexivity|]. cbn [calls] in Hnew. rewrite Hnew, <- app_assoc.
    split; [reflexivity|]. split; [exact Hall|]. done.
  - assert (Hbad : ~ complete bad) by (by apply Hrest).
    pose proof (update_org_cases get_pid get_qid add_item_qid reference str strip
                  countries_by_alpha2 bad s1) as Hc.
    destruct (update_org' bad s1) as [[e|q] s2] eqn:Hu.
    + subst s2.
      exists (inl e), s1, ([Message "Fetching PeeringDB data..."; HttpGet URL_PDB_ORGS; Login]
                           ++ new).
      cbn [enumerate_from for_all]. rewrite !stmt_bind_run.
      rewrite Hu.
      split; [reflexivity|]. cbn [calls] in Hnew. rewrite Hnew, <- app_assoc.
      split; [reflexivity|]. split; [exact Hall|]. split; discriminate.
    + exfalso. apply Hbad.
      apply (update_org_returns_iff get_pid get_qid add_item_qid reference str strip
               countries_by_alpha2 bad s1). eauto.
Qed.

(** X21. [run] logs in to the wikibase only when it has the
    organizations: unless the request to PeeringDB was answered with
    status 200 and a JSON document that has [data], [run] raises after
    the request alone, with no call to the wikibase and [orgid2qid]
    untouched, and it is [SystemExit] when the status is not 200. *)
Theorem run_logs_in_only_with_data (s : crawler) :
  (exists req doc organizations rest,
      answer_orgs = Answered req /\ status req = 200%Z /\ json_doc req = Some doc /\
      getitem_str doc "data" = inr organizations /\
      calls (run get_pid get_qid add_item_qid reference str strip countries_by_alpha2
               answer_orgs s).2
      = calls s ++ Message "Fetching PeeringDB data..." :: HttpGet URL_PDB_ORGS
                   :: Login :: rest)
  \/ (exists e,
        run get_pid get_qid add_item_qid reference str strip countries_by_alpha2
          answer_orgs s
        = (inl e, Crawler (orgid2qid s)
                    (calls s ++ [Message "Fetching PeeringDB data...";
                                 HttpGet URL_PDB_ORGS])) /\
        forall req, answer_orgs = Answered req -> status req <> 200%Z -> e = SystemExit).
Proof.
  rewrite peeringdb_run_unfold.
  destruct answer_orgs as [e|req].
  { right. exists (Builtin e). split; [reflexivity|]. discriminate. }
  destruct (Z.eqb_spec (status req) 200) as [Hst|Hst].
  2: { right. exists SystemExit. split; [reflexivity|]. done. }
  destruct (json_doc req) as [doc|] eqn:Hdoc.
  2: { right. exists (Builtin JSONDecodeError). split; [reflexivity|].
       intros ? [= <-]. done. }
  destruct (getitem_str doc "data") as [e|organizations] eqn:Hdata.
  { right. exists (Builtin e). split; [reflexivity|]. intros ? [= <-]. done. }
  left. exists req, doc, organizations.
  destruct (py_iter organizations) as [e|orgs].
  - exists []. done.
  - match goal with
    | |- context [for_all ?l ?b ?s0] =>
        destruct (adds_fresh_for_all l b
                    ltac:(intros [i organization] s9;
                          apply adds_fresh_bind; [apply adds_fresh_update_org|];
                          intros _ s10; by apply adds_fresh_do) s0)
          as (new & Hnew & _)
    end.
    exists new. repeat split; try done.
    rewrite Hnew. cbn [calls]. rewrite <- app_assoc. reflexivity.
Qed.

End OrgRun.

(** * Cloudflare's top 100 domains *)

Lemma dict_get_dict_set (d : list (string * json)) (k k' : string) (v : json) :
  dict_get (dict_set d k v) k' = if String.eqb k k' then Some v else dict_get d k'.
Proof.
  induction d as [|[k0 v0] d IH]; cbn [dict_set dict_get].
  - by destruct (String.eqb_spec k k').
  - destruct (String.eqb_spec k0 k) as [->|Hne]; cbn [dict_get].
    + by destruct (String.eqb_spec k k').
    + rewrite IH. destruct (String.eqb_spec k0 k') as [->|Hne'].
      * destruct (String.eqb_spec k k'); [congruence|done].
      * done.
Qed.

Lemma dict_get_dict_kwargs (kwargs d : list (string * json)) (k : string) :
  dict_get (dict_kwargs d kwargs) k
  = match dict_get (rev kwargs) k with
    | Some v => Some v
    | None => dict_get d k
    end.
Proof.
  unfold dict_kwargs. revert d.
  induction kwargs as [|[k0 v0] kwargs IH]; intros d; [reflexivity|].
  cbn [fold_left rev fst snd]. rewrite IH, dict_get_dict_set.
  assert (Happ : forall l, dict_get (l ++ [(k0, v0)]) k
                           = match dict_get l k with
                             | Some v => Some v
                             | None => if String.eqb k0 k then Some v0 else None
                             end).
  { induction l as [|[k1 v1] l IHl]; cbn [app dict_get]; [done|].
    by destruct (String.eqb k1 k). }
  rewrite Happ. destruct (dict_get (rev kwargs) k); [done|].
  by destruct (String.eqb k0 k).
Qed.

(** X22. The properties [update] puts on a [RANK] link are the entry's
    rank and the whole reference: every key of [self.reference] has its
    value there, and [rank] is the entry's rank unless the reference
    has a [rank] of its own, which would replace it. *)
Theorem link_properties_are_rank_and_reference
    (reference : list (string * json)) (rank : json) (k : string) :
  NoDup reference.*1 ->
  dict_get (dict_kwargs [("rank", rank)] reference) k
  = match dict_get reference k with
    | Some v => Some v
    | None => if String.eqb "rank" k then Some rank else None
    end.
Proof.
  intros Hnd. rewrite dict_get_dict_kwargs. cbn [dict_get].
  assert (Hrev : forall l : list (string * json),
             NoDup l.*1 -> dict_get (rev l) k = dict_get l k).
  { induction l as [|[k1 v1] l IHl]; [done|].
    rewrite fmap_cons, NoDup_cons. cbn [fst]. intros [Hin Hl].
    cbn [rev dict_get].
    assert (Happ : forall l', dict_get (l' ++ [(k1, v1)]) k
                              = match dict_get l' k with
                                | Some v => Some v
                                | None => if String.eqb k1 k then Some v1 else None
                                end).
    { induction l' as [|[k2 v2] l' IHl']; cbn [app dict_get]; [done|].
      by destruct (String.eqb k2 k). }
    rewrite Happ, IHl by done.
    destruct (String.eqb_spec k1 k) as [->|Hne]; [|by destruct (dict_get l k)].
    assert (dict_get l k = None) as ->; [|done].
    clear -Hin. induction l as [|[k2 v2] l IHl]; [done|].
    cbn [dict_get]. rewrite fmap_cons, not_elem_of_cons in Hin. cbn [fst] in Hin.
    destruct Hin as [Hne Hin]. destruct (String.eqb_spec k2 k); [congruence|]. by apply IHl. }
  rewrite Hrev by done. by destruct (dict_get reference k).
Qed.

Section Top100Facts.

Import CloudflareTop100.

Variable node_id : list call -> json.
Variable reference : list (string * json).
Variable download : json -> answer.

#[local] Abbreviation update' := (update node_id reference).
#[local] Abbreviation run' := (run node_id reference download).

Lemma update_ranked (entry cf : json) (s : crawler) :
  cf_qid s = Some cf ->
  ranked entry ->
  exists name c,
    links reference cf entry c /\
    update' entry s
    = (inr tt, Crawler (Some cf)
                 (calls s ++ [GetNode "DOMAIN_NAME" (JDict [("name", name)]); c])).
Proof.
  intros Hcf [[rank Hrank] [name Hname]].
  exists name. eexists. split.
  - exists rank. eexists. split; [exact Hrank|reflexivity].
  - unfold update. rewrite stmt_bind_run. unfold get_cf_qid at 1. rewrite Hcf, Hrank.
    rewrite eval_inr_bind, Hname, eval_inr_bind, stmt_bind_run.
    cbn [get_node do cf_qid calls]. unfold do. cbn [cf_qid calls].
    rewrite Hcf, <- app_assoc. reflexivity.
Qed.

Lemma update_unranked (entry : json) (s : crawler) :
  ~ ranked entry -> exists e, update' entry s = (inl e, s).
Proof.
  intros Hn. unfold update. rewrite stmt_bind_run. unfold get_cf_qid at 1.
  destruct (cf_qid s) as [cf|]; [|eauto].
  destruct (getitem_str entry "rank") as [e|rank] eqn:Hrank; [rewrite eval_inl_bind; eauto|].
  rewrite eval_inr_bind.
  destruct (getitem_str entry "domain") as [e|name] eqn:Hname; [rewrite eval_inl_bind; eauto|].
  destruct Hn. split; eauto.
Qed.

Lemma update_loop_ranked (good : list json) (cf : json) :
  Forall ranked good ->
  forall n s, cf_qid s = Some cf ->
    exists new,
      for_all (enumerate_from n good)
        (fun '(i, entry) => update' entry ;; do (Progress i)) s
      = (inr tt, Crawler (Some cf) (calls s ++ new)) /\
      Forall2 (links reference cf) good (List.filter is_add_links new).
Proof.
  induction 1 as [|entry good He _ IH]; intros n s Hcf.
  - exists []. rewrite app_nil_r. cbn. destruct s as [c l]. cbn in Hcf. subst c.
    split; [reflexivity|constructor].
  - destruct (update_ranked entry cf s Hcf He) as (name & c & Hc & Hu).
    destruct (IH (S n) (Crawler (Some cf)
                          ((calls s ++ [GetNode "DOMAIN_NAME" (JDict [("name", name)]); c])
                           ++ [Progress n])) eq_refl) as (new & Hloop & Hall).
    exists ([GetNode "DOMAIN_NAME" (JDict [("name", name)]); c] ++ [Progress n] ++ new).
    cbn [enumerate_from for_all]. rewrite !stmt_bind_run, Hu. cbn [do cf_qid calls].
    rewrite Hloop. cbn [calls]. rewrite <- !app_assoc. split; [reflexivity|].
    destruct Hc as (rank & src & Hrank & ->).
    cbn [app List.filter is_add_links]. constructor; [|exact Hall].
    by exists rank, src.
Qed.

Lemma top100_run_unfold (s : crawler) :
  let cf := node_id (calls s) in
  let ranking := GetNode "RANKING" (JDict [("name", JStr "Cloudflare top 100 domains")]) in
  run' s
  = match getitem_str (JDict reference) "reference_url" with
    | inl e => (inl (Builtin e), Crawler (Some cf) (calls s ++ [ranking]))
    | inr url =>
        match download url with
        | Failed e => (inl (Builtin e), Crawler (Some cf) (calls s ++ [ranking; HttpGet url]))
        | Answered req =>
            if (status req =? 200)%Z then
              let s3 := Crawler (Some cf) (calls s ++ [ranking; HttpGet url]) in
              match json_doc req with
              | None => (inl (Builtin JSONDecodeError), s3)
              | Some doc =>
                  match getitem_str doc "result" with
                  | inl e => (inl (Builtin e), s3)
                  | inr result =>
                      match getitem_str result "top" with
                      | inl e => (inl (Builtin e), s3)
                      | inr top =>
                          match py_iter top with
                          | inl e => (inl (Builtin e), s3)
                          | inr entries =>
                              (for_all (enumerate entries)
                                 (fun '(i, entry) => update' entry ;; do (Progress i)) ;;
                               do Newline) s3
                          end
                      end
                  end
              end
            else (inl SystemExit,
                  Crawler (Some cf)
                    (calls s ++ [ranking; HttpGet url; PrintCannotDownload req]))
        end
    end.
Proof.
  intros cf ranking. subst cf ranking. unfold run.
  do 2 (rewrite stmt_bind_run; cbn [get_node set_cf_qid cf_qid calls]).
  rewrite stmt_bind_run.
  destruct (getitem_str (JDict reference) "reference_url") as [e|url]; [reflexivity|].
  cbn [eval]. unfold mret at 1, Stmt_ret at 1.
  rewrite stmt_bind_run; cbn [do cf_qid calls]. rewrite <- app_assoc. cbn [app].
  rewrite stmt_bind_run.
  destruct (download url) as [e|req]; [reflexivity|]. cbn [request eval].
  unfold mret at 1, Stmt_ret at 1. rewrite stmt_bind_run.
  destruct (status req =? 200)%Z; cbn [negb].
  2: { rewrite stmt_bind_run. cbn [do cf_qid calls]. rewrite <- app_assoc. reflexivity. }
  unfold mret at 1, Stmt_ret at 1. rewrite stmt_bind_run. unfold reply_json.
  destruct (json_doc req) as [doc|]; [|reflexivity]. cbn [eval].
  unfold mret at 1, Stmt_ret at 1. rewrite stmt_bind_run.
  destruct (getitem_str doc "result") as [e|result]; [reflexivity|]. cbn [eval].
  unfold mret at 1, Stmt_ret at 1. rewrite stmt_bind_run.
  destruct (getitem_str result "top") as [e|top]; [reflexivity|]. cbn [eval].
  unfold mret at 1, Stmt_ret at 1. rewrite stmt_bind_run.
  destruct (py_iter top) as [e|entries]; reflexivity.
Qed.

(** X23. [run] links the entries of the top list in order and stops at
    the first one [update] cannot take: when the list is
    [good ++ rest], every entry of [good] has a [rank] and a [domain]
    and the first of [rest] lacks one, the calls to [add_links] are one
    for each entry of [good], in order, each to the ranking node that
    [run] created first, with the entry's rank and the reference, and
    [run] returns exactly when [rest] is empty. *)
Theorem top100_links_until_unranked
    (url : json) (req : reply) (doc result : json) (good rest : list json) (s : crawler) :
  getitem_str (JDict reference) "reference_url" = inr url ->
  download url = Answered req ->
  status req = 200%Z ->
  json_doc req = Some doc ->
  getitem_str doc "result" = inr result ->
  getitem_str result "top" = inr (JList (good ++ rest)) ->
  Forall ranked good ->
  (forall entry, head rest = Some entry -> ~ ranked entry) ->
  exists r s' new,
    run node_id reference download s = (r, s') /\
    calls s' = calls s ++ new /\
    Forall2 (links reference (node_id (calls s))) good (List.filter is_add_links new) /\
    (r = inr tt <-> rest = []).
Proof.
  intros Hurl Hdl Hst Hdoc Hres Htop Hgood Hrest.
  rewrite top100_run_unfold, Hurl, Hdl, Hst, Hdoc, Hres, Htop. cbn [Z.eqb Pos.eqb py_iter].
  set (ranking := GetNode "RANKING" (JDict [("name", JStr "Cloudflare top 100 domains")])).
  set (cf := node_id (calls s)).
  destruct (update_loop_ranked good cf Hgood 0
              (Crawler (Some cf) (calls s ++ [ranking; HttpGet url])) eq_refl)
    as (new & Hloop & Hall).
  rewrite stmt_bind_run. unfold enumerate. rewrite enumerate_from_app, for_all_app, Hloop.
  cbn [calls] in *.
  destruct rest as [|bad rest].
  - exists (inr tt), (Crawler (Some cf) (((calls s ++ [ranking; HttpGet url]) ++ new) ++ [Newline])),
      ([ranking; HttpGet url] ++ new ++ [Newline]).
    split; [reflexivity|]. cbn [calls]. split; [by rewrite <- !app_assoc|].
    split; [|done].
    cbn [app List.filter is_add_links]. rewrite List.filter_app. cbn. by rewrite app_nil_r.
  - destruct (update_unranked bad (Crawler (Some cf) ((calls s ++ [ranking; HttpGet url]) ++ new)))
      as [e Hu]; [by apply Hrest|].
    exists (inl e), (Crawler (Some cf) ((calls s ++ [ranking; HttpGet url]) ++ new)),
      ([ranking; HttpGet url] ++ new).
    cbn [enumerate_from for_all]. rewrite !stmt_bind_run, Hu.
    split; [reflexivity|]. cbn [calls]. split; [by rewrite <- !app_assoc|].
    split; [exact Hall|]. split; discriminate.
Qed.

(** X24. [run] creates the ranking node before it asks for the list,
    and without the list it links nothing: unless the request is
    answered with status 200 and a JSON document that has
    [result.top], [run] raises having made, after [get_node] for the
    ranking, at most the request and the message that it failed, and
    it is [SystemExit] when the status is not 200. *)
Theorem top100_links_only_with_data (s : crawler) :
  (exists url req doc result top,
      getitem_str (JDict reference) "reference_url" = inr url /\
      download url = Answered req /\ status req = 200%Z /\ json_doc req = Some doc /\
      getitem_str doc "result" = inr result /\ getitem_str result "top" = inr top)
  \/ (exists e rest,
        run node_id reference download s
        = (inl e, Crawler (Some (node_id (calls s)))
                    (calls s ++ GetNode "RANKING"
                                  (JDict [("name", JStr "Cloudflare top 100 domains")])
                                :: rest)) /\
        Forall (fun c => match c with
                         | HttpGet _ | PrintCannotDownload _ => True
                         | _ => False
                         end) rest /\
        forall url req,
          getitem_str (JDict reference) "reference_url" = inr url ->
          download url = Answered req -> status req <> 200%Z -> e = SystemExit).
Proof.
  rewrite top100_run_unfold.
  destruct (getitem_str (JDict reference) "reference_url") as [e|url] eqn:Hurl.
  { right. exists (Builtin e), []. split; [reflexivity|]. split; [constructor|]. discriminate. }
  destruct (download url) as [e|req] eqn:Hdl.
  { right. exists (Builtin e), [HttpGet url]. split; [reflexivity|].
    split; [by repeat constructor|]. intros ? ? [= <-]. congruence. }
  destruct (Z.eqb_spec (status req) 200) as [Hst|Hst].
  2: { right. exists SystemExit, [HttpGet url; PrintCannotDownload req].
       split; [reflexivity|]. split; [by repeat constructor|]. done. }
  destruct (json_doc req) as [doc|] eqn:Hdoc.
  2: { right. exists (Builtin JSONDecodeError), [HttpGet url]. split; [reflexivity|].
       split; [by repeat constructor|]. intros ? ? [= <-] ? ?. congruence. }
  destruct (getitem_str doc "result") as [e|result] eqn:Hres.
  { right. exists (Builtin e), [HttpGet url]. split; [reflexivity|].
    split; [by repeat constructor|]. intros ? ? [= <-] ? ?. congruence. }
  destruct (getitem_str result "top") as [e|top] eqn:Htop.
  { right. exists (Builtin e), [HttpGet url]. split; [reflexivity|].
    split; [by repeat constructor|]. intros ? ? [= <-] ? ?. congruence. }
  left. exists url, req, doc, result, top. done.
Qed.

End Top100Facts.

(** * Cloudflare's ranking buckets *)

Lemma rel_bind {St A B} (R : St -> St -> Prop) (m : Stmt St A) (f : A -> Stmt St B) (s : St) :
  (forall s1 s2 s3, R s1 s2 -> R s2 s3 -> R s1 s3) ->
  R s (m s).2 ->
  (forall a s1, R s1 (f a s1).2) ->
  R s ((m ≫= f) s).2.
Proof.
  intros Htrans Hm Hf. rewrite stmt_bind_run.
  destruct (m s) as [[e|a] s1]; [exact Hm|].
  eapply Htrans; [exact Hm|apply Hf].
Qed.

Lemma rel_for_all {St A} (R : St -> St -> Prop) (l : list A) (body : A -> Stmt St unit) :
  (forall s, R s s) ->
  (forall s1 s2 s3, R s1 s2 -> R s2 s3 -> R s1 s3) ->
  (forall x s, R s (body x s).2) ->
  forall s, R s (for_all l body s).2.
Proof.
  intros Hrefl Htrans Hb. induction l as [|x l IH]; intros s; [apply Hrefl|].
  cbn [for_all]. apply rel_bind; [done|apply Hb|]. intros _ s1. apply IH.
Qed.

Lemma rel_eval {St A} (R : St -> St -> Prop) (r : exn + A) (s : St) :
  (forall s, R s s) -> R s (eval r s).2.
Proof. intros Hrefl. destruct r; apply Hrefl. Qed.

Section BucketFacts.

Import CloudflareRankingBucket.

Variable strptime_date : string -> option datetime.
Variable str : json -> string.
Variable answer_datasets : answer.
Variable answer_post : json -> answer.
Variable answer_get : json -> answer.
Variable node_ids : list call -> gset string -> gmap string json.
Variable node_id : list call -> json.

#[local] Abbreviation fetch_dataset' := (fetch_dataset strptime_date answer_post answer_get).
#[local] Abbreviation fetch_datasets' := (fetch_datasets strptime_date answer_post answer_get).
#[local] Abbreviation rank_dataset' := (rank_dataset str node_id).
#[local] Abbreviation run' :=
  (run strptime_date str answer_datasets answer_post answer_get node_ids node_id).

Lemma target_date_raises (dataset : json) (e : exn) :
  target_date strptime_date dataset = inl e ->
  e = KeyError \/ e = TypeError \/ e = ValueError.
Proof.
  unfold target_date. cbv [mbind sum_bind].
  assert (Hget : forall v k e', getitem_str v k = inl e' -> e' = KeyError \/ e' = TypeError).
  { intros v k e' H. unfold getitem_str in H.
    destruct v; try (injection H as <-; by right).
    destruct (dict_get d k); [discriminate|]. injection H as <-. by left. }
  destruct (getitem_str dataset "meta") as [e1|meta] eqn:H1.
  { intros [= <-]. destruct (Hget _ _ _ H1); auto. }
  destruct (getitem_str meta "targetDateEnd") as [e2|date_str] eqn:H2.
  { intros [= <-]. destruct (Hget _ _ _ H2); auto. }
  unfold datetime_strptime.
  destruct date_str; try (intros [= <-]; auto).
  destruct (strptime_date s); [discriminate|]. intros [= <-]. auto.
Qed.

Lemma bucket_time_stamp_cases (dataset : json) (s : crawler) :
  exists s',
    set_modification_time strptime_date dataset s = (inr tt, s') /\
    match reference_time s, target_date strptime_date dataset with
    | Some _, _ => s' = s
    | None, inr date => s' = Crawler (Some date) (calls s)
    | None, inl e => s' = Crawler None (calls s ++ [LogWarning e])
    end.
Proof.
  unfold set_modification_time. rewrite stmt_bind_run. unfold get_reference_time at 1.
  destruct (reference_time s) as [d|] eqn:Hs; [by exists s|].
  destruct (target_date strptime_date dataset) as [e|date] eqn:Ht.
  - destruct (target_date_raises dataset e Ht) as [-> | [-> | ->]];
      (eexists; split; [reflexivity|]; cbn; by rewrite Hs).
  - eexists. split; reflexivity.
Qed.

(** X25. The time-stamp block of the ranking buckets cannot fail:
    whatever the dataset, it returns; a reference time that is set
    stays, an unset one becomes the parsed [targetDateEnd] of the
    dataset, and when that is missing or does not parse a warning is
    logged and the time stays unset. *)
Theorem bucket_time_stamp_never_raises (dataset : json) (s : crawler) :
  exists s',
    set_modification_time strptime_date dataset s = (inr tt, s') /\
    match reference_time s, target_date strptime_date dataset with
    | Some _, _ => s' = s
    | None, inr date => s' = Crawler (Some date) (calls s)
    | None, inl e => s' = Crawler None (calls s ++ [LogWarning e])
    end.
Proof. apply bucket_time_stamp_cases. Qed.


Lemma only_refl (P : call -> Prop) (s : crawler) : only P s s.
Proof. exists []. by rewrite app_nil_r. Qed.

Lemma only_trans (P : call -> Prop) (s1 s2 s3 : crawler) :
  only P s1 s2 -> only P s2 s3 -> only P s1 s3.
Proof.
  intros (n1 & H1 & F1) (n2 & H2 & F2). exists (n1 ++ n2).
  rewrite H2, H1, <- app_assoc. split; [done|]. by apply Forall_app.
Qed.

Lemma only_do (P : call -> Prop) (c : call) (s : crawler) : P c -> only P s (do c s).2.
Proof. intros Hc. exists [c]. split; [done|]. by constructor. Qed.

Lemma writes_refl (s : crawler) : writes s s.
Proof. split; [done|apply only_refl]. Qed.

Lemma writes_trans (s1 s2 s3 : crawler) : writes s1 s2 -> writes s2 s3 -> writes s1 s3.
Proof.
  intros [T1 O1] [T2 O2]. split; [congruence|].
  rewrite T1 in O2. by eapply only_trans.
Qed.

Lemma writes_do (c : call) (s : crawler) :
  is_request c = false -> well_linked (reference_time s) c -> writes s (do c s).2.
Proof. intros H1 H2. split; [done|]. by apply only_do. Qed.

Lemma keeps_time_refl (s : crawler) : keeps_time s s.
Proof. by intros d. Qed.

Lemma keeps_time_trans (s1 s2 s3 : crawler) :
  keeps_time s1 s2 -> keeps_time s2 s3 -> keeps_time s1 s3.
Proof. intros H1 H2 d Hd. by apply H2, H1. Qed.

Lemma keeps_time_do (c : call) (s : crawler) : keeps_time s (do c s).2.
Proof. by intros d. Qed.

(** While fetching: no call to IYP, and a reference time that is set stays. *)
#[local] Abbreviation fetching :=
  (fun s s' => only (fun c => is_iyp c = false) s s' /\ keeps_time s s').

Lemma fetching_refl (s : crawler) : fetching s s.
Proof. split; [apply only_refl|apply keeps_time_refl]. Qed.

Lemma fetching_trans (s1 s2 s3 : crawler) : fetching s1 s2 -> fetching s2 s3 -> fetching s1 s3.
Proof.
  intros [O1 K1] [O2 K2]. split; [by eapply only_trans|by eapply keeps_time_trans].
Qed.

Lemma fetching_do (c : call) (s : crawler) : is_iyp c = false -> fetching s (do c s).2.
Proof. intros Hc. split; [by apply only_do|apply keeps_time_do]. Qed.

Lemma fetching_set_modification_time (dataset : json) (s : crawler) :
  fetching s (set_modification_time strptime_date dataset s).2.
Proof.
  destruct (bucket_time_stamp_cases dataset s) as (s' & -> & Hs'). cbn [snd].
  destruct (reference_time s) as [d|] eqn:Hs.
  - subst s'. apply fetching_refl.
  - destruct (target_date strptime_date dataset) as [e|date]; subst s'.
    + split; [by exists [LogWarning e]; split; [|repeat constructor]|].
      intros d. cbn. by rewrite Hs.
    + split; [by exists []; cbn; rewrite app_nil_r|]. intros d. by rewrite Hs.
Qed.

Lemma fetching_fetch_dataset (dataset : json) (s : crawler) :
  fetching s (fetch_dataset' dataset s).2.
Proof.
  pose proof fetching_trans as Ht. pose proof fetching_refl as Hr.
  unfold fetch_dataset.
  apply rel_bind; [done|apply fetching_set_modification_time|]. intros _ s1.
  apply rel_bind; [done|by apply rel_eval|]. intros id s2.
  apply rel_bind; [done|by apply fetching_do|]. intros _ s3.
  apply rel_bind; [done|by apply rel_eval|]. intros req s4.
  destruct (negb _).
  { apply rel_bind; [done|by apply rel_eval|]. intros id' s5.
    apply rel_bind; [done|by apply fetching_do|]. intros _ s6. apply Hr. }
  apply rel_bind; [done|by apply rel_eval|]. intros info s5.
  apply rel_bind; [done|by apply fetching_do|]. intros _ s6.
  apply rel_bind; [done|by apply rel_eval|]. intros doc s7.
  apply rel_bind; [done|by apply rel_eval|]. intros result s8.
  apply rel_bind; [done|by apply rel_eval|]. intros described s9.
  apply rel_bind; [done|by apply rel_eval|]. intros url s10.
  apply rel_bind; [done|by apply rel_eval|]. intros dataset' s11.
  apply rel_bind; [done|by apply rel_eval|]. intros url' s12.
  apply rel_bind; [done|by apply fetching_do|]. intros _ s13.
  apply rel_bind; [done|by apply rel_eval|]. intros req' s14.
  destruct (negb _); [|apply Hr].
  apply rel_bind; [done|by apply rel_eval|]. intros id' s15.
  apply rel_bind; [done|by apply fetching_do|]. intros _ s16. apply Hr.
Qed.

Lemma fetching_fetch_datasets (l : list json) :
  forall datasets all_domains s, fetching s (fetch_datasets' l datasets all_domains s).2.
Proof.
  induction l as [|dataset l IH]; intros datasets all_domains s; [apply fetching_refl|].
  cbn [fetch_datasets].
  apply rel_bind; [apply fetching_trans|apply fetching_fetch_dataset|].
  intros [[dataset' domains]|] s1; apply IH.
Qed.

Lemma mapM_links (domain_ids : gmap string json) (ranking_id : json) (l : list string)
    (links : list (json * json)) :
  mapM (fun domain => src_id ← domain_id domain_ids domain; mret (src_id, ranking_id)) l
  = inr links ->
  Forall2 (fun domain link => domain_ids !! domain = Some link.1 /\ link.2 = ranking_id)
    l links.
Proof.
  revert links. induction l as [|domain l IH]; intros links; cbn [mapM].
  - intros [= <-]. constructor.
  - cbv [mbind sum_bind mret sum_ret domain_id] in *.
    destruct (domain_ids !! domain) as [id|] eqn:Hid; [|discriminate].
    destruct (mapM _ l) as [e|rest] eqn:Hrest; [discriminate|].
    intros [= <-]. constructor; [done|]. by apply IH.
Qed.

Lemma writes_rank_dataset (domain_ids : gmap string json) (item : json * gset string)
    (s : crawler) :
  writes s (rank_dataset' domain_ids item s).2.
Proof.
  pose proof writes_trans as Ht. pose proof writes_refl as Hr.
  destruct item as [dataset domains]. unfold rank_dataset.
  apply rel_bind; [done|by apply rel_eval|]. intros title s1.
  apply rel_bind; [done|by apply writes_do|]. intros _ s2.
  apply rel_bind; [done|by apply rel_eval|]. intros description s3.
  apply rel_bind; [done|by apply rel_eval|]. intros meta s4.
  apply rel_bind; [done|by apply rel_eval|]. intros top s5.
  apply rel_bind; [done| |].
  { split; [done|]. eexists [_]. split; [done|]. by repeat constructor. }
  intros ranking_id s6.
  rewrite stmt_bind_run.
  destruct (mapM _ (elements domains)) as [e|links] eqn:Hlinks; [apply Hr|].
  apply mapM_links in Hlinks. cbn [eval]. unfold mret at 1, Stmt_ret at 1.
  destruct links as [|link links]; [apply Hr|].
  split; [done|]. eexists [_]. split; [done|].
  repeat constructor; [done|]. exists ranking_id.
  clear -Hlinks. induction Hlinks as [|? ? ? ? [_ H] _ IH]; by constructor.
Qed.

Lemma fetches_then_writes_run (s : crawler) :
  fetches_then_writes s (run' s).2 /\ keeps_time s (run' s).2.
Proof.
  set (R := fun s s' : crawler => fetches_then_writes s s' /\ keeps_time s s').
  assert (Hleft : forall s1 s2 s3, fetching s1 s2 -> R s2 s3 -> R s1 s3).
  { intros s1 s2 s3 [(n & Hn & Fn) K1] [(f & w & Hc & Ff & Fw) K2]. split.
    - exists (n ++ f), w. rewrite Hc, Hn, <- !app_assoc. split; [done|].
      split; [by apply Forall_app|done].
    - by eapply keeps_time_trans. }
  assert (Hfetch : forall s1 s2, fetching s1 s2 -> R s1 s2).
  { intros s1 s2 [(n & Hn & Fn) K]. split; [|done].
    exists n, []. rewrite app_nil_r. split; [done|]. split; [done|constructor]. }
  assert (Hwrite : forall s1 s2, writes s1 s2 -> R s1 s2).
  { intros s1 s2 [T (n & Hn & Fn)]. split.
    - exists [], n. split; [done|]. split; [constructor|]. by rewrite T.
    - intros d Hd. congruence. }
  assert (Hbind : forall A B (m : Stmt crawler A) (f : A -> Stmt crawler B) s0,
             fetching s0 (m s0).2 -> (forall a s1, R s1 (f a s1).2) ->
             R s0 ((m ≫= f) s0).2).
  { intros A B m f s0 Hm Hf. rewrite stmt_bind_run.
    destruct (m s0) as [[e|a] s1]; [by apply Hfetch|].
    eapply Hleft; [exact Hm|apply Hf]. }
  pose proof fetching_refl as Hr.
  change (R s (run' s).2). unfold run.
  apply Hbind; [by apply fetching_do|]. intros _ s1.
  apply Hbind; [by apply fetching_do|]. intros _ s2.
  apply Hbind; [by apply rel_eval|]. intros req s3.
  apply Hbind; [unfold raise_for_status; destruct (_ && _); apply Hr|]. intros _ s4.
  apply Hbind; [by apply rel_eval|]. intros datasets_json s5.
  apply Hbind; [by apply rel_eval|]. intros has_success s6.
  apply Hbind.
  { destruct (negb has_success); [apply Hr|].
    apply rel_bind; [apply fetching_trans|by apply rel_eval|]. intros success s7. apply Hr. }
  intros failed s7.
  apply Hbind.
  { destruct failed; [|apply Hr].
    apply rel_bind; [apply fetching_trans|by apply fetching_do|]. intros _ s8. apply Hr. }
  intros _ s8.
  apply Hbind; [by apply rel_eval|]. intros result s9.
  apply Hbind; [by apply rel_eval|]. intros listed s10.
  apply Hbind; [by apply rel_eval|]. intros listed' s11.
  apply Hbind; [apply fetching_fetch_datasets|]. intros [datasets all_domains] s12.
  apply Hwrite.
  apply rel_bind; [apply writes_trans| |].
  { split; [done|]. eexists [_]. split; [done|]. by repeat constructor. }
  intros domain_ids s13.
  apply rel_for_all; [apply writes_refl|apply writes_trans|].
  intros item s14. apply writes_rank_dataset.
Qed.

(** X26. The ranking buckets are all fetched before anything goes to
    IYP: the calls of a run, whether it returns or raises, are first
    the requests and their log lines, with no call to IYP among them,
    and then the calls to IYP, with no request among them; no request
    is made once IYP has been called. *)
Theorem bucket_fetches_all_before_writing (s : crawler) :
  exists fetched written,
    calls (run strptime_date str answer_datasets answer_post answer_get node_ids node_id s).2
    = calls s ++ fetched ++ written /\
    Forall (fun c => is_iyp c = false) fetched /\
    Forall (fun c => is_request c = false) written.
Proof.
  destruct (fetches_then_writes_run s) as [(f & w & Hc & Ff & Fw) _].
  exists f, w. split; [done|]. split; [done|].
  eapply Forall_impl; [exact Fw|]. by intros c [H _].
Qed.

(** X27. Every batch of links a run pushes is of type [RANK], is not
    empty, leads to a single ranking node, and carries the reference
    with the modification time the crawler has when the run ends: the
    links of all datasets share one reference. *)
Theorem bucket_links_share_the_reference
    (s : crawler) (type : string) (links : list (json * json)) (rt : option datetime) :
  let s' := (run strptime_date str answer_datasets answer_post answer_get node_ids node_id s).2 in
  forall new,
    calls s' = calls s ++ new ->
    BatchAddLinks type links rt ∈ new ->
    type = "RANK" /\ links <> [] /\
    (exists dst_id, Forall (fun link => link.2 = dst_id) links) /\
    rt = reference_time s'.
Proof.
  intros s' new Hnew Hin.
  destruct (fetches_then_writes_run s) as [(f & w & Hc & Ff & Fw) _].
  fold s' in Hc, Fw. rewrite Hc in Hnew. apply app_inv_head in Hnew. subst new.
  apply elem_of_app in Hin as [Hin|Hin].
  - rewrite Forall_forall in Ff. by apply Ff in Hin.
  - rewrite Forall_forall in Fw. apply Fw in Hin as [_ Hin]. exact Hin.
Qed.



Lemma bucket_run_unfold (s : crawler) :
  let s2 := Crawler (reference_time s) (calls s ++ [LogFetching; SessionGet URL_DATASETS]) in
  run' s
  = match answer_datasets with
    | Failed e => (inl (Builtin e), s2)
    | Answered req =>
        if ((400 <=? status req) && (status req <? 600))%Z
        then (inl (Builtin HTTPError), s2)
        else
          match json_doc req with
          | None => (inl (Builtin JSONDecodeError), s2)
          | Some doc =>
              match contains doc "success" with
              | inl e => (inl (Builtin e), s2)
              | inr has_success =>
                  match (if has_success then getitem_str doc "success" else inr JNull) with
                  | inl e => (inl (Builtin e), s2)
                  | inr success =>
                      if truthy success then
                        (result ← eval (getitem_str doc "result");
                         listed ← eval (getitem_str result "datasets");
                         listed ← eval (py_iter listed);
                         '(datasets, all_domains) ← fetch_datasets' listed [] ∅;
                         domain_ids ← batch_get_nodes node_ids "DomainName" "name" all_domains;
                         for_all datasets (rank_dataset' domain_ids)) s2
                      else
                        (inl IypJSONDecodeError,
                         Crawler (reference_time s)
                           (calls s ++ [LogFetching; SessionGet URL_DATASETS; LogApiError req]))
                  end
              end
          end
    end.
Proof.
  intros s2. subst s2. unfold run.
  do 2 (rewrite stmt_bind_run; cbn [do reference_time calls]).
  rewrite <- app_assoc. cbn [app]. rewrite stmt_bind_run.
  destruct answer_datasets as [e|req]; [reflexivity|]. cbn [request eval].
  unfold mret at 1, Stmt_ret at 1. rewrite stmt_bind_run. unfold raise_for_status.
  destruct ((400 <=? status req) && (status req <? 600))%Z; [reflexivity|].
  unfold mret at 1, Stmt_ret at 1. rewrite stmt_bind_run. unfold reply_json.
  destruct (json_doc req) as [doc|]; [|reflexivity]. cbn [eval].
  unfold mret at 1, Stmt_ret at 1. rewrite stmt_bind_run.
  destruct (contains doc "success") as [e|has_success]; [reflexivity|]. cbn [eval].
  unfold mret at 1, Stmt_ret at 1. rewrite stmt_bind_run.
  destruct has_success; cbn [negb].
  - rewrite stmt_bind_run.
    destruct (getitem_str doc "success") as [e|success]; [reflexivity|]. cbn [eval].
    unfold mret at 1 2, Stmt_ret at 1 2. rewrite stmt_bind_run.
    destruct (truthy success); cbn [negb].
    + reflexivity.
    + rewrite stmt_bind_run. cbn [do reference_time calls]. rewrite <- app_assoc. reflexivity.
  - unfold mret at 1, Stmt_ret at 1. rewrite stmt_bind_run. cbn [truthy].
    rewrite stmt_bind_run. cbn [do reference_time calls]. rewrite <- app_assoc. reflexivity.
Qed.

(** X29. Nothing is fetched before the list of datasets is validated:
    unless the first request is answered with a status outside 400-599
    and a JSON document whose [success] is true, [run] raises after
    that request alone, [HTTPError] for a status in 400-599 and
    [iyp]'s [JSONDecodeError], after an error line, for a document
    without a true [success]; no dataset is asked for and nothing goes
    to IYP. *)
Theorem bucket_validates_before_fetching (s : crawler) :
  (exists req doc success,
      answer_datasets = Answered req /\
      ((400 <=? status req) && (status req <? 600))%Z = false /\
      json_doc req = Some doc /\
      getitem_str doc "success" = inr success /\ truthy success = true)
  \/ (exists e rest,
        run strptime_date str answer_datasets answer_post answer_get node_ids node_id s
        = (inl e, Crawler (reference_time s)
                    (calls s ++ LogFetching :: SessionGet URL_DATASETS :: rest)) /\
        (rest = [] \/ exists req, rest = [LogApiError req] /\ e = IypJSONDecodeError) /\
        (forall req, answer_datasets = Answered req ->
                     ((400 <=? status req) && (status req <? 600))%Z = true ->
                     e = Builtin HTTPError) /\
        (forall req d, answer_datasets = Answered req ->
                       ((400 <=? status req) && (status req <? 600))%Z = false ->
                       json_doc req = Some (JDict d) ->
                       (forall success, dict_get d "success" = Some success ->
                                        truthy success = false) ->
                       e = IypJSONDecodeError)).
Proof.
  rewrite bucket_run_unfold.
  destruct answer_datasets as [e|req].
  { right. exists (Builtin e), []. split; [reflexivity|]. split; [by left|].
    split; discriminate. }
  destruct ((400 <=? status req) && (status req <? 600))%Z eqn:Hst.
  { right. exists (Builtin HTTPError), []. split; [reflexivity|]. split; [by left|].
    split; [done|]. intros req0 d [= <-] H. congruence. }
  assert (Hhttp : forall e0 req0,
             Answered req = Answered req0 ->
             ((400 <=? status req0) && (status req0 <? 600))%Z = true -> e0 = Builtin HTTPError).
  { intros e0 req0 [= <-] H. congruence. }
  destruct (json_doc req) as [doc|] eqn:Hdoc.
  2: { right. exists (Builtin JSONDecodeError), []. split; [reflexivity|]. split; [by left|].
       split; [apply Hhttp|]. intros req0 d [= <-] _ H. congruence. }
  destruct (contains doc "success") as [e|has_success] eqn:Hhas.
  { right. exists (Builtin e), []. split; [reflexivity|]. split; [by left|].
    split; [apply Hhttp|]. intros req0 d [= <-] _ H _.
    rewrite Hdoc in H. injection H as ->. discriminate. }
  destruct has_success.
  - destruct (getitem_str doc "success") as [e|success] eqn:Hsuccess.
    { right. exists (Builtin e), []. split; [reflexivity|]. split; [by left|].
      split; [apply Hhttp|]. intros req0 d [= <-] _ H _.
      rewrite Hdoc in H. injection H as ->.
      cbn in Hhas, Hsuccess. destruct (dict_get d "success"); discriminate. }
    destruct (truthy success) eqn:Htruthy.
    + left. by exists req, doc, success.
    + right. exists IypJSONDecodeError, [LogApiError req]. split; [reflexivity|].
      split; [right; eauto|]. split; [apply Hhttp|done].
  - cbn [truthy]. right. exists IypJSONDecodeError, [LogApiError req]. split; [reflexivity|].
    split; [right; eauto|]. split; [apply Hhttp|done].
Qed.


Lemma getitem_setitem_str (v x v' : json) (k : string) :
  setitem_str v k x = inr v' -> getitem_str v' k = inr x.
Proof.
  destruct v; try discriminate. intros [= <-]. cbn [getitem_str].
  by rewrite dict_get_dict_set, String.eqb_refl.
Qed.

Lemma setitem_str_dict (v x : json) (k k' : string) (y : json) :
  getitem_str v k' = inr y -> exists v', setitem_str v k x = inr v'.
Proof. destruct v; try discriminate. intros _. by eexists. Qed.

(** X30. A dataset is skipped, not fatal, exactly when one of its two
    requests is answered with a status other than 200: the body of
    the loop ends in [continue] if and only if the dataset has an [id]
    and either the request for its URL is answered with another
    status, or that request is answered with 200 and a document that
    has [result.dataset.url] and the download of this URL is answered
    with another status. A request that raises or an answer without
    the URL is not a skip: it ends the run. *)
Theorem bucket_skips_exactly_on_status (dataset : json) (s : crawler) :
  (exists s', fetch_dataset strptime_date answer_post answer_get dataset s = (inr None, s'))
  <->
  (exists id req,
      getitem_str dataset "id" = inr id /\
      answer_post id = Answered req /\
      (status req <> 200%Z \/
       exists doc result described url req',
         status req = 200%Z /\
         json_doc req = Some doc /\
         getitem_str doc "result" = inr result /\
         getitem_str result "dataset" = inr described /\
         getitem_str described "url" = inr url /\
         answer_get url = Answered req' /\
         status req' <> 200%Z)).
Proof.
  unfold fetch_dataset. rewrite stmt_bind_run.
  destruct (bucket_time_stamp_cases dataset s) as (s1 & -> & _).
  destruct (getitem_str dataset "id") as [e|id] eqn:Hid.
  { rewrite eval_inl_bind. split; [intros [s' H]; discriminate|].
    intros (id & req & H & _). discriminate. }
  rewrite eval_inr_bind, stmt_bind_run. cbn [do]. rewrite stmt_bind_run.
  destruct (answer_post id) as [e|req] eqn:Hpost; cbn [request eval].
  { split; [intros [s' H]; discriminate|].
    intros (id0 & req & [= <-] & H & _). congruence. }
  unfold mret at 1, Stmt_ret at 1.
  destruct (Z.eqb_spec (status req) 200) as [Hst|Hst]; cbn [negb].
  2: { rewrite ret_bind, stmt_bind_run. cbn [do].
       split; [|intros _; by eexists].
       intros _. exists id, req. split; [done|]. split; [done|]. by left. }
  assert (Hright : forall P : Prop,
    (forall doc result described url req',
        json_doc req = Some doc -> getitem_str doc "result" = inr result ->
        getitem_str result "dataset" = inr described ->
        getitem_str described "url" = inr url ->
        answer_get url = Answered req' -> status req' <> 200%Z -> P) ->
    (exists id0 req0,
        @inr exn json id = inr id0 /\ answer_post id0 = Answered req0 /\
        (status req0 <> 200%Z \/
         exists doc result described url req',
           status req0 = 200%Z /\ json_doc req0 = Some doc /\
           getitem_str doc "result" = inr result /\
           getitem_str result "dataset" = inr described /\
           getitem_str described "url" = inr url /\
           answer_get url = Answered req' /\ status req' <> 200%Z)) -> P).
  { intros P HP (id0 & req0 & [= <-] & Hp & Hcase).
    assert (req0 = req) as -> by congruence.
    destruct Hcase as [Hne|(doc & result & described & url & req' & _ & H)]; [done|].
    destruct H as (H1 & H2 & H3 & H4 & H5 & H6). eauto. }
  rewrite stmt_bind_run. unfold reply_json.
  destruct (json_doc req) as [doc|] eqn:Hdoc; cbn [eval].
  2: { split; [intros [s' H]; discriminate|]. apply Hright. intros. congruence. }
  unfold mret at 1, Stmt_ret at 1. rewrite stmt_bind_run. cbn [do].
  rewrite stmt_bind_run. cbn [eval]. unfold mret at 1, Stmt_ret at 1.
  rewrite stmt_bind_run.
  destruct (getitem_str doc "result") as [e|result] eqn:Hres; cbn [eval].
  { split; [intros [s' H]; discriminate|]. apply Hright. intros. congruence. }
  unfold mret at 1, Stmt_ret at 1. rewrite stmt_bind_run.
  destruct (getitem_str result "dataset") as [e|described] eqn:Hdes; cbn [eval].
  { split; [intros [s' H]; discriminate|]. apply Hright. intros. congruence. }
  unfold mret at 1, Stmt_ret at 1. rewrite stmt_bind_run.
  destruct (getitem_str described "url") as [e|url] eqn:Hu; cbn [eval].
  { split; [intros [s' H]; discriminate|]. apply Hright. intros. congruence. }
  unfold mret at 1, Stmt_ret at 1.
  destruct (setitem_str_dict dataset url "url" "id" id Hid) as [dataset' Hset].
  rewrite Hset, eval_inr_bind, (getitem_setitem_str _ _ _ _ Hset), eval_inr_bind.
  rewrite stmt_bind_run. cbn [do]. rewrite stmt_bind_run.
  destruct (answer_get url) as [e|req'] eqn:Hget; cbn [request eval].
  { split; [intros [s' H]; discriminate|]. apply Hright. intros. congruence. }
  unfold mret at 1, Stmt_ret at 1.
  destruct (Z.eqb_spec (status req') 200) as [Hst'|Hst']; cbn [negb].
  { split; [intros [s' H]; discriminate|]. apply Hright. intros. congruence. }
  assert (Hid' : getitem_str dataset' "id" = inr id).
  { destruct dataset; try discriminate. injection Hset as <-.
    cbn [getitem_str] in *. rewrite dict_get_dict_set. cbn.
    destruct (dict_get d "id"); [done|discriminate]. }
  rewrite Hid', eval_inr_bind, stmt_bind_run. cbn [do].
  split; [|intros _; by eexists].
  intros _. exists id, req. split; [done|]. split; [done|]. right.
  exists doc, result, described, url, req'. done.
Qed.

End BucketFacts.

(** * The other crawlers on concrete answers *)

Lemma org_qid_finds_or_adds_witness :
  let organization := JDict [("id", JNum 42); ("name", JStr "Example")] in
  let new_qid := fun cs : list PeeringdbOrg.call => JStr "Q7" in
  let s := PeeringdbOrg.Crawler ∅ [] in
  let s' := (PeeringdbOrg.org_qid JStr JStr new_qid str_scalar organization s).2 in
  PeeringdbOrg.org_qid JStr JStr new_qid str_scalar organization s = (inr (JStr "Q7"), s') /\
  exists id,
    getitem_str organization "id" = inr id /\
    PeeringdbOrg.orgid2qid s' !! str_scalar id = Some (JStr "Q7") /\
    (forall k, k <> str_scalar id ->
               PeeringdbOrg.orgid2qid s' !! k = PeeringdbOrg.orgid2qid s !! k) /\
    (forall q0, PeeringdbOrg.orgid2qid s !! str_scalar id = Some q0 ->
                JStr "Q7" = q0 /\ s' = s) /\
    (PeeringdbOrg.orgid2qid s !! str_scalar id = None ->
     JStr "Q7" = new_qid (PeeringdbOrg.calls s) /\
     exists label statements,
       PeeringdbOrg.calls s'
       = PeeringdbOrg.calls s
         ++ [PeeringdbOrg.AddItem "add new peeringDB organization" label statements] /\
       PeeringdbOrg.added_id
         (PeeringdbOrg.AddItem "add new peeringDB organization" label statements)
       = Some (JStr (str_scalar id))).
Proof.
  intros organization new_qid s s'.
  assert (H : PeeringdbOrg.org_qid JStr JStr new_qid str_scalar organization s
              = (inr (JStr "Q7"), s')) by (vm_compute; reflexivity).
  split; [exact H|].
  apply (org_qid_finds_or_adds JStr JStr new_qid str_scalar organization s s' (JStr "Q7") H).
Defined.

Lemma org_qid_memoizes_witness :
  let organization := JDict [("id", JNum 42); ("name", JStr "Example")] in
  let again := JDict [("id", JStr "42")] in
  let new_qid := fun cs : list PeeringdbOrg.call => JStr "Q7" in
  let s := PeeringdbOrg.Crawler ∅ [] in
  let s' := (PeeringdbOrg.org_qid JStr JStr new_qid str_scalar organization s).2 in
  (getitem_str organization "id" = inr (JNum 42) /\
   getitem_str again "id" = inr (JStr "42") /\
   str_scalar (JStr "42") = str_scalar (JNum 42) /\
   PeeringdbOrg.org_qid JStr JStr new_qid str_scalar organization s = (inr (JStr "Q7"), s')) /\
  PeeringdbOrg.org_qid JStr JStr new_qid str_scalar again s' = (inr (JStr "Q7"), s').
Proof.
  intros organization again new_qid s s'.
  assert (H1 : getitem_str organization "id" = inr (JNum 42)) by reflexivity.
  assert (H2 : getitem_str again "id" = inr (JStr "42")) by reflexivity.
  assert (H3 : str_scalar (JStr "42") = str_scalar (JNum 42)) by (vm_compute; reflexivity).
  assert (H4 : PeeringdbOrg.org_qid JStr JStr new_qid str_scalar organization s
               = (inr (JStr "Q7"), s')) by (vm_compute; reflexivity).
  split; [done|].
  apply (org_qid_memoizes JStr JStr new_qid str_scalar organization again
           (JNum 42) (JStr "42") s s' (JStr "Q7") H1 H2 H3 H4).
Defined.

Lemma run_updates_until_incomplete_witness :
  let good := [JDict [("id", JNum 42); ("name", JStr " Example "); ("website", JStr "");
                      ("country", JStr "NL")]] in
  let rest := [JDict [("id", JNum 43)]] in
  let doc := JDict [("data", JList (good ++ rest))] in
  let req := Reply 200 (Some doc) [] in
  let new_qid := fun cs : list PeeringdbOrg.call => JStr "Q7" in
  let s := PeeringdbOrg.Crawler ∅ [] in
  (Answered req = Answered req /\
   status req = 200%Z /\
   json_doc req = Some doc /\
   getitem_str doc "data" = inr (JList (good ++ rest)) /\
   Forall PeeringdbOrg.complete good /\
   (forall o, head rest = Some o -> ~ PeeringdbOrg.complete o)) /\
  exists r s' new,
    PeeringdbOrg.run JStr JStr new_qid JNull str_scalar (fun name => name) ∅ (Answered req) s
    = (r, s') /\
    PeeringdbOrg.calls s' = PeeringdbOrg.calls s ++ new /\
    Forall2 (PeeringdbOrg.updates s' str_scalar) good
      (List.filter PeeringdbOrg.is_upsert new) /\
    (r = inr tt <-> rest = []).
Proof.
  intros good rest doc req new_qid s.
  assert (H1 : Answered req = Answered req) by reflexivity.
  assert (H2 : status req = 200%Z) by reflexivity.
  assert (H3 : json_doc req = Some doc) by reflexivity.
  assert (H4 : getitem_str doc "data" = inr (JList (good ++ rest))) by reflexivity.
  assert (H5 : Forall PeeringdbOrg.complete good).
  { constructor; [|constructor].
    split; [by exists " Example "|]. split; [by exists (JStr "")|].
    split; [by exists (JStr "NL")|by exists (JNum 42)]. }
  assert (H6 : forall o, head rest = Some o -> ~ PeeringdbOrg.complete o).
  { intros o [= <-] [[name Hname] _]. discriminate. }
  split; [done|].
  apply (run_updates_until_incomplete JStr JStr new_qid JNull str_scalar (fun name => name) ∅
           (Answered req) req doc good rest s H1 H2 H3 H4 H5 H6).
Defined.

Lemma link_properties_are_rank_and_reference_witness :
  let reference := [("reference_org", JStr "Cloudflare"); ("reference_name", JStr "top100")] in
  NoDup reference.*1 /\
  dict_get (dict_kwargs [("rank", JNum 1)] reference) "rank"
  = match dict_get reference "rank" with
    | Some v => Some v
    | None => if String.eqb "rank" "rank" then Some (JNum 1) else None
    end.
Proof.
  intros reference.
  assert (H : NoDup reference.*1) by (apply (bool_decide_unpack _); vm_compute; exact I).
  split; [exact H|].
  apply (link_properties_are_rank_and_reference reference (JNum 1) "rank" H).
Defined.

Lemma top100_links_until_unranked_witness :
  let good := [JDict [("domain", JStr "a.com"); ("rank", JNum 1)]] in
  let rest := [JDict [("domain", JStr "b.org")]] in
  let result := JDict [("top", JList (good ++ rest))] in
  let doc := JDict [("result", result)] in
  let req := Reply 200 (Some doc) [] in
  let reference := [("reference_url", JStr "https://api.example/top")] in
  let node_id := fun cs : list CloudflareTop100.call => JNum (Z.of_nat (length cs)) in
  let download := fun url : json => Answered req in
  let s := CloudflareTop100.Crawler None [] in
  (getitem_str (JDict reference) "reference_url" = inr (JStr "https://api.example/top") /\
   download (JStr "https://api.example/top") = Answered req /\
   status req = 200%Z /\
   json_doc req = Some doc /\
   getitem_str doc "result" = inr result /\
   getitem_str result "top" = inr (JList (good ++ rest)) /\
   Forall CloudflareTop100.ranked good /\
   (forall entry, head rest = Some entry -> ~ CloudflareTop100.ranked entry)) /\
  exists r s' new,
    CloudflareTop100.run node_id reference download s = (r, s') /\
    CloudflareTop100.calls s' = CloudflareTop100.calls s ++ new /\
    Forall2 (CloudflareTop100.links reference (node_id (CloudflareTop100.calls s))) good
      (List.filter CloudflareTop100.is_add_links new) /\
    (r = inr tt <-> rest = []).
Proof.
  intros good rest result doc req reference node_id download s.
  assert (H1 : getitem_str (JDict reference) "reference_url"
               = inr (JStr "https://api.example/top")) by reflexivity.
  assert (H2 : download (JStr "https://api.example/top") = Answered req) by reflexivity.
  assert (H3 : status req = 200%Z) by reflexivity.
  assert (H4 : json_doc req = Some doc) by reflexivity.
  assert (H5 : getitem_str doc "result" = inr result) by reflexivity.
  assert (H6 : getitem_str result "top" = inr (JList (good ++ rest))) by reflexivity.
  assert (H7 : Forall CloudflareTop100.ranked good).
  { constructor; [|constructor]. split; [by exists (JNum 1)|by exists (JStr "a.com")]. }
  assert (H8 : forall entry, head rest = Some entry -> ~ CloudflareTop100.ranked entry).
  { intros entry [= <-] [[rank Hrank] _]. discriminate. }
  split; [done|].
  apply (top100_links_until_unranked node_id reference download
           (JStr "https://api.example/top") req doc result good rest s
           H1 H2 H3 H4 H5 H6 H7 H8).
Defined.

Lemma bucket_links_share_the_reference_witness :
  let dataset := JDict [("id", JNum 1); ("title", JStr "Top 100"); ("description", JStr "d");
                        ("meta", JDict [("top", JNum 100);
                                        ("targetDateEnd", JStr "2024-05-01")])] in
  let listing := Answered (Reply 200
                   (Some (JDict [("success", JBool true);
                                 ("result", JDict [("datasets", JList [dataset])])])) []) in
  let post := fun id : json =>
    Answered (Reply 200
      (Some (JDict [("result",
                     JDict [("dataset", JDict [("url", JStr "https://x.example/1.csv")])])]))
      []) in
  let get := fun url : json => Answered (Reply 200 None ["domain"; "a.com"]) in
  let node_ids := fun (cs : list CloudflareRankingBucket.call) (names : gset string) =>
                    gset_to_gmap (JNum 7) names in
  let node_id := fun cs : list CloudflareRankingBucket.call => JNum 9 in
  let s := CloudflareRankingBucket.Crawler None [] in
  let s' := (CloudflareRankingBucket.run strptime_day str_scalar listing post get
               node_ids node_id s).2 in
  let rt := Some (Datetime 2024 5 1 0 0 0) in
  (CloudflareRankingBucket.calls s'
   = CloudflareRankingBucket.calls s ++ CloudflareRankingBucket.calls s' /\
   CloudflareRankingBucket.BatchAddLinks "RANK" [(JNum 7, JNum 9)] rt
   ∈ CloudflareRankingBucket.calls s') /\
  "RANK" = "RANK" /\ [(JNum 7, JNum 9)] <> [] /\
  (exists dst_id, Forall (fun link : json * json => link.2 = dst_id) [(JNum 7, JNum 9)]) /\
  rt = CloudflareRankingBucket.reference_time s'.
Proof.
  intros dataset listing post get node_ids node_id s s' rt.
  assert (H1 : CloudflareRankingBucket.calls s'
               = CloudflareRankingBucket.calls s ++ CloudflareRankingBucket.calls s')
    by reflexivity.
  assert (H2 : CloudflareRankingBucket.BatchAddLinks "RANK" [(JNum 7, JNum 9)] rt
               ∈ CloudflareRankingBucket.calls s').
  { apply (list_elem_of_lookup_2 _ 8). vm_compute. reflexivity. }
  split; [split; [exact H1|exact H2]|].
  apply (bucket_links_share_the_reference strptime_day str_scalar listing post get
           node_ids node_id s "RANK" [(JNum 7, JNum 9)] rt
           (CloudflareRankingBucket.calls s') H1 H2).
Defined.

